(* ===== verification/_CoqProject ===== *)
-Q . S2P
Prelude.v
Fetch.v
CacheStorage.v
ServiceWorker.v
Worker.v
Proxy.v
Timers.v
Debounce.v
Dom.v
App.v
Overlay.v
System.v
