(* ===== verification/Prelude.v ===== *)
(** * A verification development for the GameHub PWA (src/pwa)

    The repository is a progressive web app with two scripts that never
    call each other directly:

    - [src/pwa/service-worker.js], the offline cache proxy.  It keeps a
      versioned bucket [CACHE_NAME = 'gamehub-v1'] in the browser's
      CacheStorage, seeds it with [urlsToCache] on [install], deletes
      every other bucket on [activate], answers [fetch] events
      cache-first with a network fallback that stores basic 200 answers
      through a promise chain nobody awaits, falls back to the cached
      ['/index.html'] when the network fails, and reacts to [sync],
      [push], [notificationclick] and [message] events.
    - [src/pwa/app.js], the page controller.  It registers the worker,
      wires DOM listeners (navigation, cart counter, search, filters,
      tabs, profile form, switches, library play/install buttons,
      trailer, purchase, news), shows toasts through [showNotification]
      with two timers, keeps the deferred install prompt, and debounces
      the window-controls-overlay [geometrychange] handler with
      [debounce].

    The two scripts interact only through the browser: the page's
    requests reach the worker's [fetch] handler, and the page may post the
    [skipWaiting] / [clearCache] messages.

    ** Layout of the development (files in dependency order)

    - [Prelude]: this header, the [pwa_scope] scope (which holds the
      step notations [s ~{ ev }~> s'] of the page, declared in App, and
      [w --[ ev ]--> w'] of the worker, declared in Worker), the shared tactics,
      the [pwa] hint databases, generic lemmas on lists, filters, folds
      and [rtc] ([rtc_invariant], [foldl_invariant]), and ordered
      association lists ([alist]) with their lemmas.
    - [Fetch]: the Fetch API values the worker manipulates ([Request],
      [Response], the network's answer [NetResult]).
    - [CacheStorage]: the browser's CacheStorage as an ordered list of
      names bound to handles into a heap of url-keyed [gmap] caches, so
      that a [Cache] handle outlives [caches.delete] as in the browser;
      the operations the worker calls ([open], [keys], [delete], [match],
      [put], [addAll]), the well-formedness [cs_wf] and [heap_ok] that
      each preserves, and their laws.
    - [ServiceWorker] (Module [SW]): one definition per listener of
      service-worker.js ([on_install], [on_activate], [on_fetch],
      [run_job], [on_sync], [on_push], [on_notificationclick],
      [on_message]) over an explicit worker state [SWState]; the network's
      answers are arguments.  The [caches.open().then(put)] chain that
      [fetch] leaves running is a two-stage [Job] queued in [sw_jobs].
      Theorems C1-C11: the fetch strategy (hit, the write the listener
      queues and the hit it leads to, offline fallback, pass-through,
      the pending-write race, non-GET writes), install and activate, and
      the clearCache message.
    - [Worker] (Module [Lifecycle]): the worker as a labelled step
      relation [wstep] (install, activate gated by skipWaiting or the
      old clients, fetch, detached jobs, message, sync, push, click) and
      [reachable]; invariants by rule induction (C12, C13), the lifecycle
      (C14), and the bound of one notification on screen, which rests on
      the push's tag (C29).
    - [Proxy] (Module [Proxy]): the spec's contract for the proxy as an
      abstract machine (one url-keyed cache, a multiset of pending
      writes; fetch from cache, else network, else the offline
      document; writes land or are lost; clear), the abstraction
      [cs_view] of CacheStorage as the left-biased union of its buckets
      in creation order, and the simulation: every step of an activated
      worker is matched by at most one abstract step with the same
      answer (C28).
    - [Timers]: the event loop's timers ([setTimeout], [clearTimeout],
      [pop_due]: earliest due first, ties in the order set).
    - [Debounce] (Module [Debounce]): the [debounce] helper of app.js
      over its own timer list, driven by a stream of timed calls, proved
      equal to a reference specification of which calls run and when
      (C15, C16).
    - [Dom] (Module [Dom]): elements in document order, selectors,
      [querySelectorAll], [getElementById], class lists and setters.
    - [App] (Module [App]): the page state of app.js, one definition per
      listener, the listener table [setup] built in the script's
      registration order, [dispatch] of an event to an element's
      listeners, and the event step [app_step] (clicks, toggles, submits,
      the install prompt's events, online/offline, overlay geometry
      changes, timer ticks).  Theorems C17-C27: navigation and its
      TypeError path, the cart bound over every reachable state,
      exclusive filters and tabs, the toast lifecycle with its
      scheduling invariant and drain (the fuel [timers_weight] is enough
      since each tick lowers it), the library install state machine, and
      the install prompt; C31: the TypeError of the listeners that look
      up a missing title.  The overlay's [geometrychange] event updates
      the visibility [showNotification] reads and runs the listener's
      [debounce] on the page's own timers ([on_geometrychange], the
      [TGeometryLater] task, the closure's [timeout] as
      [a_wco_timeout]); C33: [timeout] always names that listener's
      pending timer and no other, so the debounce never cancels a toast,
      cart or install timer.
    - [Overlay] (Module [Overlay]): the window-controls-overlay section
      of app.js (lines 18-49) as the console lines it writes: the
      availability check at load and the debounced handler, which reads
      the overlay's visibility when it runs.  C32: for changes in time
      order, the output is the handler's lines for the last change of
      each burst, with that change's visibility, and the handler warns
      exactly below 600 px.
    - [System] (Module [System]): the window's [load] listener that
      registers the worker (app.js lines 56-66) and the page composed
      with its worker; a first visit registers, installs and activates
      a worker after which every GET of an asset is answered offline
      from the cache and any other request with the cached
      [/index.html] (C30).

    Property ids C1-C33 are those of the project manifest; each with a
    hypothesis has a witness that applies it to a concrete state
    ([sw_active], [w_upgrade], [demo_page], [demo_state], ...).

    ** Not modelled

    Console output, except that of the overlay section, whose handler
    does nothing else (pure I/O); the style element with the toasts'
    keyframes (lines 207-232) and the CSS of the toasts beyond their top
    offset: static text no listener reads; event bubbling (app.js only listens on the
    elements it queried); [debounce]'s [this] binding; a return visit,
    where registration finds the previous version's worker (the model
    starts from a first visit).  The page model lets [geometrychange]
    happen whatever the browser, although without the overlay API the
    listener is never added: the reachable states over-approximate the
    page's, so the invariants hold a fortiori.  The interface between the
    worker and CacheStorage is the set of laws in CacheStorage.v.

    Browser objects (CacheStorage, Request, Response, timers, the DOM,
    the overlay's geometry) are modelled from the platform's documented
    behaviour; they are the environment of the code and are not entries
    of the map. *)

From stdpp Require Export base list gmap strings relations.
From Stdlib Require Export Lia.

Declare Scope pwa_scope.
Delimit Scope pwa_scope with pwa.


(** ** Tactics *)

Ltac invc H := inversion H; subst; clear H.

(** Case analysis on a string comparison, the way the scripts compare with
    [===]. *)
Ltac case_str a b :=
  destruct (String.eqb_spec a b) as [<-|?].

Create HintDb pwa discriminated.
Create Rewrite HintDb pwa_rw.

(** ** Ordered association lists

    JavaScript's [Map]-like browser objects (CacheStorage's name to cache
    map, the DOM's document order) keep insertion order, which is
    observable ([caches.keys()], [caches.match] searching buckets in
    order).  They are lists of pairs searched front to back. *)

Abbreviation alist V := (list (string * V)).

Section AlistDefs.
Context {V : Type}.
Implicit Types (l : alist V) (k : string) (v : V).

Fixpoint alist_find k l : option V :=
  match l with
  | [] => None
  | (k', v) :: l' => if String.eqb k k' then Some v else alist_find k l'
  end.

Definition alist_keys l : list string := l.*1.

Fixpoint alist_remove k l : alist V :=
  match l with
  | [] => []
  | (k', v) :: l' =>
      if String.eqb k k' then alist_remove k l' else (k', v) :: alist_remove k l'
  end.

Fixpoint alist_update k (f : V -> V) l : alist V :=
  match l with
  | [] => []
  | (k', v) :: l' =>
      if String.eqb k k' then (k', f v) :: l' else (k', v) :: alist_update k f l'
  end.

End AlistDefs.

(** ** JavaScript values shared by both scripts *)

(** Truthiness of a string in a JavaScript [if]: only the empty string is
    falsy ([null] is modelled by [option] where the code can receive it). *)
Definition js_truthy (s : string) : bool := negb (String.eqb s "").

(** ** Generic list lemmas *)

Lemma filter_all_true {A} (P : A -> Prop) `{!forall x, Decision (P x)} (l : list A) :
  (forall x, x ∈ l -> P x) -> filter P l = l.
Proof.
  induction l as [|x l IH]; intros Hall; [done|].
  rewrite filter_cons, decide_True by (apply Hall; left).
  f_equal. apply IH. intros y Hy. apply Hall. by right.
Qed.

Lemma filter_iff_in {A} (P1 P2 : A -> Prop)
    `{!forall x, Decision (P1 x), !forall x, Decision (P2 x)} (l : list A) :
  (forall x, x ∈ l -> (P1 x <-> P2 x)) -> filter P1 l = filter P2 l.
Proof.
  induction l as [|x l IH]; intros Hiff; [done|]. rewrite !filter_cons.
  rewrite IH by (intros y Hy; apply Hiff; by right).
  assert (P1 x <-> P2 x) as Hx by (apply Hiff; left).
  destruct (decide (P1 x)), (decide (P2 x)); naive_solver.
Qed.

Lemma filter_all_false {A} (P : A -> Prop) `{!forall x, Decision (P x)} (l : list A) :
  (forall x, x ∈ l -> ~ P x) -> filter P l = [].
Proof.
  induction l as [|x l IH]; intros Hnone; [done|].
  rewrite filter_cons, decide_False by (apply Hnone; left).
  apply IH. intros y Hy. apply Hnone. by right.
Qed.

Lemma Forall_filter_sub {A} (P Q : A -> Prop) `{!forall x, Decision (Q x)} (l : list A) :
  Forall P l -> Forall P (filter Q l).
Proof.
  rewrite !Forall_forall. intros Hall x Hx. apply Hall.
  by apply list_elem_of_filter in Hx as [_ ?].
Qed.

Lemma NoDup_fmap_filter {A B} (f : A -> B) (P : A -> Prop) `{!forall x, Decision (P x)}
    (l : list A) :
  NoDup (f <$> l) -> NoDup (f <$> filter P l).
Proof.
  induction l as [|x l IH]; [done|]. rewrite filter_cons. simpl.
  intros [Hn Hnd]%NoDup_cons. case_decide; simpl; [|by apply IH].
  constructor; [|by apply IH]. intros (y & Heq & Hy)%list_elem_of_fmap.
  apply Hn, list_elem_of_fmap. exists y. split; [done|]. by apply list_elem_of_filter in Hy as [_ ?].
Qed.

(** ** Invariants of transition systems

    A property that holds initially and that every step preserves holds
    in every state reachable by [rtc]. *)
Lemma rtc_invariant {A} (R : relation A) (I : A -> Prop) x y :
  (forall a b, R a b -> I a -> I b) -> rtc R x y -> I x -> I y.
Proof. intros Hstep Hrtc. induction Hrtc as [|a b c Hab _ IH]; eauto. Qed.

Lemma foldl_invariant {A B} (P : A -> Prop) (f : A -> B -> A) (xs : list B) a :
  P a -> (forall x a, x ∈ xs -> P a -> P (f a x)) -> P (foldl f a xs).
Proof.
  revert a. induction xs as [|x xs IH]; intros a Ha Hf; simpl; [done|].
  apply IH; [apply Hf; [left|done]|]. intros y b Hy. apply Hf. by right.
Qed.

Lemma filter_length_mono {A} (P Q : A -> Prop) `{!forall x, Decision (P x)} `{!forall x, Decision (Q x)}
    (l : list A) :
  (forall x, x ∈ l -> P x -> Q x) -> length (filter P l) <= length (filter Q l).
Proof.
  induction l as [|x l IH]; intros Hpq; [done|]. rewrite !filter_cons.
  assert (IH' : length (filter P l) <= length (filter Q l)) by (apply IH; set_solver).
  destruct (decide (P x)) as [Hp|], (decide (Q x)) as [|Hq]; simpl; try lia.
  exfalso. apply Hq, Hpq; [left|done].
Qed.

Lemma filter_length_lt {A} (P Q : A -> Prop) `{!forall x, Decision (P x)} `{!forall x, Decision (Q x)}
    (l : list A) x :
  (forall y, y ∈ l -> P y -> Q y) -> x ∈ l -> Q x -> ~ P x ->
  length (filter P l) < length (filter Q l).
Proof.
  induction l as [|y l IH]; intros Hpq Hx HQ HP; [set_solver|]. rewrite !filter_cons.
  assert (Hm : length (filter P l) <= length (filter Q l)) by (apply filter_length_mono; set_solver).
  apply elem_of_cons in Hx as [->|Hx].
  - rewrite decide_False, decide_True by done. simpl. lia.
  - assert (length (filter P l) < length (filter Q l)) by (apply IH; set_solver).
    destruct (decide (P y)) as [Hp|], (decide (Q y)) as [|Hq]; simpl; try lia.
    exfalso. apply Hq, Hpq; [left|done].
Qed.

Lemma NoDup_fmap_inj_in {A B} (f : A -> B) (l : list A) x y :
  NoDup (f <$> l) -> x ∈ l -> y ∈ l -> f x = f y -> x = y.
Proof.
  induction l as [|z l IH]; intros Hnd Hx Hy Hf; [by apply elem_of_nil in Hx|].
  simpl in Hnd. apply NoDup_cons in Hnd as [Hn Hnd].
  apply elem_of_cons in Hx as [->|Hx], Hy as [->|Hy]; [done| | |by apply IH].
  - destruct Hn. rewrite Hf. by apply list_elem_of_fmap_2.
  - destruct Hn. rewrite <- Hf. by apply list_elem_of_fmap_2.
Qed.

Lemma sum_list_fmap_app {A} (f : A -> nat) (l k : list A) :
  sum_list (f <$> l ++ k) = sum_list (f <$> l) + sum_list (f <$> k).
Proof. by rewrite fmap_app, sum_list_with_app. Qed.

Lemma sum_list_fmap_filter {A} (f : A -> nat) (P : A -> Prop) `{!forall x, Decision (P x)} (l : list A) :
  sum_list (f <$> filter P l) <= sum_list (f <$> l).
Proof.
  induction l as [|x l IH]; [done|]. rewrite filter_cons.
  case_decide; rewrite ?fmap_cons; simpl; lia.
Qed.

(** Elements that all share one key of a list whose keys are unique:
    at most one. *)
Lemma filter_same_key_le1 {A B} (f : A -> B) (P : A -> Prop) `{!forall x, Decision (P x)} (l : list A) :
  NoDup (f <$> l) -> (forall x y, x ∈ l -> y ∈ l -> P x -> P y -> f x = f y) ->
  length (filter P l) <= 1.
Proof.
  induction l as [|x l IH]; intros Hnd Hsame; [simpl; lia|].
  rewrite fmap_cons in Hnd. apply NoDup_cons in Hnd as [Hx Hnd]. rewrite filter_cons. case_decide as Hp.
  - destruct (filter P l) as [|y k] eqn:Hf; [done|]. exfalso.
    assert (Hy : y ∈ filter P l) by (rewrite Hf; left). apply list_elem_of_filter in Hy as [Hpy Hy].
    apply Hx, list_elem_of_fmap. exists y. split; [apply Hsame; [left|right|..]|]; done.
  - apply IH; [done|]. intros y z Hy Hz. apply Hsame; by right.
Qed.

(** An element found at index [i] of [l'] is at some index [k] of any
    permutation [l] of [l'], and removing it from both keeps them
    permutations of each other. *)
Lemma perm_lookup_delete {A} (l l' : list A) i x :
  l ≡ₚ l' -> l' !! i = Some x -> exists k, l !! k = Some x /\ delete k l ≡ₚ delete i l'.
Proof.
  intros Hp Hi. assert (Hx : x ∈ l) by (rewrite Hp; by eapply list_elem_of_lookup_2).
  apply list_elem_of_lookup in Hx as [k Hk]. exists k. split; [done|].
  apply (Permutation_cons_inv (a:=x)). rewrite <- !delete_Permutation by done. done.
Qed.

(** ** Lemmas on association lists *)

Section AlistLemmas.
Context {V : Type}.
Implicit Types (l : alist V) (k : string) (v : V).

Lemma alist_find_app k l1 l2 :
  alist_find k (l1 ++ l2) =
  match alist_find k l1 with Some v => Some v | None => alist_find k l2 end.
Proof. induction l1 as [|[k' v'] l1 IH]; simpl; [done|]. by destruct (String.eqb k k'). Qed.

Lemma alist_find_None k l : alist_find k l = None <-> k ∉ alist_keys l.
Proof.
  induction l as [|[k' v'] l IH]; simpl; [set_solver|].
  rewrite elem_of_cons. case_str k k'; [|rewrite IH]; naive_solver.
Qed.

Lemma alist_find_Some_keys k l v : alist_find k l = Some v -> k ∈ alist_keys l.
Proof.
  intros H. destruct (decide (k ∈ alist_keys l)) as [|Hn]; [done|].
  apply alist_find_None in Hn. congruence.
Qed.

Lemma alist_find_Some_elem k v l : alist_find k l = Some v -> (k, v) ∈ l.
Proof.
  induction l as [|[k' v'] l IH]; simpl; [done|].
  case_str k k'; [intros [= ->]; left|intros; right; by apply IH].
Qed.

Lemma alist_find_elem k v l :
  NoDup (alist_keys l) -> (k, v) ∈ l -> alist_find k l = Some v.
Proof.
  induction l as [|[k' v'] l IH]; simpl; [set_solver|].
  intros [Hn Hnd]%NoDup_cons [[= -> ->]|Hin]%elem_of_cons; [by rewrite String.eqb_refl|].
  case_str k k'; [|by apply IH].
  exfalso. apply Hn, list_elem_of_fmap. by exists (k, v).
Qed.

Lemma alist_remove_filter k l : alist_remove k l = filter (fun p => k <> p.1) l.
Proof.
  induction l as [|[k' v'] l IH]; [done|]. rewrite filter_cons. simpl.
  case_str k k'.
  - rewrite decide_False; [done|]. intros Hc. by apply Hc.
  - rewrite decide_True by done. by f_equal.
Qed.

Lemma alist_find_filter (P : string * V -> Prop) `{!forall p, Decision (P p)} k v l :
  NoDup (alist_keys l) -> alist_find k (filter P l) = Some v -> alist_find k l = Some v.
Proof.
  intros Hnd Hf%alist_find_Some_elem. apply alist_find_elem; [done|].
  by apply list_elem_of_filter in Hf as [_ ?].
Qed.

Lemma alist_find_remove_eq k l : alist_find k (alist_remove k l) = None.
Proof.
  induction l as [|[k' v'] l IH]; simpl; [done|].
  case_str k k'; simpl; [done|].
  destruct (String.eqb_spec k k'); [congruence|exact IH].
Qed.

Lemma alist_find_remove_ne k k' l :
  k <> k' -> alist_find k' (alist_remove k l) = alist_find k' l.
Proof.
  intros Hne. induction l as [|[k'' v'] l IH]; simpl; [done|].
  case_str k k''; simpl.
  - destruct (String.eqb_spec k' k); [congruence|exact IH].
  - by destruct (String.eqb k' k'').
Qed.

Lemma alist_keys_remove k l :
  alist_keys (alist_remove k l) = filter (fun k' => k <> k') (alist_keys l).
Proof.
  induction l as [|[k' v'] l IH]; simpl; [done|].
  rewrite filter_cons. case_str k k'; simpl; rewrite ?IH.
  - rewrite decide_False; [done|]. intros Hc. by apply Hc.
  - by rewrite decide_True.
Qed.

Lemma alist_keys_update k f l : alist_keys (alist_update k f l) = alist_keys l.
Proof.
  induction l as [|[k' v'] l IH]; simpl; [done|].
  destruct (String.eqb k k'); simpl; by rewrite ?IH.
Qed.

Lemma alist_find_update_eq k f l :
  alist_find k (alist_update k f l) = f <$> alist_find k l.
Proof.
  induction l as [|[k' v'] l IH]; simpl; [done|].
  case_str k k'; simpl; [by rewrite String.eqb_refl|].
  destruct (String.eqb_spec k k'); [congruence|exact IH].
Qed.

Lemma alist_find_update_ne k k' f l :
  k <> k' -> alist_find k' (alist_update k f l) = alist_find k' l.
Proof.
  intros Hne. induction l as [|[k'' v'] l IH]; simpl; [done|].
  case_str k k''; simpl.
  - destruct (String.eqb_spec k' k); [congruence|done].
  - by destruct (String.eqb k' k'').
Qed.

Lemma alist_keys_app l1 l2 : alist_keys (l1 ++ l2) = alist_keys l1 ++ alist_keys l2.
Proof. apply fmap_app. Qed.

Lemma alist_keys_remove_sub k l : alist_keys (alist_remove k l) ⊆ alist_keys l.
Proof.
  rewrite alist_keys_remove. intros x Hx.
  apply list_elem_of_filter in Hx. naive_solver.
Qed.

Lemma alist_not_in_keys_remove k l : k ∉ alist_keys (alist_remove k l).
Proof. apply alist_find_None, alist_find_remove_eq. Qed.

Lemma NoDup_alist_remove k l :
  NoDup (alist_keys l) -> NoDup (alist_keys (alist_remove k l)).
Proof. rewrite alist_keys_remove. apply NoDup_filter. Qed.

Lemma alist_remove_elem k p l : p ∈ alist_remove k l -> p ∈ l.
Proof.
  induction l as [|[k' v'] l IH]; simpl; [done|].
  destruct (String.eqb k k'); rewrite ?elem_of_cons; naive_solver.
Qed.

Lemma NoDup_alist_remove_vals k l : NoDup l.*2 -> NoDup (alist_remove k l).*2.
Proof.
  induction l as [|[k' v'] l IH]; simpl; [done|].
  intros [Hn Hnd]%NoDup_cons. destruct (String.eqb k k'); simpl; [by apply IH|].
  constructor; [|by apply IH]. intros ([k'' v''] & Heq & Hin)%list_elem_of_fmap.
  apply Hn, list_elem_of_fmap. exists (k'', v''). split; [done|].
  by eapply alist_remove_elem.
Qed.

Lemma NoDup_alist_snoc k v l :
  k ∉ alist_keys l -> NoDup (alist_keys l) -> NoDup (alist_keys (l ++ [(k, v)])).
Proof.
  intros Hk Hnd. rewrite alist_keys_app. simpl.
  apply NoDup_app. split_and!; [done| |by apply NoDup_singleton].
  intros x Hx Hx'. apply list_elem_of_singleton in Hx'. by subst.
Qed.
End AlistLemmas.


#[export] Hint Resolve NoDup_alist_remove NoDup_alist_snoc : pwa.
#[export] Hint Rewrite @alist_find_remove_eq @alist_keys_update @alist_find_update_eq : pwa_rw.

