(* ===== verification/Fetch.v ===== *)
(** * Fetch API values seen by service-worker.js

    [event.request], the responses of [fetch] and of the cache, and the
    network's answer.  These are browser objects, modelled from the Fetch
    standard as far as the worker's code observes them: a request's url,
    method and mode; a response's status, type and body; a network answer
    that is a response or a rejection ([fetch] rejects with a [TypeError]
    on a network failure, never on an HTTP error status). *)

From S2P Require Import Prelude.

Inductive RequestMode := Navigate | SameOrigin | NoCors | CorsMode.

Record Request := mkRequest {
  req_url : string;
  req_method : string;
  req_mode : RequestMode
}.

(** [Response.type]: ['basic'] for same-origin answers, ['cors'],
    ['opaque'] for no-cors cross-origin answers, ['error'] for
    [Response.error()], and the rest. *)
Inductive ResponseType := Basic | Cors | Default | ErrorType | Opaque | OpaqueRedirect.

Record Response := mkResponse {
  res_status : nat;
  res_type : ResponseType;
  res_body : string
}.

(** The answer of the network to one [fetch(request)]. *)
Inductive NetResult := NetOk (r : Response) | NetFail.

#[export] Instance RequestMode_eq_dec : EqDecision RequestMode.
Proof. solve_decision. Defined.
#[export] Instance Request_eq_dec : EqDecision Request.
Proof. solve_decision. Defined.
#[export] Instance ResponseType_eq_dec : EqDecision ResponseType.
Proof. solve_decision. Defined.
#[export] Instance Response_eq_dec : EqDecision Response.
Proof. solve_decision. Defined.
#[export] Instance NetResult_eq_dec : EqDecision NetResult.
Proof. solve_decision. Defined.

(** [new Request(url)], what [caches.match('/index.html')] and
    [cache.addAll(urls)] build from a string: a GET in cors mode. *)
Definition request_of_url (url : string) : Request :=
  mkRequest url "GET" CorsMode.

Definition is_get (r : Request) : bool := String.eqb (req_method r) "GET".

(** [response.ok]: status in 200..299. *)
Definition res_ok (r : Response) : bool := (200 <=? res_status r) && (res_status r <=? 299).

(** [response.clone()] copies the response; responses are values here, so
    the copy is the same value (bodies are never read by the worker before
    cloning, so the clone cannot fail on a disturbed body). *)
Definition res_clone (r : Response) : Response := r.

Lemma res_ok_200 r : res_status r = 200 -> res_ok r = true.
Proof. intros H. unfold res_ok. rewrite H. done. Qed.

#[export] Hint Resolve res_ok_200 : pwa.
