(* ===== verification/CacheStorage.v ===== *)
(** * The browser's CacheStorage and Cache objects

    The environment of service-worker.js: [caches.open], [caches.keys],
    [caches.delete], [caches.match], [cache.put] and [cache.addAll],
    modelled from the Service Worker specification.

    A [Cache] object is a reference to a request/response list.  The
    storage maps bucket names, in creation order, to such references, and
    the references point into a heap of caches.  [caches.delete(name)]
    removes the name only: a [Cache] handle obtained earlier from
    [caches.open(name)] still accepts [put], into a cache no name reaches
    any more.  The worker's fetch handler keeps such a handle across an
    await, so the aliasing is part of the model.

    Only GET requests are stored and matched (the worker never passes
    [ignoreMethod]), and entries are keyed by the request's url (the
    [Vary] header is not modelled). *)

From S2P Require Import Prelude Fetch.

Abbreviation Cache := (gmap string Response).

Record CacheStorage := mkCS {
  cs_names : alist nat;       (** bucket name -> cache handle, creation order *)
  cs_heap : gmap nat Cache;   (** the caches handles refer to *)
  cs_next : nat               (** next fresh handle *)
}.

(** Rejections of the Cache API promises. *)
Inductive CacheError := TypeError | InvalidStateError.

Definition cs_empty : CacheStorage := mkCS [] ∅ 0.

(** [caches.keys()] *)
Definition cs_keys (cs : CacheStorage) : list string := alist_keys (cs_names cs).

(** The cache a bucket name currently refers to. *)
Definition cs_bucket (name : string) (cs : CacheStorage) : option Cache :=
  alist_find name (cs_names cs) ≫= fun h => cs_heap cs !! h.

(** [caches.open(name)]: the existing handle, or a fresh empty cache
    appended to the name list. *)
Definition cs_open (name : string) (cs : CacheStorage) : nat * CacheStorage :=
  match alist_find name (cs_names cs) with
  | Some h => (h, cs)
  | None =>
      (cs_next cs,
       mkCS (cs_names cs ++ [(name, cs_next cs)])
            (<[cs_next cs := ∅]> (cs_heap cs)) (S (cs_next cs)))
  end.

(** [caches.delete(name)]: resolves to whether the name existed. *)
Definition cs_delete (name : string) (cs : CacheStorage) : bool * CacheStorage :=
  match alist_find name (cs_names cs) with
  | Some _ => (true, mkCS (alist_remove name (cs_names cs)) (cs_heap cs) (cs_next cs))
  | None => (false, cs)
  end.

(** [cache.match(request)] on one cache. *)
Definition cache_match (req : Request) (c : Cache) : option Response :=
  if is_get req then c !! req_url req else None.

(** [caches.match(request)]: the first bucket, in creation order, holding
    a match. *)
Fixpoint names_match (req : Request) (names : alist nat) (heap : gmap nat Cache)
    : option Response :=
  match names with
  | [] => None
  | (_, h) :: names' =>
      match heap !! h ≫= cache_match req with
      | Some r => Some r
      | None => names_match req names' heap
      end
  end.

Definition cs_match (req : Request) (cs : CacheStorage) : option Response :=
  names_match req (cs_names cs) (cs_heap cs).

(** A write into the cache handle [h] refers to; the names are untouched. *)
Definition cs_alter (h : nat) (f : Cache -> Cache) (cs : CacheStorage) : CacheStorage :=
  mkCS (cs_names cs) (alter f h (cs_heap cs)) (cs_next cs).

(** [cache.put(request, response)] through handle [h]: a TypeError for a
    non-GET request or a 206 response, otherwise the entry for the url is
    replaced. *)
Definition cache_put (h : nat) (req : Request) (resp : Response) (cs : CacheStorage)
    : CacheError + CacheStorage :=
  if negb (is_get req) then inl TypeError
  else if res_status resp =? 206 then inl TypeError
  else inr (cs_alter h (insert (req_url req) resp) cs).

(** The answers [cache.addAll] accepts: ok, not a partial 206, not an
    error response. *)
Definition add_all_accepts (r : Response) : bool :=
  res_ok r && negb (res_status r =? 206) && negb (bool_decide (res_type r = ErrorType)).

(** The responses [cache.addAll(requests)] fetched: every fetch must
    resolve with an ok, non-206, non-error response, otherwise the whole
    call rejects with a TypeError. *)
Fixpoint add_all_responses (net : Request -> NetResult) (reqs : list Request)
    : CacheError + list (string * Response) :=
  match reqs with
  | [] => inr []
  | rq :: rest =>
      match net rq with
      | NetFail => inl TypeError
      | NetOk r =>
          if negb (is_get rq) || negb (add_all_accepts r) then inl TypeError
          else match add_all_responses net rest with
               | inl e => inl e
               | inr l => inr ((req_url rq, r) :: l)
               end
      end
  end.

Definition insert_all (l : list (string * Response)) (c : Cache) : Cache :=
  foldr (fun p c => <[p.1 := p.2]> c) c l.

(** [cache.addAll(requests)] through handle [h]: all entries are written
    in one batch, or none. *)
Definition cache_add_all (h : nat) (net : Request -> NetResult) (reqs : list Request)
    (cs : CacheStorage) : CacheError + CacheStorage :=
  if bool_decide (NoDup (req_url <$> reqs)) then
    match add_all_responses net reqs with
    | inl e => inl e
    | inr l => inr (cs_alter h (insert_all l) cs)
    end
  else inl InvalidStateError.

(** ** Well-formedness: names are unique, every name refers to a live
    cache, distinct names refer to distinct caches, and every cache in
    the heap has a handle below [cs_next]. *)
Definition cs_wf (cs : CacheStorage) : Prop :=
  NoDup (alist_keys (cs_names cs)) /\
  NoDup (snd <$> cs_names cs) /\
  (forall n h, alist_find n (cs_names cs) = Some h -> is_Some (cs_heap cs !! h)) /\
  (forall h, is_Some (cs_heap cs !! h) -> h < cs_next cs).

(** Every response held by any cache of the heap is ok (2xx). *)
Definition heap_ok (cs : CacheStorage) : Prop :=
  forall h c u r, cs_heap cs !! h = Some c -> c !! u = Some r -> res_ok r = true.

(** The same conditions in a form built from decidable pieces. *)
Definition cs_wf_check (cs : CacheStorage) : Prop :=
  NoDup (alist_keys (cs_names cs)) /\
  NoDup (snd <$> cs_names cs) /\
  Forall (fun p => is_Some (cs_heap cs !! p.2)) (cs_names cs) /\
  map_Forall (fun h _ => h < cs_next cs) (cs_heap cs).

Definition heap_ok_check (cs : CacheStorage) : Prop :=
  map_Forall (fun _ c => map_Forall (fun _ r => res_ok r = true) c) (cs_heap cs).

(** ** Lemmas on the storage operations *)

Section CacheLemmas.
Implicit Types (cs : CacheStorage) (req : Request) (resp : Response).

Lemma cs_open_wf name cs : cs_wf cs -> cs_wf (cs_open name cs).2.
Proof.
  unfold cs_open. destruct (alist_find name (cs_names cs)) as [h|] eqn:Hf; [done|].
  intros (Hk & Hh & Hlive & Hnext). unfold cs_wf. cbn. split_and!.
  - apply NoDup_alist_snoc; [by apply alist_find_None|done].
  - rewrite fmap_app. simpl. apply NoDup_app. split_and!; [done| |apply NoDup_singleton].
    intros x Hx Hx'. apply list_elem_of_singleton in Hx'. subst x.
    apply list_elem_of_fmap in Hx as ([n h] & Heq & Hin). simpl in Heq. subst h.
    assert (is_Some (cs_heap cs !! cs_next cs)) as Hs%Hnext; [|lia].
    apply (Hlive n). by apply alist_find_elem.
  - intros n h. rewrite alist_find_app. simpl.
    destruct (alist_find n (cs_names cs)) as [h'|] eqn:Hn.
    + intros [= <-]. rewrite lookup_insert_ne; [by apply (Hlive n)|].
      intros <-. apply Hlive in Hn. apply Hnext in Hn. lia.
    + destruct (String.eqb n name); [|done]. intros [= <-]. by rewrite lookup_insert_eq.
  - intros h. rewrite lookup_insert. case_decide; [lia|]. intros ?%Hnext. lia.
Qed.

Lemma cs_open_find name cs :
  alist_find name (cs_names (cs_open name cs).2) = Some (cs_open name cs).1.
Proof.
  unfold cs_open. destruct (alist_find name (cs_names cs)) eqn:Hf; [done|].
  simpl. rewrite alist_find_app, Hf. simpl. by rewrite String.eqb_refl.
Qed.

Lemma cs_open_keys name cs :
  cs_keys (cs_open name cs).2 =
  if bool_decide (name ∈ cs_keys cs) then cs_keys cs else cs_keys cs ++ [name].
Proof.
  unfold cs_open, cs_keys. destruct (alist_find name (cs_names cs)) eqn:Hf.
  - rewrite bool_decide_true; [done|]. by eapply alist_find_Some_keys.
  - rewrite bool_decide_false; [|by apply alist_find_None].
    simpl. by rewrite alist_keys_app.
Qed.

Lemma cs_delete_wf name cs : cs_wf cs -> cs_wf (cs_delete name cs).2.
Proof.
  unfold cs_delete. destruct (alist_find name (cs_names cs)); [|done].
  intros (Hk & Hh & Hlive & Hnext). unfold cs_wf. cbn. split_and!; [by apply NoDup_alist_remove| | |done].
  - by apply NoDup_alist_remove_vals.
  - intros n0 h. destruct (String.eqb_spec name n0) as [->|Hne].
    + by rewrite alist_find_remove_eq.
    + rewrite alist_find_remove_ne by done. apply Hlive.
Qed.

Lemma cs_delete_keys name cs :
  cs_keys (cs_delete name cs).2 = filter (fun k => name <> k) (cs_keys cs).
Proof.
  unfold cs_delete, cs_keys. destruct (alist_find name (cs_names cs)) eqn:Hf.
  - apply alist_keys_remove.
  - symmetry. apply filter_all_true. intros x Hx ->. by apply alist_find_None in Hf.
Qed.

Lemma cs_alter_wf h f cs : cs_wf cs -> cs_wf (cs_alter h f cs).
Proof.
  intros (Hk & Hh & Hlive & Hnext). unfold cs_wf; cbn. split_and!; [done|done| |].
  - intros n h' ?. rewrite lookup_alter. case_decide; [|by eapply Hlive].
    subst. destruct (Hlive n h') as [c ->]; [done|]. by eexists.
  - intros h'. rewrite lookup_alter. case_decide; [subst|by apply Hnext].
    intros [c Hc]. apply Hnext. destruct (cs_heap cs !! h'); [by eexists|done].
Qed.

Lemma cache_put_wf h req resp cs cs' :
  cs_wf cs -> cache_put h req resp cs = inr cs' -> cs_wf cs'.
Proof.
  unfold cache_put. destruct (negb (is_get req)), (res_status resp =? 206);
    intros ? [= <-]. by apply cs_alter_wf.
Qed.

Lemma cache_add_all_wf h net reqs cs cs' :
  cs_wf cs -> cache_add_all h net reqs cs = inr cs' -> cs_wf cs'.
Proof.
  unfold cache_add_all. case_bool_decide; [|done].
  destruct (add_all_responses net reqs); intros ? [= <-]. by apply cs_alter_wf.
Qed.

(** A write that does not change what a request matches in any cache
    leaves [caches.match] unchanged. *)
Lemma names_match_alter_same req f h names heap :
  (forall c, cache_match req (f c) = cache_match req c) ->
  names_match req names (alter f h heap) = names_match req names heap.
Proof.
  intros Hf. induction names as [|[n h'] names IH]; simpl; [done|].
  rewrite lookup_alter. case_decide as Heq; [subst h|by rewrite IH].
  destruct (heap !! h'); simpl; [rewrite Hf|]; by rewrite IH.
Qed.

(** A write that makes the cache of a named bucket answer [r], when no
    bucket answered before, makes [caches.match] answer [r]. *)
Lemma names_match_alter_hit req f h n c r names heap :
  NoDup names.*2 -> (n, h) ∈ names -> heap !! h = Some c ->
  names_match req names heap = None -> cache_match req (f c) = Some r ->
  names_match req names (alter f h heap) = Some r.
Proof.
  intros Hnd Hin Hc Hnone Hr. induction names as [|[n' h'] names IH]; [set_solver|].
  simpl in *. apply NoDup_cons in Hnd as [Hn Hnd].
  rewrite lookup_alter. destruct (heap !! h') as [c'|] eqn:Hc'; simpl in *.
  - destruct (cache_match req c') eqn:Hm; [done|].
    apply elem_of_cons in Hin as [[= <- <-]|Hin].
    + rewrite decide_True by done. rewrite Hc. simpl. by rewrite Hr.
    + rewrite decide_False; [simpl; rewrite Hm; by apply IH|].
      intros <-. apply Hn, list_elem_of_fmap. by exists (n, h).
  - apply elem_of_cons in Hin as [[= <- <-]|Hin]; [congruence|].
    rewrite decide_False; [by apply IH|]. intros ->. congruence.
Qed.
End CacheLemmas.

Lemma cs_wf_check_iff cs : cs_wf_check cs <-> cs_wf cs.
Proof.
  unfold cs_wf_check, cs_wf. rewrite Forall_forall.
  split; intros (Hk & Hh & Hlive & Hnext); split_and!; try done.
  - intros n h Hf. apply (Hlive (n, h)). by apply alist_find_Some_elem.
  - intros h [c Hc]. by apply (Hnext h c).
  - intros [n h] Hin. apply (Hlive n). by apply alist_find_elem.
  - intros h c Hc. apply Hnext. by eexists.
Qed.

#[export] Instance cs_wf_dec cs : Decision (cs_wf cs).
Proof.
  refine (cast_if (decide (cs_wf_check cs))); by rewrite <- cs_wf_check_iff.
Defined.

#[export] Hint Resolve cs_open_wf cs_delete_wf cs_alter_wf cache_put_wf cache_add_all_wf : pwa.

Section MatchLaws.
Implicit Types (cs : CacheStorage) (req : Request) (resp : Response).

Lemma cache_match_insert_same req resp c :
  is_get req = true -> cache_match req (<[req_url req := resp]> c) = Some resp.
Proof. intros Hg. unfold cache_match. rewrite Hg. apply lookup_insert_eq. Qed.

Lemma cache_match_insert_other req req' resp c :
  req_url req' <> req_url req ->
  cache_match req' (<[req_url req := resp]> c) = cache_match req' c.
Proof.
  intros Hne. unfold cache_match. destruct (is_get req'); [|done].
  by apply lookup_insert_ne.
Qed.

(** [caches.match] after [cache.put]: the stored response, when no
    bucket answered the request before. *)
Lemma cs_match_put_hit name h req resp cs :
  cs_wf cs -> alist_find name (cs_names cs) = Some h -> is_get req = true ->
  res_status resp <> 206 -> cs_match req cs = None ->
  exists cs', cache_put h req resp cs = inr cs' /\ cs_match req cs' = Some resp.
Proof.
  intros (Hk & Hh & Hlive & _) Hf Hg H206 Hnone.
  unfold cache_put. rewrite Hg. destruct (Nat.eqb_spec (res_status resp) 206); [done|].
  eexists; split; [done|]. destruct (Hlive name h Hf) as [c Hc].
  eapply names_match_alter_hit; [done| |done|done|].
  - by apply alist_find_Some_elem.
  - by apply cache_match_insert_same.
Qed.

(** [cache.put] leaves the answers for every other url unchanged. *)
Lemma cs_match_put_other h req req' resp cs cs' :
  req_url req' <> req_url req -> cache_put h req resp cs = inr cs' ->
  cs_match req' cs' = cs_match req' cs.
Proof.
  intros Hne. unfold cache_put. destruct (negb (is_get req)), (res_status resp =? 206);
    intros [= <-]. apply names_match_alter_same. intros c. by apply cache_match_insert_other.
Qed.
End MatchLaws.

(** ** Deleting many buckets

    Both the worker's [activate] listener and its [clearCache] message
    delete, one after the other, every name of a key list they read
    first; deleting a name removes exactly its entry. *)
Section DeleteMany.
Implicit Types (cs : CacheStorage).

Lemma cs_delete_eq name cs :
  (cs_delete name cs).2 =
  mkCS (filter (fun p => name <> p.1) (cs_names cs)) (cs_heap cs) (cs_next cs).
Proof.
  unfold cs_delete. destruct (alist_find name (cs_names cs)) eqn:Hf.
  - by rewrite alist_remove_filter.
  - destruct cs as [names heap next]; simpl in *. f_equal. symmetry.
    apply filter_all_true. intros [n h] Hin Heq. simpl in Heq. subst n.
    apply alist_find_None in Hf. apply Hf, list_elem_of_fmap. by exists (name, h).
Qed.

Lemma cs_delete_foldl (keep : string -> bool) ns cs :
  foldl (fun cs n => if keep n then cs else (cs_delete n cs).2) cs ns =
  mkCS (filter (fun p => keep p.1 = true \/ p.1 ∉ ns) (cs_names cs)) (cs_heap cs) (cs_next cs).
Proof.
  revert cs. induction ns as [|n ns IH]; intros cs; simpl.
  - destruct cs; simpl. f_equal. symmetry. apply filter_all_true. set_solver.
  - rewrite IH. destruct (keep n) eqn:Hk; simpl.
    + f_equal. apply list_filter_iff. intros [n' h]; simpl.
      destruct (decide (n' = n)) as [->|]; [naive_solver|].
      rewrite elem_of_cons. naive_solver.
    + rewrite cs_delete_eq. simpl. f_equal. rewrite list_filter_filter. apply list_filter_iff. intros [n' h]; simpl.
      rewrite elem_of_cons. destruct (decide (n' = n)); intuition congruence.
Qed.

Lemma cs_wf_filter (P : string * nat -> Prop) `{!forall p, Decision (P p)} cs :
  cs_wf cs -> cs_wf (mkCS (filter P (cs_names cs)) (cs_heap cs) (cs_next cs)).
Proof.
  intros (Hk & Hh & Hlive & Hnext). unfold cs_wf; cbn. split_and!; [| |intros n h Hf|done].
  - by apply NoDup_fmap_filter.
  - by apply NoDup_fmap_filter.
  - apply (Hlive n). by eapply alist_find_filter.
Qed.

(** With unique names, the entries named [name] are the one entry
    [alist_find] returns, if any. *)
Lemma filter_named name cs :
  NoDup (cs_keys cs) ->
  filter (fun p => p.1 = name) (cs_names cs) =
  match alist_find name (cs_names cs) with Some h => [(name, h)] | None => [] end.
Proof.
  unfold cs_keys. induction (cs_names cs) as [|[n h] l IH]; [done|].
  simpl. intros [Hn Hnd]%NoDup_cons. rewrite filter_cons. simpl.
  case_str name n.
  - rewrite decide_True by done. f_equal.
    apply filter_all_false. intros [n' h'] Hin Heq. simpl in Heq. subst n'.
    apply Hn, list_elem_of_fmap.
    by exists (name, h').
  - rewrite decide_False by congruence. by apply IH.
Qed.
End DeleteMany.

Section OpenLaws.
Implicit Types (cs : CacheStorage) (req : Request).

Lemma names_match_app req l1 l2 heap :
  names_match req (l1 ++ l2) heap =
  match names_match req l1 heap with Some r => Some r | None => names_match req l2 heap end.
Proof.
  induction l1 as [|[n h] l1 IH]; simpl; [done|].
  by destruct (heap !! h ≫= cache_match req).
Qed.

Lemma names_match_insert_fresh req l heap k c :
  k ∉ l.*2 -> names_match req l (<[k := c]> heap) = names_match req l heap.
Proof.
  induction l as [|[n h] l IH]; simpl; [done|]. rewrite elem_of_cons. intros Hk.
  rewrite lookup_insert_ne by naive_solver. rewrite IH by naive_solver. done.
Qed.

(** [caches.open] never changes what [caches.match] answers: a new
    bucket is empty. *)
Lemma cs_match_open name req cs :
  cs_wf cs -> cs_match req (cs_open name cs).2 = cs_match req cs.
Proof.
  intros (Hk & _ & Hlive & Hnext). unfold cs_open, cs_match.
  destruct (alist_find name (cs_names cs)); [done|]. simpl.
  rewrite names_match_app, names_match_insert_fresh.
  - destruct (names_match req (cs_names cs) (cs_heap cs)); [done|].
    simpl. rewrite lookup_insert_eq. simpl. unfold cache_match.
    by destruct (is_get req).
  - intros ([n h] & Heq & Hin)%list_elem_of_fmap. simpl in Heq. subst h.
    assert (is_Some (cs_heap cs !! cs_next cs)) as ?%Hnext; [|lia].
    apply (Hlive n). by apply alist_find_elem.
Qed.
End OpenLaws.

(** ** [cache.addAll] *)
Section AddAll.
Implicit Types (cs : CacheStorage) (reqs : list Request).

Lemma add_all_responses_ok net reqs :
  (forall rq, rq ∈ reqs -> is_get rq = true /\
     exists r, net rq = NetOk r /\ add_all_accepts r = true) ->
  exists l, add_all_responses net reqs = inr l /\ l.*1 = req_url <$> reqs /\
    forall rq r, rq ∈ reqs -> net rq = NetOk r -> (req_url rq, r) ∈ l.
Proof.
  induction reqs as [|rq reqs IH]; intros Hall; simpl.
  - exists []. split_and!; [done|done|]. intros ?? Hin. by apply elem_of_nil in Hin.
  - destruct (Hall rq) as (Hg & r & Hr & Ha); [left|].
    destruct IH as (l & Hl & Hfst & Hin); [intros rq' ?; apply Hall; by right|].
    rewrite Hr, Hg, Ha, Hl. simpl. exists ((req_url rq, r) :: l). split_and!; [done|simpl; f_equal; exact Hfst|].
    intros rq' r' [->|Hrq']%elem_of_cons Hr'.
    + rewrite Hr in Hr'. injection Hr' as ->. left.
    + right. by apply Hin.
Qed.

Lemma add_all_responses_fail net reqs rq :
  rq ∈ reqs -> net rq = NetFail -> exists e, add_all_responses net reqs = inl e.
Proof.
  induction reqs as [|rq' reqs IH]; intros Hin Hf; [by apply elem_of_nil in Hin|]. simpl.
  apply elem_of_cons in Hin as [<-|Hin]; [rewrite Hf; by eexists|].
  destruct (net rq') as [r|]; [|by eexists].
  destruct (negb (is_get rq') || negb (add_all_accepts r)); [by eexists|].
  destruct IH as [e ->]; [done..|]. by eexists.
Qed.

Lemma insert_all_lookup l c k v :
  NoDup l.*1 -> (k, v) ∈ l -> insert_all l c !! k = Some v.
Proof.
  induction l as [|[k' v'] l IH]; simpl; [set_solver|].
  intros [Hn Hnd]%NoDup_cons [[= -> ->]|Hin]%elem_of_cons; [apply lookup_insert_eq|].
  rewrite lookup_insert_ne; [by apply IH|]. intros ->.
  apply Hn, list_elem_of_fmap. by exists (k, v).
Qed.

Lemma cache_add_all_ok h net reqs l cs :
  NoDup (req_url <$> reqs) -> add_all_responses net reqs = inr l ->
  cache_add_all h net reqs cs = inr (cs_alter h (insert_all l) cs).
Proof. intros Hnd Hl. unfold cache_add_all. by rewrite bool_decide_true, Hl. Qed.

Lemma cs_bucket_alter name h f cs :
  cs_wf cs -> alist_find name (cs_names cs) = Some h ->
  exists c, cs_bucket name cs = Some c /\ cs_bucket name (cs_alter h f cs) = Some (f c).
Proof.
  intros (_ & _ & Hlive & _) Hf. destruct (Hlive name h Hf) as [c Hc].
  exists c. unfold cs_bucket, cs_alter. simpl. rewrite Hf. simpl.
  by rewrite Hc, lookup_alter_eq, Hc.
Qed.

Lemma cs_match_non_get req cs : is_get req = false -> cs_match req cs = None.
Proof.
  intros Hg. unfold cs_match. induction (cs_names cs) as [|[n h] l IH]; simpl; [done|].
  destruct (cs_heap cs !! h); simpl; [|done]. unfold cache_match. by rewrite Hg.
Qed.

Lemma clear_names cs :
  foldl (fun cs name => (cs_delete name cs).2) cs (cs_keys cs) = mkCS [] (cs_heap cs) (cs_next cs).
Proof.
  pose proof (cs_delete_foldl (fun _ => false) (cs_keys cs) cs) as H. simpl in H.
  rewrite H. f_equal. apply filter_all_false. intros [n h] Hin [Hc|Hn]; [done|].
  apply Hn, list_elem_of_fmap. by exists (n, h).
Qed.
End AddAll.

(** ** Caches that hold only ok responses *)
Section HeapOk.
Implicit Types (cs : CacheStorage).

Lemma heap_ok_open name cs : heap_ok cs -> heap_ok (cs_open name cs).2.
Proof.
  unfold cs_open. destruct (alist_find name (cs_names cs)); [done|].
  intros Hok h c u r. simpl. rewrite lookup_insert.
  case_decide; [intros [= <-]; by rewrite lookup_empty|]. apply Hok.
Qed.

Lemma heap_ok_delete name cs : heap_ok cs -> heap_ok (cs_delete name cs).2.
Proof. by rewrite cs_delete_eq. Qed.

Lemma heap_ok_alter h f cs :
  heap_ok cs ->
  (forall c u r, cs_heap cs !! h = Some c -> f c !! u = Some r -> res_ok r = true) ->
  heap_ok (cs_alter h f cs).
Proof.
  intros Hok Hf h' c u r. simpl. rewrite lookup_alter.
  case_decide; [subst h'|apply Hok].
  destruct (cs_heap cs !! h) as [c0|] eqn:Hc0; [|done]. intros [= <-]. by apply Hf.
Qed.

Lemma cache_put_heap_ok h req resp cs cs' :
  heap_ok cs -> res_ok resp = true -> cache_put h req resp cs = inr cs' -> heap_ok cs'.
Proof.
  intros Hok Hr. unfold cache_put. destruct (negb (is_get req)), (res_status resp =? 206);
    intros [= <-]. apply heap_ok_alter; [done|]. intros c u r Hc.
  rewrite lookup_insert. case_decide; [by intros [= <-]|]. intros Hu. by apply (Hok h c u).
Qed.

Lemma add_all_responses_accepted net reqs l :
  add_all_responses net reqs = inr l -> forall u r, (u, r) ∈ l -> res_ok r = true.
Proof.
  revert l. induction reqs as [|rq reqs IH]; intros l; simpl.
  - intros [= <-] u r Hin. by apply elem_of_nil in Hin.
  - destruct (net rq) as [r0|]; [|done].
    destruct (negb (is_get rq) || negb (add_all_accepts r0)) eqn:Hacc; [done|].
    destruct (add_all_responses net reqs) as [|l'] eqn:Hl; [done|]. intros [= <-] u r.
    rewrite elem_of_cons. intros [[= -> ->]|Hin]; [|by eapply IH].
    apply orb_false_iff in Hacc as [_ Ha]. apply negb_false_iff in Ha.
    unfold add_all_accepts in Ha. by apply andb_true_iff in Ha as [[? _]%andb_true_iff _].
Qed.

Lemma insert_all_lookup_inv l c u r :
  insert_all l c !! u = Some r -> (u, r) ∈ l \/ c !! u = Some r.
Proof.
  induction l as [|[k v] l IH]; simpl; [by right|].
  rewrite lookup_insert. case_decide; [subst; intros [= <-]; left; left|].
  intros Hu. destruct (IH Hu) as [Hin|]; [left; by right|by right].
Qed.

Lemma cache_add_all_heap_ok h net reqs cs cs' :
  heap_ok cs -> cache_add_all h net reqs cs = inr cs' -> heap_ok cs'.
Proof.
  intros Hok. unfold cache_add_all. case_bool_decide; [|done].
  destruct (add_all_responses net reqs) as [|l] eqn:Hl; [done|]. intros [= <-].
  apply heap_ok_alter; [done|]. intros c u r Hc [Hin|Hu]%insert_all_lookup_inv.
  - by eapply add_all_responses_accepted.
  - by apply (Hok h c u).
Qed.

Lemma cs_match_heap_ok req cs r : heap_ok cs -> cs_match req cs = Some r -> res_ok r = true.
Proof.
  intros Hok. unfold cs_match. induction (cs_names cs) as [|[n h] l IH]; simpl; [done|].
  destruct (cs_heap cs !! h) as [c|] eqn:Hc; simpl; [|done].
  unfold cache_match. destruct (is_get req); [|done].
  destruct (c !! req_url req) eqn:Hu; [|done]. intros [= <-]. by apply (Hok h c (req_url req)).
Qed.
Lemma heap_ok_check_iff cs : heap_ok_check cs <-> heap_ok cs.
Proof.
  unfold heap_ok_check, heap_ok. split.
  - intros Hall h c u r Hc Hu. exact (Hall h c Hc u r Hu).
  - intros Hok h c Hc u r Hu. exact (Hok h c u r Hc Hu).
Qed.

#[export] Instance heap_ok_dec cs : Decision (heap_ok cs).
Proof. refine (cast_if (decide (heap_ok_check cs))); by rewrite <- heap_ok_check_iff. Defined.
End HeapOk.
