(* ===== verification/ServiceWorker.v ===== *)
(** * The listeners of src/pwa/service-worker.js

    Module [SW] holds the worker's constants and one definition per
    listener.  A listener takes the worker state and, where the code asks
    the network, the network's answer, and returns what the event
    observes (the response given to [respondWith], the settled promise
    given to [waitUntil], or the exception thrown) with the new state.

    Promise chains the code awaits through [waitUntil] or [respondWith]
    are run to completion inside the listener.  The chain the fetch
    listener starts with [caches.open(CACHE_NAME).then(cache =>
    cache.put(...))] is awaited by nobody: it is left in [sw_jobs] as a
    [Job], and the worker's step relation (file [Worker]) runs it later,
    interleaved with other events, in its two stages (the [open], then
    the [put] through the handle [open] resolved with). *)

From S2P Require Import Prelude Fetch CacheStorage.

Module SW.

(** service-worker.js lines 1-10 *)
Definition CACHE_NAME : string := "gamehub-v1".

Definition urlsToCache : list string :=
  ["/"; "/index.html"; "/styles.css"; "/app.js"; "/manifest.json";
   "/icon-192.png"; "/icon-512.png"].

(** The detached cache write of the fetch listener, before and after
    [caches.open] resolved. *)
Inductive Job :=
  | JobOpenPut (req : Request) (resp : Response)
  | JobPut (h : nat) (req : Request) (resp : Response).

(** A shown notification: [registration.showNotification(title, options)]. *)
Record Notification := mkNotification {
  n_title : string;
  n_body : string;
  n_icon : string;
  n_badge : string;
  n_vibrate : list nat;
  n_tag : string;
  n_actions : list (string * string * string)  (** action, title, icon *)
}.

Record SWState := mkSW {
  sw_caches : CacheStorage;
  sw_jobs : list Job;              (** detached promise chains still running *)
  sw_skip_waiting : bool;          (** [self.skipWaiting()] was called *)
  sw_claimed : bool;               (** [self.clients.claim()] was called *)
  sw_net_log : list Request;       (** requests sent to the network, latest first *)
  sw_shown : list Notification;    (** notifications on screen *)
  sw_windows : list string;        (** urls opened with [clients.openWindow] *)
  sw_errors : list CacheError      (** unhandled promise rejections *)
}.

Definition set_caches (cs : CacheStorage) (s : SWState) : SWState :=
  mkSW cs (sw_jobs s) (sw_skip_waiting s) (sw_claimed s) (sw_net_log s)
       (sw_shown s) (sw_windows s) (sw_errors s).
Definition set_jobs (js : list Job) (s : SWState) : SWState :=
  mkSW (sw_caches s) js (sw_skip_waiting s) (sw_claimed s) (sw_net_log s)
       (sw_shown s) (sw_windows s) (sw_errors s).
Definition skip_waiting (s : SWState) : SWState :=
  mkSW (sw_caches s) (sw_jobs s) true (sw_claimed s) (sw_net_log s)
       (sw_shown s) (sw_windows s) (sw_errors s).
Definition claim (s : SWState) : SWState :=
  mkSW (sw_caches s) (sw_jobs s) (sw_skip_waiting s) true (sw_net_log s)
       (sw_shown s) (sw_windows s) (sw_errors s).
Definition log_net (reqs : list Request) (s : SWState) : SWState :=
  mkSW (sw_caches s) (sw_jobs s) (sw_skip_waiting s) (sw_claimed s)
       (reqs ++ sw_net_log s) (sw_shown s) (sw_windows s) (sw_errors s).
Definition set_shown (ns : list Notification) (s : SWState) : SWState :=
  mkSW (sw_caches s) (sw_jobs s) (sw_skip_waiting s) (sw_claimed s) (sw_net_log s)
       ns (sw_windows s) (sw_errors s).
Definition open_window (url : string) (s : SWState) : SWState :=
  mkSW (sw_caches s) (sw_jobs s) (sw_skip_waiting s) (sw_claimed s) (sw_net_log s)
       (sw_shown s) (url :: sw_windows s) (sw_errors s).
Definition reject (e : CacheError) (s : SWState) : SWState :=
  mkSW (sw_caches s) (sw_jobs s) (sw_skip_waiting s) (sw_claimed s) (sw_net_log s)
       (sw_shown s) (sw_windows s) (e :: sw_errors s).

(** How the promise handed to [event.waitUntil] settles. *)
Inductive Settled := Fulfilled | Rejected (e : CacheError).

(** ** install (lines 13-29)

    [caches.open(CACHE_NAME).then(cache => cache.addAll(urlsToCache))
    .catch(error => console.log(...))], then [self.skipWaiting()].  The
    [catch] turns every rejection of [open] or [addAll] into a fulfilled
    promise, so [waitUntil] never sees a failure.  [addAll] fetches every
    url (all requests reach the network) and writes all answers or none. *)
Definition install_requests : list Request := request_of_url <$> urlsToCache.

Definition on_install (net : Request -> NetResult) (s : SWState) : Settled * SWState :=
  let '(h, cs) := cs_open CACHE_NAME (sw_caches s) in
  let cs' := match cache_add_all h net install_requests cs with
             | inl _ => cs            (* .catch: logged, swallowed *)
             | inr cs' => cs'
             end in
  (Fulfilled, skip_waiting (log_net (rev install_requests) (set_caches cs' s))).

(** ** activate (lines 32-50)

    [caches.keys()], then [Promise.all] of [caches.delete(name)] for every
    [name !== CACHE_NAME], then [self.clients.claim()]. *)
Definition delete_old_caches (names : list string) (cs : CacheStorage) : CacheStorage :=
  foldl (fun cs name => if String.eqb name CACHE_NAME then cs else (cs_delete name cs).2)
        cs names.

Definition on_activate (s : SWState) : SWState :=
  claim (set_caches (delete_old_caches (cs_keys (sw_caches s)) (sw_caches s)) s).

(** ** fetch (lines 53-91)

    The response given to [respondWith]: [None] when the promise resolves
    to [undefined] (the [caches.match('/index.html')] of the offline
    branch found nothing), which the browser turns into a network error.
    [fetch] resolves with a response whenever it resolves, so the
    [!response] guard of line 68 never holds. *)
Definition cacheable (r : Response) : bool :=
  (res_status r =? 200) && bool_decide (res_type r = Basic).

Definition on_fetch (req : Request) (net : NetResult) (s : SWState)
    : option Response * SWState :=
  match cs_match req (sw_caches s) with
  | Some r => (Some r, s)
  | None =>
      let s1 := log_net [req] s in
      match net with
      | NetFail => (cs_match (request_of_url "/index.html") (sw_caches s1), s1)
      | NetOk r =>
          if cacheable r
          then (Some r, set_jobs (sw_jobs s1 ++ [JobOpenPut req (res_clone r)]) s1)
          else (Some r, s1)
      end
  end.

(** One stage of a detached cache write: [caches.open] creates the bucket
    if needed and hands over its handle; [cache.put] through the handle
    then writes, or rejects with nobody to catch the rejection. *)
Definition run_job (j : Job) (s : SWState) : SWState * list Job :=
  match j with
  | JobOpenPut req resp =>
      let '(h, cs) := cs_open CACHE_NAME (sw_caches s) in
      (set_caches cs s, [JobPut h req resp])
  | JobPut h req resp =>
      match cache_put h req resp (sw_caches s) with
      | inl e => (reject e s, [])
      | inr cs => (set_caches cs s, [])
      end
  end.

(** The response a detached write carries. *)
Definition job_response (j : Job) : Response :=
  match j with JobOpenPut _ r | JobPut _ _ r => r end.

(** ** sync (lines 94-111): [syncGames] resolves; its [catch] is
    unreachable since the [try] block cannot throw. *)
Definition syncGames : Settled := Fulfilled.

Definition on_sync (tag : string) : option Settled :=
  if String.eqb tag "sync-games" then Some syncGames else None.

(** ** push (lines 114-140)

    [event.data ? event.data.text() : default]: [event.data] is [null]
    without a payload and a [PushMessageData] object (truthy, even for an
    empty text) with one.  Showing a notification with a non-empty tag
    replaces the notification with that tag on screen; one without a tag
    (the empty tag) is added beside the others. *)
Definition push_options (data : option string) : Notification :=
  mkNotification "GameHub"
    (match data with Some text => text | None => "Nueva notificación de GameHub" end)
    "/icon-192.png" "/icon-96.png" [200; 100; 200] "gamehub-notification"
    [("explore", "Ver", "/icon-96.png"); ("close", "Cerrar", "/icon-96.png")].

Definition show_notification (n : Notification) (shown : list Notification)
    : list Notification :=
  (if String.eqb (n_tag n) "" then shown else filter (fun m => n_tag m <> n_tag n) shown) ++ [n].

Definition on_push (data : option string) (s : SWState) : SWState :=
  set_shown (show_notification (push_options data) (sw_shown s)) s.

(** ** notificationclick (lines 143-153) *)
Definition on_notificationclick (tag : string) (action : string) (s : SWState) : SWState :=
  let s1 := set_shown (filter (fun m => n_tag m <> tag) (sw_shown s)) s in
  if String.eqb action "explore" then open_window "/" s1 else s1.

(** ** message (lines 156-174)

    [event.data] is any structured-clone value.  Reading [.action] of
    [null] or [undefined] throws a TypeError before any effect; reading it
    of another primitive yields [undefined]. *)
Inductive MessageData :=
  | DataNullish
  | DataPrimitive
  | DataObject (action : option string).

Definition clear_all_caches (cs : CacheStorage) : CacheStorage :=
  foldl (fun cs name => (cs_delete name cs).2) cs (cs_keys cs).

Definition on_message (data : MessageData) (s : SWState) : option SWState :=
  match data with
  | DataNullish => None
  | DataPrimitive => Some s
  | DataObject action =>
      let s1 := if bool_decide (action = Some "skipWaiting") then skip_waiting s else s in
      Some (if bool_decide (action = Some "clearCache")
            then set_caches (clear_all_caches (sw_caches s1)) s1 else s1)
  end.

(** ** Concrete runs

    A fresh worker, a network that serves every url with a basic 200 whose
    body is the url, and a network that is down: the inputs of the
    examples that apply the theorems below. *)
Definition page (body : string) : Response := mkResponse 200 Basic body.
Definition net_serves (rq : Request) : NetResult := NetOk (page (req_url rq)).
Definition net_down (rq : Request) : NetResult := NetFail.

Definition sw_fresh : SWState := mkSW cs_empty [] false false [] [] [] [].
Definition sw_installed : SWState := (on_install net_serves sw_fresh).2.
Definition sw_active : SWState := on_activate sw_installed.

(** An upgrade: a previous version left a [gamehub-v0] bucket. *)
Definition sw_upgrade : SWState :=
  (on_install net_serves (set_caches (cs_open "gamehub-v0" cs_empty).2 sw_fresh)).2.

Definition img_req : Request := mkRequest "/img/cover.png" "GET" NoCors.
Definition api_req : Request := request_of_url "/api/games.json".
Definition post_req : Request := mkRequest "/api/score" "POST" SameOrigin.
Definition not_found : Response := mkResponse 404 Basic "not found".

(** ** Properties of the fetch listener *)

Lemma cacheable_status r : cacheable r = true -> res_status r = 200.
Proof. unfold cacheable. intros [?%Nat.eqb_eq _]%andb_true_iff. done. Qed.

Lemma fetch_miss_cacheable req r s :
  cs_match req (sw_caches s) = None -> cacheable r = true ->
  on_fetch req (NetOk r) s =
  (Some r, set_jobs (sw_jobs s ++ [JobOpenPut req r]) (log_net [req] s)).
Proof. intros Hm Hc. unfold on_fetch. by rewrite Hm, Hc. Qed.

(** C1: a request some bucket answers is served from the cache, whatever
    the network would have said, and nothing else happens: no request
    reaches the network and no state changes. *)
Theorem fetch_cache_hit req net s r :
  cs_match req (sw_caches s) = Some r -> on_fetch req net s = (Some r, s).
Proof. intros Hm. unfold on_fetch. by rewrite Hm. Qed.

(** C3: on a miss with a network failure the page gets whatever the
    storage holds for ['/index.html'] (a network error when nothing), for
    every request: the listener does not look at the request's mode, so an
    image or a script request also receives the HTML document. *)
Theorem fetch_offline_fallback req s :
  cs_match req (sw_caches s) = None ->
  on_fetch req NetFail s = (cs_match (request_of_url "/index.html") (sw_caches s), log_net [req] s).
Proof. intros Hm. unfold on_fetch. by rewrite Hm. Qed.

(** C4: on a miss, a network answer that is not a basic 200 is handed to
    the page unchanged and nothing is scheduled for the cache. *)
Theorem fetch_passthrough req r s :
  cs_match req (sw_caches s) = None -> cacheable r = false ->
  on_fetch req (NetOk r) s = (Some r, log_net [req] s).
Proof. intros Hm Hc. unfold on_fetch. by rewrite Hm, Hc. Qed.

(** C2: on a miss, a basic 200 answer is handed to the page and the
    listener queues one detached write; once that write has run both of
    its stages ([caches.open], then [cache.put] through the handle the
    first stage hands over), the next identical GET request is a cache hit
    with that answer and reaches no network. *)
Theorem fetch_write_then_hit req r s :
  cs_wf (sw_caches s) -> is_get req = true ->
  cs_match req (sw_caches s) = None -> cacheable r = true ->
  let s1 := (on_fetch req (NetOk r) s).2 in
  (on_fetch req (NetOk r) s).1 = Some r /\
  exists j, sw_jobs s1 = sw_jobs s ++ [j] /\
  exists s2 j' s3, run_job j s1 = (s2, [j']) /\ run_job j' s2 = (s3, []) /\
    forall net', on_fetch req net' s3 = (Some r, s3).
Proof.
  intros Hwf Hg Hm Hc s1. unfold s1. rewrite fetch_miss_cacheable by done. split; [done|].
  exists (JobOpenPut req r). split; [done|]. simpl.
  destruct (cs_open CACHE_NAME (sw_caches s)) as [h cs] eqn:Ho.
  pose proof (cs_open_find CACHE_NAME (sw_caches s)) as Hf. rewrite Ho in Hf.
  pose proof (cs_open_wf CACHE_NAME _ Hwf) as Hwf'. rewrite Ho in Hwf'.
  pose proof (cs_match_open CACHE_NAME req _ Hwf) as Hm'. rewrite Ho, Hm in Hm'.
  destruct (cs_match_put_hit CACHE_NAME h req r cs) as (cs' & Hput & Hhit); [done..| |done|].
  { rewrite (cacheable_status r Hc). done. }
  exists (set_caches cs (set_jobs (sw_jobs s ++ [JobOpenPut req r]) (log_net [req] s))), (JobPut h req r).
  eexists. split; [done|]. split; [simpl; by rewrite Hput|].
  intros net'. by apply fetch_cache_hit.
Qed.

(** C9: the write is not awaited, so until it has run an identical
    request misses again and goes to the network a second time. *)
Theorem fetch_pending_write_race req r net' s :
  cs_match req (sw_caches s) = None -> cacheable r = true ->
  sw_net_log (on_fetch req net' (on_fetch req (NetOk r) s).2).2 =
  req :: req :: sw_net_log s.
Proof.
  intros Hm Hc. rewrite fetch_miss_cacheable by done. unfold on_fetch at 1. simpl.
  rewrite Hm. destruct net' as [r'|]; [destruct (cacheable r')|]; done.
Qed.

(** ** Properties of the activate listener *)

Lemma activate_caches s :
  cs_wf (sw_caches s) ->
  sw_caches (on_activate s) =
  mkCS (match alist_find CACHE_NAME (cs_names (sw_caches s)) with
        | Some h => [(CACHE_NAME, h)] | None => [] end)
       (cs_heap (sw_caches s)) (cs_next (sw_caches s)).
Proof.
  intros Hwf. unfold on_activate, delete_old_caches. simpl.
  rewrite (cs_delete_foldl (fun n => String.eqb n CACHE_NAME)).
  f_equal. rewrite <- filter_named by apply Hwf. apply filter_iff_in.
  intros [n h] Hin. simpl. rewrite String.eqb_eq. split; [|by left].
  intros [->|Hn]; [done|]. exfalso. apply Hn, list_elem_of_fmap. by exists (n, h).
Qed.

(** C5: after activation the only bucket left is [CACHE_NAME] (if it
    existed), its content is untouched, every request is answered from it
    alone, and the worker has claimed its clients. *)
Theorem activate_keeps_current_only s :
  cs_wf (sw_caches s) ->
  let s' := on_activate s in
  cs_keys (sw_caches s') ⊆ [CACHE_NAME] /\
  cs_bucket CACHE_NAME (sw_caches s') = cs_bucket CACHE_NAME (sw_caches s) /\
  (forall req, cs_match req (sw_caches s') =
               cs_bucket CACHE_NAME (sw_caches s) ≫= cache_match req) /\
  sw_claimed s' = true.
Proof.
  intros Hwf s'. unfold s'. rewrite activate_caches by done.
  unfold cs_keys, cs_bucket, cs_match. simpl.
  destruct (alist_find CACHE_NAME (cs_names (sw_caches s))) as [h|]; simpl.
  - split_and!; [set_solver|done| |done].
    intros req. by destruct (cs_heap (sw_caches s) !! h ≫= cache_match req).
  - split_and!; [set_solver|done|done|done].
Qed.

(** ** Properties of the install listener *)

Lemma install_urls_NoDup : NoDup (req_url <$> install_requests).
Proof. apply (bool_decide_unpack _). by vm_compute. Qed.

Lemma install_requests_elem rq :
  rq ∈ install_requests <-> exists u, rq = request_of_url u /\ u ∈ urlsToCache.
Proof.
  apply list_elem_of_fmap.
Qed.

(** C6: when every asset download is accepted, install fulfills, calls
    [skipWaiting], and leaves a [CACHE_NAME] bucket holding each asset of
    [urlsToCache] with the network's answer for it. *)
Theorem install_seeds_cache net s :
  cs_wf (sw_caches s) ->
  (forall u, u ∈ urlsToCache ->
     exists r, net (request_of_url u) = NetOk r /\ add_all_accepts r = true) ->
  (on_install net s).1 = Fulfilled /\ sw_skip_waiting (on_install net s).2 = true /\
  exists c, cs_bucket CACHE_NAME (sw_caches (on_install net s).2) = Some c /\
    forall u r, u ∈ urlsToCache -> net (request_of_url u) = NetOk r -> c !! u = Some r.
Proof.
  intros Hwf Hnet. unfold on_install.
  destruct (cs_open CACHE_NAME (sw_caches s)) as [h cs] eqn:Ho.
  pose proof (cs_open_find CACHE_NAME (sw_caches s)) as Hf. rewrite Ho in Hf.
  pose proof (cs_open_wf CACHE_NAME _ Hwf) as Hwf'. rewrite Ho in Hwf'.
  destruct (add_all_responses_ok net install_requests) as (l & Hl & Hfst & Hin).
  { intros rq (u & -> & Hu)%install_requests_elem. split; [done|]. by apply Hnet. }
  rewrite (cache_add_all_ok h net install_requests l cs install_urls_NoDup Hl).
  split_and!; [done|done|]. simpl.
  destruct (cs_bucket_alter CACHE_NAME h (insert_all l) cs) as (c & _ & Hc); [done..|].
  exists (insert_all l c). split; [done|]. intros u r Hu Hr.
  apply insert_all_lookup; [rewrite Hfst; apply install_urls_NoDup|].
  apply (Hin (request_of_url u)); [|done]. apply install_requests_elem. by exists u.
Qed.

(** C7: when one asset download fails, the [catch] of line 22 swallows
    the rejection of [addAll]: install still fulfills and the worker
    proceeds to activation with the bucket only opened (empty on a first
    install), although every asset was requested from the network. *)
Theorem install_swallows_failure net s u :
  u ∈ urlsToCache -> net (request_of_url u) = NetFail ->
  on_install net s =
  (Fulfilled, skip_waiting (log_net (rev install_requests)
                              (set_caches (cs_open CACHE_NAME (sw_caches s)).2 s))).
Proof.
  intros Hu Hfail. unfold on_install.
  destruct (cs_open CACHE_NAME (sw_caches s)) as [h cs] eqn:Ho. simpl.
  destruct (add_all_responses_fail net install_requests (request_of_url u)) as [e He];
    [apply install_requests_elem; by exists u|done|].
  unfold cache_add_all. rewrite bool_decide_true by apply install_urls_NoDup. by rewrite He.
Qed.

(** ** Properties of the message listener *)

Lemma clear_all_caches_eq cs : clear_all_caches cs = mkCS [] (cs_heap cs) (cs_next cs).
Proof. apply clear_names. Qed.

(** C8: a [clearCache] message deletes every bucket, the current one
    included, so from then on a request the network cannot serve gets a
    network error: the offline document is gone too. *)
Theorem clear_cache_then_offline s :
  exists s', on_message (DataObject (Some "clearCache")) s = Some s' /\
    cs_keys (sw_caches s') = [] /\
    forall req, on_fetch req NetFail s' = (None, log_net [req] s').
Proof.
  eexists. split; [reflexivity|]. simpl. rewrite clear_all_caches_eq. split; [done|].
  intros req. reflexivity.
Qed.

(** C10: a [clearCache] message that arrives between the two stages of the
    fetch listener's detached write deletes the bucket the write's handle
    refers to by name only: the [put] then succeeds (no rejection) into a
    cache that no name reaches, and the write is lost. *)
Theorem clear_between_open_and_put_loses_write s h req r :
  is_get req = true -> res_status r <> 206 ->
  exists s' s'', on_message (DataObject (Some "clearCache")) s = Some s' /\
    run_job (JobPut h req r) s' = (s'', []) /\
    sw_errors s'' = sw_errors s /\ forall q, cs_match q (sw_caches s'') = None.
Proof.
  intros Hg H206. eexists _, _. split; [reflexivity|]. simpl.
  unfold cache_put. rewrite Hg. simpl. destruct (Nat.eqb_spec (res_status r) 206); [done|].
  split; [reflexivity|]. split; [done|]. intros q. simpl. by rewrite clear_all_caches_eq.
Qed.

(** C11: a non-GET request (a form POST) answered with a basic 200 makes
    the listener queue a detached write; its first stage creates the
    [CACHE_NAME] bucket and its second rejects with a TypeError nobody
    catches. *)
Theorem fetch_non_get_write_rejects req r s :
  cs_wf (sw_caches s) -> is_get req = false -> cacheable r = true ->
  let s1 := (on_fetch req (NetOk r) s).2 in
  (on_fetch req (NetOk r) s).1 = Some r /\
  exists j, sw_jobs s1 = sw_jobs s ++ [j] /\
  exists s2 j', run_job j s1 = (s2, [j']) /\
    CACHE_NAME ∈ cs_keys (sw_caches s2) /\
    run_job j' s2 = (reject TypeError s2, []).
Proof.
  intros Hwf Hg Hc s1. unfold s1. rewrite fetch_miss_cacheable by (done || by apply cs_match_non_get).
  split; [done|]. exists (JobOpenPut req r). split; [done|]. simpl.
  pose proof (cs_open_find CACHE_NAME (sw_caches s)) as Hf.
  destruct (cs_open CACHE_NAME (sw_caches s)) as [h cs] eqn:Ho. simpl in Hf.
  eexists _, (JobPut h req r). split; [reflexivity|]. split.
  - unfold cs_keys. simpl. by eapply alist_find_Some_keys.
  - simpl. unfold cache_put. by rewrite Hg.
Qed.

(** ** Well-formed storage is preserved by every listener and job *)

Lemma on_fetch_caches req net s : sw_caches (on_fetch req net s).2 = sw_caches s.
Proof.
  unfold on_fetch. destruct (cs_match req (sw_caches s)); [done|].
  destruct net as [r|]; [destruct (cacheable r)|]; done.
Qed.

Lemma on_install_wf net s : cs_wf (sw_caches s) -> cs_wf (sw_caches (on_install net s).2).
Proof.
  intros Hwf. unfold on_install.
  pose proof (cs_open_wf CACHE_NAME _ Hwf) as Hwf'.
  destruct (cs_open CACHE_NAME (sw_caches s)) as [h cs]. simpl in *.
  destruct (cache_add_all h net install_requests cs) eqn:Ha; simpl; [done|].
  by eapply cache_add_all_wf.
Qed.

Lemma on_activate_wf s : cs_wf (sw_caches s) -> cs_wf (sw_caches (on_activate s)).
Proof.
  intros Hwf. rewrite activate_caches by done. rewrite <- filter_named by apply Hwf.
  by apply cs_wf_filter.
Qed.

Lemma run_job_wf j s : cs_wf (sw_caches s) -> cs_wf (sw_caches (run_job j s).1).
Proof.
  intros Hwf. destruct j as [req resp|h req resp]; simpl.
  - pose proof (cs_open_wf CACHE_NAME _ Hwf) as Hwf'.
    by destruct (cs_open CACHE_NAME (sw_caches s)).
  - destruct (cache_put h req resp (sw_caches s)) eqn:Hp; simpl; [done|].
    by eapply cache_put_wf.
Qed.

Lemma cs_wf_clear cs : cs_wf cs -> cs_wf (clear_all_caches cs).
Proof.
  intros Hwf. rewrite clear_all_caches_eq.
  rewrite <- (filter_all_false (fun _ => False) (cs_names cs)) by naive_solver.
  by apply cs_wf_filter.
Qed.

Lemma on_message_wf d s s' :
  cs_wf (sw_caches s) -> on_message d s = Some s' -> cs_wf (sw_caches s').
Proof.
  intros Hwf. destruct d as [| |action]; simpl; [done|by intros [= <-]|].
  intros [= <-]. case_bool_decide; simpl; [|by case_bool_decide].
  apply cs_wf_clear. by case_bool_decide.
Qed.

(** ** Facts shared by the lifecycle and the invariants *)

Lemma on_install_fulfilled net s : (on_install net s).1 = Fulfilled.
Proof. unfold on_install. by destruct (cs_open CACHE_NAME (sw_caches s)). Qed.

Lemma on_install_skip_waiting net s : sw_skip_waiting (on_install net s).2 = true.
Proof. unfold on_install. by destruct (cs_open CACHE_NAME (sw_caches s)). Qed.

Lemma on_install_jobs net s : sw_jobs (on_install net s).2 = sw_jobs s.
Proof. unfold on_install. by destruct (cs_open CACHE_NAME (sw_caches s)). Qed.

Lemma activate_keys s :
  cs_wf (sw_caches s) -> cs_keys (sw_caches (on_activate s)) ⊆ [CACHE_NAME].
Proof.
  intros Hwf. rewrite activate_caches by done. unfold cs_keys. simpl.
  destruct (alist_find CACHE_NAME (cs_names (sw_caches s))); simpl; set_solver.
Qed.

Lemma run_job_jobs j s : sw_jobs (run_job j s).1 = sw_jobs s.
Proof.
  destruct j as [req resp|h req resp]; simpl.
  - by destruct (cs_open CACHE_NAME (sw_caches s)).
  - by destruct (cache_put h req resp (sw_caches s)).
Qed.

Lemma run_job_keys j s :
  cs_keys (sw_caches (run_job j s).1) ⊆ cs_keys (sw_caches s) ++ [CACHE_NAME].
Proof.
  destruct j as [req resp|h req resp]; simpl.
  - pose proof (cs_open_keys CACHE_NAME (sw_caches s)) as Hk.
    destruct (cs_open CACHE_NAME (sw_caches s)); simpl in *. rewrite Hk.
    case_bool_decide; set_solver.
  - unfold cache_put. destruct (negb (is_get req)), (res_status resp =? 206); simpl; set_solver.
Qed.

Lemma run_job_next j s : (run_job j s).2 = match j with
                                           | JobOpenPut req r => [JobPut (cs_open CACHE_NAME (sw_caches s)).1 req r]
                                           | JobPut _ _ _ => [] end.
Proof.
  destruct j as [req resp|h req resp]; simpl.
  - by destruct (cs_open CACHE_NAME (sw_caches s)).
  - by destruct (cache_put h req resp (sw_caches s)).
Qed.

Lemma on_install_heap_ok net s : heap_ok (sw_caches s) -> heap_ok (sw_caches (on_install net s).2).
Proof.
  intros Hok. unfold on_install. pose proof (heap_ok_open CACHE_NAME _ Hok) as Hok'.
  destruct (cs_open CACHE_NAME (sw_caches s)) as [h cs]. simpl in *.
  destruct (cache_add_all h net install_requests cs) eqn:Ha; simpl; [done|].
  by eapply cache_add_all_heap_ok.
Qed.

Lemma run_job_heap_ok j s :
  heap_ok (sw_caches s) -> res_status (job_response j) = 200 ->
  heap_ok (sw_caches (run_job j s).1).
Proof.
  intros Hok H200. destruct j as [req resp|h req resp]; simpl in *.
  - pose proof (heap_ok_open CACHE_NAME _ Hok). by destruct (cs_open CACHE_NAME (sw_caches s)).
  - destruct (cache_put h req resp (sw_caches s)) eqn:Hp; simpl; [done|].
    eapply cache_put_heap_ok; [done| |done]. by apply res_ok_200.
Qed.

Lemma clear_heap_ok cs : heap_ok cs -> heap_ok (clear_all_caches cs).
Proof. by rewrite clear_all_caches_eq. Qed.

Lemma on_message_heap_ok d s s' :
  heap_ok (sw_caches s) -> on_message d s = Some s' -> heap_ok (sw_caches s').
Proof.
  intros Hok. destruct d as [| |action]; simpl; [done|by intros [= <-]|].
  intros [= <-]. case_bool_decide; simpl; [|by case_bool_decide].
  apply clear_heap_ok. by case_bool_decide.
Qed.

Lemma on_message_jobs d s s' : on_message d s = Some s' -> sw_jobs s' = sw_jobs s.
Proof.
  destruct d as [| |action]; simpl; [done|by intros [= <-]|]. intros [= <-].
  by repeat case_bool_decide.
Qed.

Lemma on_message_keys d s s' :
  on_message d s = Some s' -> cs_keys (sw_caches s') ⊆ cs_keys (sw_caches s).
Proof.
  destruct d as [| |action]; simpl; [done|by intros [= <-]|]. intros [= <-].
  case_bool_decide; simpl; [|by case_bool_decide].
  rewrite clear_all_caches_eq. unfold cs_keys. simpl. set_solver.
Qed.

Lemma on_fetch_jobs req net s :
  Forall (fun j => res_status (job_response j) = 200) (sw_jobs s) ->
  Forall (fun j => res_status (job_response j) = 200) (sw_jobs (on_fetch req net s).2).
Proof.
  intros Hj. unfold on_fetch. destruct (cs_match req (sw_caches s)); [done|].
  destruct net as [r|]; [|done]. destruct (cacheable r) eqn:Hc; simpl; [|done].
  apply Forall_app. split; [done|]. apply Forall_singleton. simpl. by apply cacheable_status.
Qed.

(** ** Examples on the concrete runs *)

Ltac decide_wf := apply (bool_decide_unpack _); vm_compute; exact I.

Lemma fetch_cache_hit_witness :
  cs_match (request_of_url "/app.js") (sw_caches sw_active) = Some (page "/app.js") /\
  on_fetch (request_of_url "/app.js") NetFail sw_active = (Some (page "/app.js"), sw_active).
Proof.
  split; [vm_compute; reflexivity|]. apply fetch_cache_hit. vm_compute. reflexivity.
Defined.

Lemma fetch_offline_fallback_witness :
  cs_match img_req (sw_caches sw_active) = None /\
  on_fetch img_req NetFail sw_active = (Some (page "/index.html"), log_net [img_req] sw_active).
Proof.
  split; [vm_compute; reflexivity|].
  rewrite (fetch_offline_fallback img_req sw_active) by (vm_compute; reflexivity).
  reflexivity.
Defined.

Lemma fetch_passthrough_witness :
  on_fetch img_req (NetOk not_found) sw_active = (Some not_found, log_net [img_req] sw_active).
Proof. apply fetch_passthrough; vm_compute; reflexivity. Defined.

Lemma fetch_write_then_hit_witness :
  (on_fetch api_req (NetOk (page "games")) sw_active).1 = Some (page "games") /\
  exists j, sw_jobs (on_fetch api_req (NetOk (page "games")) sw_active).2 = sw_jobs sw_active ++ [j] /\
  exists s2 j' s3, run_job j (on_fetch api_req (NetOk (page "games")) sw_active).2 = (s2, [j']) /\
    run_job j' s2 = (s3, []) /\
    forall net', on_fetch api_req net' s3 = (Some (page "games"), s3).
Proof.
  apply fetch_write_then_hit; [decide_wf|reflexivity|vm_compute; reflexivity|reflexivity].
Defined.

Lemma fetch_pending_write_race_witness :
  sw_net_log (on_fetch api_req (NetOk (page "games"))
                (on_fetch api_req (NetOk (page "games")) sw_active).2).2 =
  api_req :: api_req :: sw_net_log sw_active.
Proof. apply fetch_pending_write_race; [vm_compute; reflexivity|reflexivity]. Defined.

Lemma activate_keeps_current_only_witness :
  cs_keys (sw_caches sw_upgrade) = ["gamehub-v0"; CACHE_NAME] /\
  (cs_keys (sw_caches (on_activate sw_upgrade)) ⊆ [CACHE_NAME] /\
   cs_bucket CACHE_NAME (sw_caches (on_activate sw_upgrade)) =
     cs_bucket CACHE_NAME (sw_caches sw_upgrade) /\
   (forall req, cs_match req (sw_caches (on_activate sw_upgrade)) =
                cs_bucket CACHE_NAME (sw_caches sw_upgrade) ≫= cache_match req) /\
   sw_claimed (on_activate sw_upgrade) = true).
Proof. split; [reflexivity|]. apply activate_keeps_current_only. decide_wf. Defined.

Lemma install_seeds_cache_witness :
  (on_install net_serves sw_fresh).1 = Fulfilled /\
  sw_skip_waiting (on_install net_serves sw_fresh).2 = true /\
  exists c, cs_bucket CACHE_NAME (sw_caches (on_install net_serves sw_fresh).2) = Some c /\
    forall u r, u ∈ urlsToCache -> net_serves (request_of_url u) = NetOk r -> c !! u = Some r.
Proof.
  apply install_seeds_cache; [decide_wf|]. intros u _. eexists. split; reflexivity.
Defined.

Lemma install_swallows_failure_witness :
  on_install net_down sw_fresh =
    (Fulfilled, skip_waiting (log_net (rev install_requests)
                                (set_caches (cs_open CACHE_NAME (sw_caches sw_fresh)).2 sw_fresh))) /\
  cs_bucket CACHE_NAME (sw_caches (on_install net_down sw_fresh).2) = Some ∅.
Proof.
  split; [|vm_compute; reflexivity].
  apply (install_swallows_failure net_down sw_fresh "/"); [by left|reflexivity].
Defined.

Lemma clear_between_open_and_put_loses_write_witness :
  exists s' s'',
    on_message (DataObject (Some "clearCache"))
      (run_job (JobOpenPut api_req (page "games"))
               (on_fetch api_req (NetOk (page "games")) sw_active).2).1 = Some s' /\
    run_job (JobPut 0 api_req (page "games")) s' = (s'', []) /\
    sw_errors s'' = sw_errors (run_job (JobOpenPut api_req (page "games"))
                                 (on_fetch api_req (NetOk (page "games")) sw_active).2).1 /\
    forall q, cs_match q (sw_caches s'') = None.
Proof. apply clear_between_open_and_put_loses_write; [reflexivity|simpl; lia]. Defined.

Lemma fetch_non_get_write_rejects_witness :
  (on_fetch post_req (NetOk (page "ok")) sw_active).1 = Some (page "ok") /\
  exists j, sw_jobs (on_fetch post_req (NetOk (page "ok")) sw_active).2 = sw_jobs sw_active ++ [j] /\
  exists s2 j', run_job j (on_fetch post_req (NetOk (page "ok")) sw_active).2 = (s2, [j']) /\
    CACHE_NAME ∈ cs_keys (sw_caches s2) /\
    run_job j' s2 = (reject TypeError s2, []).
Proof. apply fetch_non_get_write_rejects; [decide_wf|reflexivity|reflexivity]. Defined.

End SW.
