(* ===== verification/Worker.v ===== *)
(** * The service worker as a transition system

    The browser drives the worker of service-worker.js through its
    lifecycle (parsed, installed, activated) and dispatches events to the
    listeners of [ServiceWorker]; between events it runs the promise
    chains the listeners left behind.  [wstep w ev w'] is one such step,
    labelled with the event and, where the code reads the network, with
    the network's answer.  The order of events and of detached jobs is
    left free: any interleaving the browser may choose is a sequence of
    [wstep]s.

    Lifecycle rules, from the Service Worker specification: a parsed
    worker runs its [install] listener; it becomes installed when the
    promise given to [waitUntil] fulfills and redundant when it rejects;
    an installed worker activates once [skipWaiting] was called or no
    page is controlled by the previous worker any more; fetch, sync, push
    and notificationclick events reach an activated worker only; messages
    reach a worker that is installed or activated. *)

From S2P Require Import Prelude Fetch CacheStorage ServiceWorker.
Import SW.

Module Lifecycle.

Inductive Phase := Parsed | Installed | Activated | Redundant.

#[export] Instance Phase_eq_dec : EqDecision Phase.
Proof. solve_decision. Defined.

Record Worker := mkWorker {
  w_phase : Phase;
  w_sw : SWState;
  w_old_clients : bool   (** pages still controlled by the previous worker *)
}.

Inductive Event :=
  | EvInstall (net : Request -> NetResult)
  | EvActivate
  | EvClientsGone
  | EvFetch (req : Request) (net : NetResult) (resp : option Response)
  | EvJob (i : nat)
  | EvMessage (d : MessageData)
  | EvSync (tag : string)
  | EvPush (data : option string)
  | EvNotificationClick (tag action : string).

Definition with_sw (sw : SWState) (w : Worker) : Worker :=
  mkWorker (w_phase w) sw (w_old_clients w).

(** Running the [i]-th detached job: it leaves the list, and the stage it
    starts next (if any) joins the end. *)
Definition job_step (i : nat) (sw : SWState) : option SWState :=
  match sw_jobs sw !! i with
  | Some j =>
      let '(sw', next) := run_job j sw in
      Some (set_jobs (delete i (sw_jobs sw) ++ next) sw')
  | None => None
  end.

Inductive wstep : Worker -> Event -> Worker -> Prop :=
  | step_install net w sw' :
      w_phase w = Parsed -> on_install net (w_sw w) = (Fulfilled, sw') ->
      wstep w (EvInstall net) (mkWorker Installed sw' (w_old_clients w))
  | step_install_rejected net w e sw' :
      w_phase w = Parsed -> on_install net (w_sw w) = (Rejected e, sw') ->
      wstep w (EvInstall net) (mkWorker Redundant sw' (w_old_clients w))
  | step_activate w :
      w_phase w = Installed ->
      (sw_skip_waiting (w_sw w) = true \/ w_old_clients w = false) ->
      wstep w EvActivate (mkWorker Activated (on_activate (w_sw w)) (w_old_clients w))
  | step_clients_gone w :
      wstep w EvClientsGone (mkWorker (w_phase w) (w_sw w) false)
  | step_fetch req net resp w sw' :
      w_phase w = Activated -> on_fetch req net (w_sw w) = (resp, sw') ->
      wstep w (EvFetch req net resp) (with_sw sw' w)
  | step_job i w sw' :
      job_step i (w_sw w) = Some sw' -> wstep w (EvJob i) (with_sw sw' w)
  | step_message d w sw' :
      w_phase w = Installed \/ w_phase w = Activated ->
      on_message d (w_sw w) = Some sw' -> wstep w (EvMessage d) (with_sw sw' w)
  | step_message_throws d w :
      w_phase w = Installed \/ w_phase w = Activated ->
      on_message d (w_sw w) = None -> wstep w (EvMessage d) w
  | step_sync tag w :
      w_phase w = Activated -> wstep w (EvSync tag) w
  | step_push data w :
      w_phase w = Activated -> wstep w (EvPush data) (with_sw (on_push data (w_sw w)) w)
  | step_notificationclick tag action w :
      w_phase w = Activated ->
      wstep w (EvNotificationClick tag action) (with_sw (on_notificationclick tag action (w_sw w)) w).

Notation "w --[ ev ]--> w'" := (wstep w ev w') (at level 70, ev at level 200, no associativity) : pwa_scope.
Local Open Scope pwa_scope.

(** Some event leads from [w] to [w']; [reachable] is its closure. *)
Definition wstep_any (w w' : Worker) : Prop := exists ev, w --[ ev ]--> w'.
Definition reachable (w0 w : Worker) : Prop := rtc wstep_any w0 w.

(** A page that was never controlled by a worker, and its fresh worker. *)
Definition w_fresh : Worker := mkWorker Parsed sw_fresh false.

(** A page still controlled by a previous version of the worker. *)
Definition w_upgrade : Worker :=
  mkWorker Parsed (set_caches (cs_open "gamehub-v0" cs_empty).2 sw_fresh) true.

(** The upgrade run: install with a network that serves everything, then
    activate while the old pages are still open. *)
Definition w_up_installed : Worker :=
  mkWorker Installed (on_install net_serves (w_sw w_upgrade)).2 true.
Definition w_up_active : Worker :=
  mkWorker Activated (on_activate (w_sw w_up_installed)) true.

(** Every cached response, and every response a detached write carries,
    is ok. *)
Definition responses_ok (sw : SWState) : Prop :=
  heap_ok (sw_caches sw) /\ Forall (fun j => res_status (job_response j) = 200) (sw_jobs sw).

#[export] Instance responses_ok_dec sw : Decision (responses_ok sw).
Proof. unfold responses_ok. apply _. Defined.


(** Every shown notification carries the push tag, and there is at most
    one. *)
Definition shown_ok (sw : SWState) : Prop :=
  Forall (fun n => n_tag n = "gamehub-notification") (sw_shown sw) /\ length (sw_shown sw) <= 1.

(** ** Invariant: the storage stays well formed *)

Lemma job_step_inv i sw sw' :
  job_step i sw = Some sw' ->
  exists j, sw_jobs sw !! i = Some j /\
    sw' = set_jobs (delete i (sw_jobs sw) ++ (run_job j sw).2) (run_job j sw).1.
Proof.
  unfold job_step. destruct (sw_jobs sw !! i) as [j|]; [|done].
  destruct (run_job j sw) as [sw1 next] eqn:Hr. intros [= <-]. exists j. by rewrite Hr.
Qed.

Lemma job_step_caches i sw sw' :
  job_step i sw = Some sw' ->
  exists j, sw_jobs sw !! i = Some j /\ sw_caches sw' = sw_caches (run_job j sw).1.
Proof. intros (j & Hj & ->)%job_step_inv. by exists j. Qed.

Lemma wstep_wf w ev w' :
  w --[ ev ]--> w' -> cs_wf (sw_caches (w_sw w)) -> cs_wf (sw_caches (w_sw w')).
Proof.
  intros Hs Hwf. destruct Hs as [net w sw' _ Hi|net w e sw' _ Hi|w|w|req net resp w sw' _ Hf
    |i w sw' Hj|d w sw' _ Hm|d w|tag w|data w|tag action w]; simpl; try done.
  - apply (f_equal snd) in Hi. simpl in Hi. subst sw'. by apply on_install_wf.
  - apply (f_equal snd) in Hi. simpl in Hi. subst sw'. by apply on_install_wf.
  - by apply on_activate_wf.
  - apply (f_equal snd) in Hf. simpl in Hf. subst sw'. by rewrite on_fetch_caches.
  - destruct (job_step_caches i _ _ Hj) as (j & _ & ->). by apply run_job_wf.
  - by eapply on_message_wf.
  - unfold on_notificationclick. by destruct (String.eqb action "explore").
Qed.


(** ** Invariant: the cache only ever holds ok responses *)

Lemma wstep_responses_ok w ev w' :
  w --[ ev ]--> w' -> responses_ok (w_sw w) -> responses_ok (w_sw w').
Proof.
  intros Hs [Hok Hj]. destruct Hs as [net w sw' _ Hi|net w e sw' _ Hi|w|w|req net resp w sw' _ Hf
    |i w sw' Hstep|d w sw' _ Hm|d w|tag w|data w|tag action w]; simpl; try by split.
  - apply (f_equal snd) in Hi. simpl in Hi. subst sw'.
    split; [by apply on_install_heap_ok|by rewrite on_install_jobs].
  - apply (f_equal snd) in Hi. simpl in Hi. subst sw'.
    split; [by apply on_install_heap_ok|by rewrite on_install_jobs].
  - split; [|done]. unfold on_activate, delete_old_caches. simpl.
    rewrite (cs_delete_foldl (fun n => String.eqb n CACHE_NAME)). done.
  - apply (f_equal snd) in Hf. simpl in Hf. subst sw'.
    split; [by rewrite on_fetch_caches|by apply on_fetch_jobs].
  - apply job_step_inv in Hstep as (j & Hij & ->). simpl.
    assert (res_status (job_response j) = 200) as H200.
    { rewrite Forall_lookup in Hj. by apply (Hj i). }
    split; [by apply run_job_heap_ok|]. apply Forall_app. split; [by apply Forall_delete|].
    rewrite run_job_next. destruct j; constructor; [done|constructor].
  - split; [by eapply on_message_heap_ok|by rewrite (on_message_jobs d _ _ Hm)].
  - unfold on_notificationclick. destruct (String.eqb action "explore"); by split.
Qed.

(** C12: from a worker whose caches hold only ok responses, under every
    interleaving of events and detached writes, [caches.match] only ever
    answers with an ok (2xx) response: the proxy never serves an error
    page from its cache. *)
Theorem reachable_serves_ok w0 w :
  reachable w0 w -> responses_ok (w_sw w0) ->
  forall req r, cs_match req (sw_caches (w_sw w)) = Some r -> res_ok r = true.
Proof.
  intros Hreach Hok0 req r. apply cs_match_heap_ok.
  apply (rtc_invariant wstep_any (fun w => responses_ok (w_sw w)) w0 w); [|done..].
  intros a b [ev Hs]. exact (wstep_responses_ok _ _ _ Hs).
Qed.

(** ** Invariant: one bucket after activation *)

Lemma wstep_single_bucket w ev w' :
  wstep w ev w' -> cs_wf (sw_caches (w_sw w)) ->
  (w_phase w = Activated -> cs_keys (sw_caches (w_sw w)) ⊆ [CACHE_NAME]) ->
  w_phase w' = Activated -> cs_keys (sw_caches (w_sw w')) ⊆ [CACHE_NAME].
Proof.
  intros Hs Hwf Hinv. destruct Hs as [net w sw' _ Hi|net w e sw' _ Hi|w|w|req net resp w sw' _ Hf
    |i w sw' Hstep|d w sw' _ Hm|d w|tag w|data w|tag action w]; simpl; try done.
  - intros _. by apply activate_keys.
  - intros Hp. apply (f_equal snd) in Hf. simpl in Hf. subst sw'.
    rewrite on_fetch_caches. by apply Hinv.
  - intros Hp. destruct (job_step_caches i _ _ Hstep) as (j & _ & ->).
    pose proof (run_job_keys j (w_sw w)). specialize (Hinv Hp). set_solver.
  - intros Hp. pose proof (on_message_keys d _ _ Hm). specialize (Hinv Hp). set_solver.
  - unfold on_notificationclick. by destruct (String.eqb action "explore").
Qed.

(** C13: once activated, the worker keeps at most the [gamehub-v1] bucket,
    under every interleaving of later events and detached writes (the
    spec's "at most one bucket per version name is retained after
    activation"). *)
Theorem activated_single_bucket w0 w :
  reachable w0 w -> cs_wf (sw_caches (w_sw w0)) -> w_phase w0 = Parsed ->
  w_phase w = Activated -> cs_keys (sw_caches (w_sw w)) ⊆ [CACHE_NAME].
Proof.
  intros Hreach Hwf0 Hp0.
  apply (rtc_invariant wstep_any (fun w => cs_wf (sw_caches (w_sw w)) /\
           (w_phase w = Activated -> cs_keys (sw_caches (w_sw w)) ⊆ [CACHE_NAME])) w0 w);
    [|done|split; [done|by rewrite Hp0]].
  intros a b [ev Hs] [Hwf Hinv].
  split; [exact (wstep_wf _ _ _ Hs Hwf)|exact (wstep_single_bucket _ _ _ Hs Hwf Hinv)].
Qed.

(** ** Lifecycle: install never fails and activation follows at once *)

(** C14: an [install] event always installs the worker (never redundant:
    the [catch] of the install chain leaves [waitUntil] nothing to reject)
    and, since the listener calls [skipWaiting], activation is enabled at
    once, even while pages are still controlled by the previous worker. *)
Theorem install_then_activate net w :
  w_phase w = Parsed ->
  (forall w', wstep w (EvInstall net) w' -> w_phase w' = Installed) /\
  exists w1 w2, wstep w (EvInstall net) w1 /\ wstep w1 EvActivate w2 /\ w_phase w2 = Activated.
Proof.
  intros Hp. pose proof (on_install_fulfilled net (w_sw w)) as Hf.
  pose proof (on_install_skip_waiting net (w_sw w)) as Hsk.
  destruct (on_install net (w_sw w)) as [o sw'] eqn:Hi. simpl in Hf, Hsk. subst o. split.
  - intros w' Hs. inversion Hs as [? ? ? _ Hi'| ? ? e ? _ Hi'| | | | | | | | |]; subst; [done|].
    congruence.
  - exists (mkWorker Installed sw' (w_old_clients w)),
      (mkWorker Activated (on_activate sw') (w_old_clients w)).
    split; [by constructor|]. split; [|done].
    apply (step_activate (mkWorker Installed sw' (w_old_clients w))); [done|by left].
Qed.


(** ** Bound: at most one notification on screen *)

Lemma job_step_shown i sw sw' : job_step i sw = Some sw' -> sw_shown sw' = sw_shown sw.
Proof.
  intros (j & _ & ->)%job_step_inv. simpl. destruct j as [req r|h req r]; simpl.
  - by destruct (cs_open CACHE_NAME (sw_caches sw)).
  - by destruct (cache_put h req r (sw_caches sw)).
Qed.

Lemma on_message_shown d sw sw' : on_message d sw = Some sw' -> sw_shown sw' = sw_shown sw.
Proof.
  destruct d as [| |action]; simpl; [done|by intros [= <-]|]. intros [= <-].
  by repeat case_bool_decide.
Qed.

Lemma wstep_shown_ok w ev w' : w --[ ev ]--> w' -> shown_ok (w_sw w) -> shown_ok (w_sw w').
Proof.
  intros Hs [Hall Hlen]. destruct Hs as [net w0 sw' _ Hi|net w0 e sw' _ Hi|w0|w0|req net resp w0 sw' _ Hf
    |i w0 sw' Hj|d w0 sw' _ Hm|d w0|tag w0|data w0|tag action w0]; simpl; try by split.
  - apply (f_equal snd) in Hi. simpl in Hi. subst sw'. unfold on_install.
    destruct (cs_open CACHE_NAME (sw_caches (w_sw w0))). by split.
  - apply (f_equal snd) in Hi. simpl in Hi. subst sw'. unfold on_install.
    destruct (cs_open CACHE_NAME (sw_caches (w_sw w0))). by split.
  - apply (f_equal snd) in Hf. simpl in Hf. subst sw'. unfold on_fetch.
    split; repeat case_match; simpl; done.
  - unfold shown_ok. by rewrite (job_step_shown _ _ _ Hj).
  - unfold shown_ok. by rewrite (on_message_shown _ _ _ Hm).
  - unfold shown_ok, on_push, show_notification. simpl. rewrite filter_all_false.
    + split; [by repeat constructor|simpl; lia].
    + intros n Hn Hne. apply Hne. rewrite Forall_forall in Hall. by apply Hall.
  - assert (Hsub : shown_ok (set_shown (filter (fun m => n_tag m <> tag) (sw_shown (w_sw w0))) (w_sw w0))).
    { split; [by apply Forall_filter_sub|]. simpl. pose proof (length_filter (fun m => n_tag m <> tag) (sw_shown (w_sw w0))). lia. }
    unfold on_notificationclick. by destruct (String.eqb action "explore").
Qed.

(** C29: starting without notifications, every reachable worker shows at
    most one notification: every push uses the tag
    "gamehub-notification", and showing a notification with a non-empty
    tag replaces the one with the same tag, whatever the number of
    pushes.  An untagged push would add a notification each time. *)
Theorem shown_at_most_one w0 w :
  reachable w0 w -> sw_shown (w_sw w0) = [] -> length (sw_shown (w_sw w)) <= 1.
Proof.
  intros Hr H0.
  assert (Hok : shown_ok (w_sw w)).
  { apply (rtc_invariant wstep_any (fun w => shown_ok (w_sw w)) w0 w); [|done|].
    - intros a b [ev Hs]. exact (wstep_shown_ok _ _ _ Hs).
    - unfold shown_ok. rewrite H0. split; [constructor|simpl; lia]. }
  apply Hok.
Qed.

(** ** Examples on the upgrade run *)


Lemma reachable_serves_ok_witness :
  cs_match (request_of_url "/app.js") (sw_caches (w_sw w_up_active)) = Some (page "/app.js") /\
  res_ok (page "/app.js") = true.
Proof.
  split; [vm_compute; reflexivity|].
  refine (reachable_serves_ok w_upgrade w_up_active _ _ (request_of_url "/app.js") _ _);
    [| |vm_compute; reflexivity].
  - eapply rtc_l; [exists (EvInstall net_serves); apply step_install; reflexivity|].
    eapply rtc_l; [exists EvActivate; apply step_activate; [reflexivity|left; reflexivity]|].
    apply rtc_refl.
  - apply (bool_decide_unpack _). vm_compute. exact I.
Defined.

Lemma activated_single_bucket_witness :
  cs_keys (sw_caches (w_sw w_up_active)) ⊆ [CACHE_NAME].
Proof.
  apply (activated_single_bucket w_upgrade w_up_active).
  - eapply rtc_l; [exists (EvInstall net_serves); apply step_install; reflexivity|].
    eapply rtc_l; [exists EvActivate; apply step_activate; [reflexivity|left; reflexivity]|].
    apply rtc_refl.
  - apply (bool_decide_unpack _). vm_compute. exact I.
  - reflexivity.
  - reflexivity.
Defined.

Lemma install_then_activate_witness :
  (forall w', wstep w_upgrade (EvInstall net_down) w' -> w_phase w' = Installed) /\
  exists w1 w2, wstep w_upgrade (EvInstall net_down) w1 /\ wstep w1 EvActivate w2 /\
    w_phase w2 = Activated.
Proof. apply install_then_activate. reflexivity. Defined.

Lemma shown_at_most_one_witness :
  sw_shown (w_sw w_fresh) = [] /\
  length (sw_shown (on_push None (on_push (Some "Oferta") sw_active))) <= 1.
Proof.
  split; [reflexivity|].
  apply (shown_at_most_one w_fresh
           (mkWorker Activated (on_push None (on_push (Some "Oferta") sw_active)) false)); [|reflexivity].
  eapply rtc_l; [exists (EvInstall net_serves); apply step_install; reflexivity|].
  eapply rtc_l; [exists EvActivate; apply step_activate; [reflexivity|right; reflexivity]|].
  eapply rtc_l; [exists (EvPush (Some "Oferta")); apply (step_push _ (mkWorker Activated sw_active false)); reflexivity|].
  eapply rtc_l; [exists (EvPush None);
                 apply (step_push _ (mkWorker Activated (on_push (Some "Oferta") sw_active) false)); reflexivity|].
  apply rtc_refl.
Defined.

End Lifecycle.
