(* ===== verification/Proxy.v ===== *)
(** * The offline cache proxy against its abstract specification

    The spec describes the service worker as a proxy that "serves cached
    responses when available, falls back to network and opportunistically
    caches successful responses, and purges caches on ... explicit
    message".  Module [Proxy] states that contract as an abstract machine
    and proves that the worker of [Worker], once activated, refines it.

    - The abstract state [PState] is one url-keyed cache and the multiset
      of writes still pending.  [pstep] answers a fetch from the cache,
      else from the network (queueing the write of a successful basic
      answer), else with the cached offline document; a pending write
      either lands ([PWrite]) or is lost ([PDrop]); [PClear] empties the
      cache.
    - The abstraction [cs_view] reads the browser's CacheStorage as the
      left-biased union of its buckets in creation order, which is what
      [caches.match] searches; [proxy_match] relates a worker to the
      abstract state whose cache is that view and whose pending writes
      are its detached jobs, up to order (a job that finished its [open]
      stage rejoins the end of the queue).
    - [proxy_step_sim] is the simulation diagram: every step of a serving
      worker (activated, storage well formed, only [gamehub-v1] left) is
      matched by no abstract step or by one, and a fetch by the abstract
      fetch with the same answer. *)

From S2P Require Import Prelude Fetch CacheStorage ServiceWorker Worker.
Import SW Lifecycle.

Module Proxy.

(** ** The abstraction of CacheStorage *)

Definition bucket_of (heap : gmap nat Cache) (p : string * nat) : Cache :=
  default ∅ (heap !! p.2).

(** Every url a named bucket holds, answered by the first bucket in
    creation order that holds it. *)
Definition cs_view (cs : CacheStorage) : gmap string Response :=
  ⋃ (bucket_of (cs_heap cs) <$> cs_names cs).

(** ** The abstract proxy *)

Record PState := mkP {
  p_cache : gmap string Response;
  p_pending : list (Request * Response)
}.

(** Only GET requests are answered from the cache. *)
Definition p_lookup (req : Request) (σ : PState) : option Response :=
  if is_get req then p_cache σ !! req_url req else None.

(** The answers worth keeping: successful, same-origin. *)
Definition stores (r : Response) : Prop := res_status r = 200 /\ res_type r = Basic.

#[export] Instance stores_dec r : Decision (stores r).
Proof. unfold stores. apply _. Defined.

Inductive PLabel :=
  | PFetch (req : Request) (net : NetResult) (resp : option Response)
  | PWrite
  | PDrop
  | PClear.

Inductive pstep : PState -> PLabel -> PState -> Prop :=
  | p_hit req net r σ :
      p_lookup req σ = Some r -> pstep σ (PFetch req net (Some r)) σ
  | p_offline req σ :
      p_lookup req σ = None ->
      pstep σ (PFetch req NetFail (p_lookup (request_of_url "/index.html") σ)) σ
  | p_network req r σ :
      p_lookup req σ = None ->
      pstep σ (PFetch req (NetOk r) (Some r))
            (mkP (p_cache σ) (p_pending σ ++ if bool_decide (stores r) then [(req, r)] else []))
  | p_write i req r σ :
      p_pending σ !! i = Some (req, r) -> is_get req = true ->
      pstep σ PWrite (mkP (<[req_url req := r]> (p_cache σ)) (delete i (p_pending σ)))
  | p_drop i e σ :
      p_pending σ !! i = Some e -> pstep σ PDrop (mkP (p_cache σ) (delete i (p_pending σ)))
  | p_clear σ :
      pstep σ PClear (mkP ∅ (p_pending σ)).

Definition pstep_any (σ σ' : PState) : Prop := exists l, pstep σ l σ'.

(** ** Matching a worker with an abstract state *)

Definition job_entry (j : Job) : Request * Response :=
  match j with JobOpenPut req r | JobPut _ req r => (req, r) end.

Definition sw_match (s : SWState) (σ : PState) : Prop :=
  p_cache σ = cs_view (sw_caches s) /\ p_pending σ ≡ₚ job_entry <$> sw_jobs s.

Definition proxy_match (w : Worker) (σ : PState) : Prop := sw_match (w_sw w) σ.

(** The states the refinement covers: activated, with a well-formed
    storage holding at most the current bucket. *)
Definition serving (w : Worker) : Prop :=
  w_phase w = Activated /\ cs_wf (sw_caches (w_sw w)) /\
  cs_keys (sw_caches (w_sw w)) ⊆ [CACHE_NAME].

(** The abstract state a worker stands for. *)
Definition proxy_abs (w : Worker) : PState :=
  mkP (cs_view (sw_caches (w_sw w))) (job_entry <$> sw_jobs (w_sw w)).

(** ** The view of CacheStorage *)

Section View.
Implicit Types (cs : CacheStorage).

Lemma union_list_cons_lookup (m : gmap string Response) ms k :
  (⋃ (m :: ms)) !! k = match m !! k with Some x => Some x | None => (⋃ ms) !! k end.
Proof. rewrite union_list_cons, lookup_union. by destruct (m !! k), ((⋃ ms) !! k). Qed.

Lemma names_match_view req names heap :
  names_match req names heap =
  if is_get req then (⋃ (bucket_of heap <$> names)) !! req_url req else None.
Proof.
  induction names as [|[n h] names IH]; cbn [names_match].
  - destruct (is_get req); [|done]. by rewrite fmap_nil, union_list_nil, lookup_empty.
  - rewrite IH, fmap_cons, union_list_cons_lookup. unfold cache_match, bucket_of. cbn [snd].
    destruct (is_get req); [|by destruct (heap !! h)].
    destruct (heap !! h) as [c|]; simpl; [by destruct (c !! req_url req)|by rewrite lookup_empty].
Qed.

Lemma cs_view_empty_names heap next : cs_view (mkCS [] heap next) = ∅.
Proof. done. Qed.

Lemma cs_view_single cs n h :
  cs_names cs = [(n, h)] -> cs_view cs = default ∅ (cs_heap cs !! h).
Proof. intros Hn. unfold cs_view. rewrite Hn. simpl. by rewrite map_union_empty. Qed.

(** A storage holding at most the current bucket names it or nothing. *)
Lemma single_bucket_names cs :
  cs_wf cs -> cs_keys cs ⊆ [CACHE_NAME] ->
  cs_names cs = [] \/ exists h, cs_names cs = [(CACHE_NAME, h)].
Proof.
  intros (Hnd & _) Hk. unfold cs_keys, alist_keys in *.
  destruct (cs_names cs) as [|[n h] [|[n' h'] rest]]; [by left| |]; right; simpl in Hk, Hnd.
  - exists h. assert (n ∈ [CACHE_NAME]) as ->%list_elem_of_singleton by (apply Hk; left). done.
  - exfalso. assert (n ∈ [CACHE_NAME]) as ->%list_elem_of_singleton by (apply Hk; left).
    assert (n' ∈ [CACHE_NAME]) as ->%list_elem_of_singleton by (apply Hk; right; left).
    apply NoDup_cons in Hnd as [Hn _]. apply Hn. left.
Qed.

End View.

(** ** One listener at a time *)

Section Sim.
Implicit Types (s : SWState) (σ : PState).

Lemma p_lookup_match req s σ : sw_match s σ -> p_lookup req σ = cs_match req (sw_caches s).
Proof. intros [Hc _]. unfold p_lookup, cs_match. by rewrite names_match_view, Hc. Qed.

Lemma sw_match_same s s' σ :
  sw_caches s' = sw_caches s -> sw_jobs s' = sw_jobs s -> sw_match s σ -> sw_match s' σ.
Proof. unfold sw_match. by intros -> ->. Qed.

Lemma cacheable_stores r : cacheable r = bool_decide (stores r).
Proof.
  unfold cacheable, stores. destruct (Nat.eqb_spec (res_status r) 200); simpl;
    repeat case_bool_decide; naive_solver.
Qed.

(** The fetch listener is the abstract fetch. *)
Lemma on_fetch_sim req net s σ resp s' :
  sw_match s σ -> on_fetch req net s = (resp, s') ->
  exists σ', pstep σ (PFetch req net resp) σ' /\ sw_match s' σ'.
Proof.
  intros Hm. unfold on_fetch. rewrite <- (p_lookup_match _ _ _ Hm).
  destruct (p_lookup req σ) as [r|] eqn:Hl.
  - intros [= <- <-]. exists σ. split; [by apply p_hit|done].
  - destruct net as [r|].
    + rewrite cacheable_stores. intros Hf.
      assert (resp = Some r) as -> by (case_bool_decide; congruence).
      eexists. split; [by apply p_network|]. destruct Hm as [Hc Hp].
      case_bool_decide; injection Hf as <-; split; simpl; try done.
      * rewrite fmap_app, Hp. done.
      * by rewrite app_nil_r.
    + intros [= <- <-]. exists σ. split; [|by eapply sw_match_same].
      rewrite <- (p_lookup_match _ _ _ Hm). by apply p_offline.
Qed.

(** The view of a serving storage after [caches.open(CACHE_NAME)]. *)
Lemma cs_view_open cs :
  cs_wf cs -> cs_keys cs ⊆ [CACHE_NAME] -> cs_view (cs_open CACHE_NAME cs).2 = cs_view cs.
Proof.
  intros Hwf Hk. unfold cs_open. destruct (single_bucket_names cs Hwf Hk) as [Hn|[h Hn]]; rewrite Hn.
  - cbn [alist_find snd]. rewrite (cs_view_single _ CACHE_NAME (cs_next cs)) by done. cbn [cs_heap].
    rewrite lookup_insert_eq. unfold cs_view. by rewrite Hn.
  - done.
Qed.

(** A write through handle [h] into a serving storage: it lands iff [h]
    is the current bucket's handle. *)
Lemma cs_view_alter cs h f :
  cs_wf cs -> cs_keys cs ⊆ [CACHE_NAME] ->
  cs_view (cs_alter h f cs) = cs_view cs \/
  (cs_names cs = [(CACHE_NAME, h)] /\ cs_view (cs_alter h f cs) = f (cs_view cs)).
Proof.
  intros Hwf Hk. destruct (single_bucket_names cs Hwf Hk) as [Hn|[h0 Hn]].
  - left. unfold cs_view, cs_alter. simpl. by rewrite Hn.
  - rewrite (cs_view_single (cs_alter h f cs) CACHE_NAME h0) by done.
    rewrite (cs_view_single cs CACHE_NAME h0) by done. simpl. rewrite lookup_alter.
    case_decide as Heq; [subst h0; right|left; done].
    destruct Hwf as (_ & _ & Hlive & _). destruct (Hlive CACHE_NAME h) as [c Hc]; [by rewrite Hn|].
    rewrite Hc. done.
Qed.

Lemma pending_entry s σ i j :
  sw_match s σ -> sw_jobs s !! i = Some j ->
  exists k, p_pending σ !! k = Some (job_entry j) /\
            delete k (p_pending σ) ≡ₚ job_entry <$> delete i (sw_jobs s).
Proof.
  intros [_ Hp] Hj. rewrite list_fmap_delete. apply perm_lookup_delete; [done|].
  by rewrite list_lookup_fmap, Hj.
Qed.

(** A detached write's stage is no abstract step (the [open]), a write
    that lands, or a write that is lost. *)
Lemma job_step_sim i s s' σ :
  cs_wf (sw_caches s) -> cs_keys (sw_caches s) ⊆ [CACHE_NAME] ->
  sw_match s σ -> job_step i s = Some s' ->
  exists σ', (σ' = σ \/ pstep σ PWrite σ' \/ pstep σ PDrop σ') /\ sw_match s' σ'.
Proof.
  intros Hwf Hk Hm (j & Hj & ->)%job_step_inv.
  destruct (pending_entry s σ i j Hm Hj) as (k & Hk' & Hdel).
  destruct Hm as [Hc Hp]. destruct j as [req r|h req r]; simpl in Hk' |- *.
  - destruct (cs_open CACHE_NAME (sw_caches s)) as [h cs'] eqn:Ho. simpl.
    exists σ. split; [by left|]. split; simpl.
    + rewrite Hc, <- (cs_view_open _ Hwf Hk), Ho. done.
    + rewrite fmap_app, <- Hdel. simpl.
      rewrite (delete_Permutation (p_pending σ) k (req, r)) at 1 by done.
      apply Permutation_cons_append.
  - unfold cache_put. destruct (is_get req) eqn:Hg; simpl;
      [destruct (res_status r =? 206)|]; simpl.
    2: destruct (cs_view_alter (sw_caches s) h (insert (req_url req) r) Hwf Hk) as [Hv|[_ Hv]].
    all: try (eexists; split; [right; right; by apply (p_drop k (req, r))|split; simpl; [done|by rewrite app_nil_r]]).
    all: try (eexists; split; [right; right; by apply (p_drop k (req, r))|split; simpl; [by rewrite Hv|by rewrite app_nil_r]]).
    eexists. split; [right; left; by apply (p_write k req r)|].
    split; simpl; [by rewrite Hv, Hc|by rewrite app_nil_r].
Qed.

Lemma on_message_caches d s s' :
  on_message d s = Some s' ->
  sw_jobs s' = sw_jobs s /\
  (sw_caches s' = sw_caches s \/ sw_caches s' = mkCS [] (cs_heap (sw_caches s)) (cs_next (sw_caches s))).
Proof.
  intros Hm. split; [by eapply on_message_jobs|]. revert Hm.
  destruct d as [| |action]; simpl; [done|intros [= <-]; by left|]. intros [= <-].
  case_bool_decide; [right|left]; case_bool_decide; simpl; try done; by rewrite clear_all_caches_eq.
Qed.

End Sim.

(** ** The simulation *)


(** C28: the worker refines the abstract proxy.  From a serving worker
    matched with an abstract state, every step (any event, any detached
    job, in any order) is matched by no abstract step or by one abstract
    step, and the match is kept; a fetch answers what the abstract proxy
    answers: the cached response, else the network's, else the cached
    offline document. *)
Theorem proxy_step_sim w ev w' σ :
  serving w -> proxy_match w σ -> wstep w ev w' ->
  exists σ', (σ' = σ \/ pstep_any σ σ') /\ proxy_match w' σ' /\
             (forall req net resp, ev = EvFetch req net resp -> pstep σ (PFetch req net resp) σ').
Proof.
  intros (Hp & Hwf & Hk) Hm Hs. unfold proxy_match in *.
  destruct Hs as [net w0 sw' Hp0 _|net w0 e sw' Hp0 _|w0 Hp0 _|w0|req net resp w0 sw' _ Hf
    |i w0 sw' Hj|d w0 sw' _ Hmsg|d w0|tag w0|data w0|tag action w0]; simpl in *;
    try congruence.
  - exists σ. split_and!; [by left|done|done].
  - destruct (on_fetch_sim _ _ _ _ _ _ Hm Hf) as (σ' & Hst & Hm').
    exists σ'. split_and!; [right; by eexists|done|]. by intros ??? [= -> -> ->].
  - destruct (job_step_sim _ _ _ _ Hwf Hk Hm Hj) as (σ' & Hst & Hm').
    exists σ'. split_and!; [|done|done]. destruct Hst as [->|[Hst|Hst]]; [by left|right; by eexists..].
  - destruct (on_message_caches _ _ _ Hmsg) as [Hjobs [Hc|Hc]].
    + exists σ. split_and!; [by left|by eapply sw_match_same|done].
    + exists (mkP ∅ (p_pending σ)). split_and!; [right; eexists; apply p_clear| |done].
      destruct Hm as [_ Hpend]. split; simpl; [by rewrite Hc|by rewrite Hjobs].
  - exists σ. split_and!; [by left|done|done].
  - exists σ. split_and!; [by left|done|done].
  - exists σ. split_and!; [by left|done|done].
  - exists σ. split_and!; [by left| |done].
    unfold on_notificationclick. by destruct (String.eqb action "explore").
Qed.

(** ** Witnesses *)

Lemma w_up_active_serving : serving w_up_active.
Proof.
  split_and!; [reflexivity|decide_wf|].
  assert (Hk : cs_keys (sw_caches (w_sw w_up_active)) = [CACHE_NAME]) by reflexivity.
  by rewrite Hk.
Qed.

Lemma proxy_step_sim_witness :
  cs_match (request_of_url "/app.js") (sw_caches (w_sw w_up_active)) = Some (page "/app.js") /\
  exists σ', pstep (proxy_abs w_up_active) (PFetch (request_of_url "/app.js") NetFail (Some (page "/app.js"))) σ'.
Proof.
  split; [vm_compute; reflexivity|].
  destruct (proxy_step_sim w_up_active (EvFetch (request_of_url "/app.js") NetFail (Some (page "/app.js")))
              (with_sw (w_sw w_up_active) w_up_active) (proxy_abs w_up_active)) as (σ' & _ & _ & H).
  - exact w_up_active_serving.
  - split; reflexivity.
  - apply step_fetch; [reflexivity|vm_compute; reflexivity].
  - exists σ'. by apply H.
Defined.

End Proxy.
