(* ===== verification/Timers.v ===== *)
(** * The event loop's timers

    [setTimeout(callback, delay)] and [clearTimeout(id)] as app.js uses
    them, modelled from the HTML standard's timer initialisation steps: a
    timer gets a fresh positive id, is due [delay] milliseconds after the
    current time, and its task runs once the clock reaches the due time;
    among due timers, the earliest due runs first and timers due at the
    same time run in the order they were set.  [clearTimeout] with an
    unknown or already fired id (or [undefined]) does nothing.

    The timer list is generic in the task a timer runs, so the debounce
    helper, the toasts and the install buttons of app.js share it.  The
    clamping of nested timers to 4 ms is not modelled: app.js never nests
    timers more than two deep. *)

From S2P Require Import Prelude.

Section Timers.
Context {A : Type}.

Record Timer := mkTimer { t_id : nat; t_due : nat; t_task : A }.

Record Timers := mkTimers {
  tm_clock : nat;
  tm_next : nat;            (** next timer id *)
  tm_pending : list Timer   (** in the order they were set *)
}.

Definition timers_init (now : nat) : Timers := mkTimers now 1 [].

(** [setTimeout(task, delay)] returns the new id. *)
Definition setTimeout (task : A) (delay : nat) (tm : Timers) : nat * Timers :=
  (tm_next tm,
   mkTimers (tm_clock tm) (S (tm_next tm))
            (tm_pending tm ++ [mkTimer (tm_next tm) (tm_clock tm + delay) task])).

(** [clearTimeout(id)]; [None] is [clearTimeout(undefined)]. *)
Definition clearTimeout (id : option nat) (tm : Timers) : Timers :=
  match id with
  | None => tm
  | Some i => mkTimers (tm_clock tm) (tm_next tm) (filter (fun t => t_id t <> i) (tm_pending tm))
  end.

(** The timer that runs first: least due time, earliest set among ties. *)
Fixpoint earliest (l : list Timer) : option Timer :=
  match l with
  | [] => None
  | t :: l' =>
      match earliest l' with
      | Some t' => if t_due t' <? t_due t then Some t' else Some t
      | None => Some t
      end
  end.

(** The next timer due no later than [limit] ([None]: no limit), removed
    from the list, with the clock moved to its due time. *)
Definition pop_due (limit : option nat) (tm : Timers) : option (Timer * Timers) :=
  match earliest (tm_pending tm) with
  | Some t =>
      if match limit with Some l => t_due t <=? l | None => true end
      then Some (t, mkTimers (Nat.max (tm_clock tm) (t_due t)) (tm_next tm)
                              (filter (fun t' => t_id t' <> t_id t) (tm_pending tm)))
      else None
  | None => None
  end.

(** Moving the clock forward to [now] (time never goes back). *)
Definition set_clock (now : nat) (tm : Timers) : Timers :=
  mkTimers (Nat.max (tm_clock tm) now) (tm_next tm) (tm_pending tm).

(** Ids are fresh: every pending id is below [tm_next] and ids are unique. *)
Definition timers_wf (tm : Timers) : Prop :=
  NoDup (t_id <$> tm_pending tm) /\ Forall (fun t => t_id t < tm_next tm) (tm_pending tm).

End Timers.

Arguments Timer : clear implicits.
Arguments Timers : clear implicits.

Section TimerLemmas.
Context {A : Type}.
Implicit Types (tm : Timers A) (t : Timer A).

Lemma earliest_single t : earliest [t] = Some t.
Proof. done. Qed.

Lemma earliest_elem (l : list (Timer A)) t : earliest l = Some t -> t ∈ l.
Proof.
  induction l as [|t0 l IH]; simpl; [done|].
  destruct (earliest l) as [t'|]; [|intros [= <-]; left].
  destruct (t_due t' <? t_due t0); intros [= <-]; [right; by apply IH|left].
Qed.

Lemma earliest_None (l : list (Timer A)) : earliest l = None <-> l = [].
Proof.
  destruct l as [|t l]; simpl; [done|]. split; [|done].
  destruct (earliest l) as [t'|]; [destruct (t_due t' <? t_due t)|]; done.
Qed.

Lemma setTimeout_wf task delay tm : timers_wf tm -> timers_wf (setTimeout task delay tm).2.
Proof.
  intros [Hnd Hlt]. unfold timers_wf. simpl. rewrite fmap_app. split.
  - apply NoDup_app. split_and!; [done| |by apply NoDup_singleton]. simpl.
    intros i Hi ->%list_elem_of_singleton. apply list_elem_of_fmap in Hi as (t & Heq & Ht).
    rewrite Forall_forall in Hlt. specialize (Hlt t Ht). lia.
  - apply Forall_app. split; [|constructor; simpl; [lia|done]].
    eapply Forall_impl; [done|]. simpl. lia.
Qed.

Lemma clearTimeout_wf id tm : timers_wf tm -> timers_wf (clearTimeout id tm).
Proof.
  destruct id as [i|]; [|done]. intros [Hnd Hlt]. split; simpl.
  - by apply NoDup_fmap_filter.
  - by apply Forall_filter_sub.
Qed.

Lemma pop_due_wf limit tm t tm' :
  timers_wf tm -> pop_due limit tm = Some (t, tm') -> timers_wf tm'.
Proof.
  unfold pop_due. destruct (earliest (tm_pending tm)) as [t0|]; [|done].
  destruct (match limit with Some l => _ | None => true end); [|done].
  intros [Hnd Hlt] [= <- <-]. split; simpl; [by apply NoDup_fmap_filter|by apply Forall_filter_sub].
Qed.

(** With a single pending timer, it is the one that fires, once the limit
    allows it. *)
Lemma pop_due_single limit tm t :
  tm_pending tm = [t] ->
  pop_due limit tm =
  if match limit with Some l => t_due t <=? l | None => true end
  then Some (t, mkTimers (Nat.max (tm_clock tm) (t_due t)) (tm_next tm) [])
  else None.
Proof.
  intros Hp. unfold pop_due. rewrite Hp. simpl.
  destruct (match limit with Some l => _ | None => true end); [|done].
  rewrite filter_cons_False; [done|]. intros Hc. by apply Hc.
Qed.
(** A timer other than the one [pop_due] returns stays pending. *)
Lemma pop_due_keeps limit tm t tm' w :
  timers_wf tm -> pop_due limit tm = Some (t, tm') ->
  w ∈ tm_pending tm -> w <> t -> w ∈ tm_pending tm'.
Proof.
  intros [Hnd _]. unfold pop_due. destruct (earliest (tm_pending tm)) as [t0|] eqn:He; [|done].
  destruct (match limit with Some l => _ | None => true end); [|done]. intros [= <- <-] Hw Hne. simpl.
  apply list_elem_of_filter. split; [|done]. intros Hid. apply Hne.
  apply earliest_elem in He. by apply (NoDup_fmap_inj_in t_id (tm_pending tm)).
Qed.

Lemma pop_due_pending limit tm t tm' :
  pop_due limit tm = Some (t, tm') ->
  t ∈ tm_pending tm /\ tm_pending tm' = filter (fun t' => t_id t' <> t_id t) (tm_pending tm).
Proof.
  unfold pop_due. destruct (earliest (tm_pending tm)) as [t0|] eqn:He; [|done].
  destruct (match limit with Some l => _ | None => true end); [|done]. intros [= <- <-].
  split; [by apply earliest_elem|done].
Qed.

Lemma clearTimeout_next id tm : tm_next (clearTimeout id tm) = tm_next tm.
Proof. by destruct id. Qed.

(** [clearTimeout(id)] removes exactly the timer [id] names. *)
Lemma clearTimeout_pending id tm w :
  w ∈ tm_pending (clearTimeout id tm) <-> w ∈ tm_pending tm /\ id <> Some (t_id w).
Proof. destruct id as [i|]; simpl; [rewrite list_elem_of_filter|]; naive_solver. Qed.

Lemma pop_due_next limit tm t tm' : pop_due limit tm = Some (t, tm') -> tm_next tm' = tm_next tm.
Proof.
  unfold pop_due. destruct (earliest (tm_pending tm)); [|done].
  destruct (match limit with Some l => _ | None => true end); [|done]. by intros [= _ <-].
Qed.

Lemma pop_due_None_empty tm : pop_due None tm = None <-> tm_pending tm = [].
Proof.
  unfold pop_due. rewrite <- earliest_None. by destruct (earliest (tm_pending tm)).
Qed.

(** Popping a timer takes its weight off the total. *)
Lemma sum_filter_id (g : Timer A -> nat) (l : list (Timer A)) t :
  NoDup (t_id <$> l) -> t ∈ l ->
  sum_list (g <$> filter (fun t' => t_id t' <> t_id t) l) + g t = sum_list (g <$> l).
Proof.
  induction l as [|t0 l IH]; intros Hnd Ht; [by apply elem_of_nil in Ht|].
  rewrite fmap_cons in Hnd. apply NoDup_cons in Hnd as [Hn Hnd].
  rewrite filter_cons, (fmap_cons g t0 l). cbn [sum_list].
  apply elem_of_cons in Ht as [->|Ht].
  - rewrite decide_False by (intros Hc; by apply Hc). rewrite filter_all_true; [by rewrite Nat.add_comm|].
    intros t' Ht' Heq. apply Hn, list_elem_of_fmap. by exists t'.
  - rewrite decide_True; [rewrite fmap_cons; cbn [sum_list]; rewrite <- (IH Hnd Ht); lia|].
    intros Heq. apply Hn, list_elem_of_fmap. exists t. done.
Qed.
End TimerLemmas.
