(* ===== verification/Debounce.v ===== *)
(** * The debounce helper of src/pwa/app.js (lines 6-16) and its use by
    the window-controls-overlay listener (lines 19-49)

    [debounce(func, wait)] returns [executedFunction]; the closure keeps
    one variable, [timeout].  A call clears the pending timer and sets a
    new one that will run [later], which clears [timeout] again and calls
    [func] with the arguments of the call that set it.

    The closure's state is [DState]: the page's timers, the closure's
    [timeout], and the invocations of [func] so far (time and arguments).
    [run] feeds a stream of calls, each at a given time; before a call at
    time [t], every timer due by [t] runs (a timer whose due time has come
    has its task queued before an event of the same millisecond).
    [settle] lets the remaining timers run once no call comes any more.

    The reference [debounce_spec] says which calls reach [func]: a call
    does, [wait] ms after it, exactly when the next call comes no sooner
    than that, or when it is the last call. *)

From S2P Require Import Prelude Timers.

Module Debounce.

Section Debounce.
Context {Args : Type}.

(** The callback of the timer a call sets: [later] over that call's
    arguments. *)
Inductive Task := Later (args : Args).

Record DState := mkD {
  d_timers : Timers Task;
  d_timeout : option nat;       (** the closure's [timeout]; [None] is undefined *)
  d_calls : list (nat * Args)   (** invocations of [func]: time, arguments *)
}.

Definition d_init : DState := mkD (timers_init 0) None [].

(** [executedFunction(...args)], lines 8-15. *)
Definition executedFunction (wait : nat) (args : Args) (s : DState) : DState :=
  let tm1 := clearTimeout (d_timeout s) (d_timers s) in
  let '(id, tm2) := setTimeout (Later args) wait tm1 in
  mkD tm2 (Some id) (d_calls s).

(** [later], lines 9-12: [clearTimeout(timeout); func(...args)]. *)
Definition later (args : Args) (s : DState) : DState :=
  mkD (clearTimeout (d_timeout s) (d_timers s)) (d_timeout s)
      (d_calls s ++ [(tm_clock (d_timers s), args)]).

(** Running the timers due by [limit], earliest first. *)
Fixpoint fire_until (fuel : nat) (limit : option nat) (s : DState) : DState :=
  match fuel with
  | 0 => s
  | S fuel' =>
      match pop_due limit (d_timers s) with
      | Some (t, tm') =>
          let 'Later a := t_task t in
          fire_until fuel' limit (later a (mkD tm' (d_timeout s) (d_calls s)))
      | None => s
      end
  end.

(** A call of the debounced function at time [now]. *)
Definition call_at (wait now : nat) (args : Args) (s : DState) : DState :=
  let s1 := fire_until (length (tm_pending (d_timers s))) (Some now) s in
  executedFunction wait args (mkD (set_clock now (d_timers s1)) (d_timeout s1) (d_calls s1)).

Fixpoint run (wait : nat) (calls : list (nat * Args)) (s : DState) : DState :=
  match calls with
  | [] => s
  | (now, a) :: rest => run wait rest (call_at wait now a s)
  end.

Definition settle (s : DState) : DState :=
  fire_until (length (tm_pending (d_timers s))) None s.

(** The invocations of [func] for a stream of calls of [debounce(func, wait)]. *)
Definition debounce_run (wait : nat) (calls : list (nat * Args)) : list (nat * Args) :=
  d_calls (settle (run wait calls d_init)).

(** Calls come in time order. *)
Fixpoint sorted_times (calls : list (nat * Args)) : bool :=
  match calls with
  | (t, _) :: (((t', _) :: _) as rest) => (t <=? t') && sorted_times rest
  | _ => true
  end.

(** Reference specification. *)
Fixpoint debounce_spec (wait : nat) (calls : list (nat * Args)) : list (nat * Args) :=
  match calls with
  | [] => []
  | (t, a) :: rest =>
      match rest with
      | [] => [(t + wait, a)]
      | (t', _) :: _ => (if t + wait <=? t' then [(t + wait, a)] else []) ++ debounce_spec wait rest
      end
  end.

(** After a call at [t] with [a]: the clock is at [t], one timer is
    pending, set by that call, and [timeout] holds its id. *)
Definition after_call (wait t : nat) (a : Args) (s : DState) : Prop :=
  exists id next,
    d_timers s = mkTimers t next [mkTimer id (t + wait) (Later a)] /\ d_timeout s = Some id.

End Debounce.

(** The overlay listener, lines 23-40: [debounce(handler, 200)] over the
    [geometrychange] events; [handler] only logs the overlay geometry. *)
Definition WCO_WAIT : nat := 200.

Definition geometrychange_runs {Ev : Type} (events : list (nat * Ev)) : list (nat * Ev) :=
  debounce_run WCO_WAIT events.

(** ** The run against the reference *)

Section DebounceProofs.
Context {Args : Type}.
Implicit Types (s : @DState Args) (a : Args).

Lemma clear_single id next now due a :
  clearTimeout (Some id) (mkTimers now next [mkTimer id due (Later a)]) = mkTimers now next [].
Proof. simpl. rewrite filter_cons_False; [done|]. simpl. intros Hc. by apply Hc. Qed.

Lemma call_at_step wait t t' a a' s :
  after_call wait t a s -> t <= t' ->
  after_call wait t' a' (call_at wait t' a' s) /\
  d_calls (call_at wait t' a' s) =
  d_calls s ++ (if t + wait <=? t' then [(t + wait, a)] else []).
Proof.
  intros (id & next & Htm & Hto) Hle. unfold call_at. rewrite Htm. simpl length.
  cbn [fire_until]. rewrite (pop_due_single _ _ (mkTimer id (t + wait) (Later a))) by (by rewrite Htm).
  rewrite Htm. simpl t_due. destruct (Nat.leb_spec (t + wait) t') as [Hfire|Hnofire].
  - cbn. rewrite Hto. cbn. split; [|do 3 f_equal; lia].
    exists next, (S next). split; [|done].
    by replace (Nat.max (Nat.max t (t + wait)) t') with t' by lia.
  - unfold executedFunction. cbn. rewrite Hto, Htm. unfold set_clock.
    cbn [tm_clock tm_next tm_pending]. rewrite clear_single. cbn.
    split; [|by rewrite app_nil_r]. exists next, (S next). split; [|done].
    by replace (Nat.max t t') with t' by lia.
Qed.

Lemma call_at_first wait t a :
  after_call wait t a (call_at wait t a d_init) /\ d_calls (call_at wait t a d_init) = [].
Proof. split; [|done]. exists 1, 2. split; [|done]. cbn. done. Qed.

Lemma settle_after wait t a s :
  after_call wait t a s -> d_calls (settle s) = d_calls s ++ [(t + wait, a)].
Proof.
  intros (id & next & Htm & Hto). unfold settle. rewrite Htm. simpl length. cbn [fire_until].
  rewrite (pop_due_single _ _ (mkTimer id (t + wait) (Later a))) by (by rewrite Htm).
  rewrite Htm. cbn. do 3 f_equal. lia.
Qed.

Lemma run_after wait rest t a s :
  after_call wait t a s -> sorted_times ((t, a) :: rest) = true ->
  d_calls (settle (run wait rest s)) = d_calls s ++ debounce_spec wait ((t, a) :: rest).
Proof.
  revert t a s. induction rest as [|[t' a'] rest IH]; intros t a s Hafter Hsorted.
  - simpl. by apply settle_after.
  - simpl in Hsorted. apply andb_true_iff in Hsorted as [Hle%Nat.leb_le Hsorted].
    destruct (call_at_step wait t t' a a' s) as [Hafter' Hcalls]; [done..|].
    simpl. rewrite (IH t' a' _ Hafter' Hsorted), Hcalls, <- app_assoc. done.
Qed.

Lemma debounce_run_spec wait (calls : list (nat * Args)) :
  sorted_times calls = true -> debounce_run wait calls = debounce_spec wait calls.
Proof.
  destruct calls as [|[t a] rest]; [done|]. intros Hsorted. unfold debounce_run. simpl.
  destruct (call_at_first wait t a) as [Hafter Hnil].
  by rewrite (run_after wait rest t a _ Hafter Hsorted), Hnil.
Qed.

Lemma sorted_times_head t a (rest : list (nat * Args)) :
  sorted_times ((t, a) :: rest) = true -> forall p, p ∈ rest -> t <= p.1.
Proof.
  revert t a. induction rest as [|[t1 a1] rest IH]; intros t a Hs p Hp; [by apply elem_of_nil in Hp|].
  simpl in Hs. apply andb_true_iff in Hs as [Hle%Nat.leb_le Hs].
  apply elem_of_cons in Hp as [->|Hp]; [done|]. specialize (IH t1 a1 Hs p Hp). lia.
Qed.

Lemma sorted_times_tail p (rest : list (nat * Args)) :
  sorted_times (p :: rest) = true -> sorted_times rest = true.
Proof. destruct p, rest as [|[] ?]; simpl; [done|]. by intros [_ ?]%andb_true_iff. Qed.

Lemma spec_quiet wait (calls : list (nat * Args)) T a :
  sorted_times calls = true -> (T, a) ∈ debounce_spec wait calls ->
  exists t, (t, a) ∈ calls /\ T = t + wait /\
    forall t'' a'', (t'', a'') ∈ calls -> t < t'' -> T <= t''.
Proof.
  induction calls as [|[t0 a0] rest IH]; intros Hs Hin; [by apply elem_of_nil in Hin|].
  pose proof (sorted_times_head t0 a0 rest Hs) as Hhead.
  destruct rest as [|[t1 a1] rest'].
  - apply list_elem_of_singleton in Hin. injection Hin as -> ->.
    exists t0. split_and!; [left|done|]. intros t'' a'' Hp Hlt.
    apply list_elem_of_singleton in Hp. injection Hp as -> ->. lia.
  - pose proof (Hhead (t1, a1) ltac:(left)) as Ht01. simpl in Ht01.
    apply elem_of_app in Hin as [Hin|Hin].
    + destruct (Nat.leb_spec (t0 + wait) t1); [|by apply elem_of_nil in Hin].
      apply list_elem_of_singleton in Hin. injection Hin as -> ->.
      exists t0. split_and!; [left|done|]. intros t'' a'' Hp Hlt.
      apply elem_of_cons in Hp as [[= -> ->]|Hp]; [lia|].
      specialize (Hhead _ Hp). apply elem_of_cons in Hp as [[= -> ->]|Hp]; [lia|].
      pose proof (sorted_times_head t1 a1 rest' (sorted_times_tail _ _ Hs) _ Hp). simpl in *. lia.
    + destruct (IH (sorted_times_tail _ _ Hs) Hin) as (t & Hint & -> & Hquiet).
      exists t. split_and!; [by right|done|]. intros t'' a'' Hp Hlt.
      apply elem_of_cons in Hp as [[= -> ->]|Hp]; [|by eapply Hquiet].
      specialize (Hhead _ Hint). simpl in Hhead. lia.
Qed.

(** C15: for calls that come in time order, the invocations of [func]
    that [debounce(func, wait)] makes are exactly those of the reference:
    a call reaches [func], [wait] ms later and with its own arguments,
    when no other call comes before that, and the last call always does. *)
Theorem debounce_equiv wait (calls : list (nat * Args)) :
  sorted_times calls = true -> debounce_run wait calls = debounce_spec wait calls.
Proof. apply debounce_run_spec. Qed.

(** C16: every invocation of [func] by [debounce(func, wait)] happens
    [wait] ms after a call with the same arguments, and no later call came
    in between: [func] runs only after [wait] ms of quiet. *)
Theorem debounce_quiet wait (calls : list (nat * Args)) T a :
  sorted_times calls = true -> (T, a) ∈ debounce_run wait calls ->
  exists t, (t, a) ∈ calls /\ T = t + wait /\
    forall t'' a'', (t'', a'') ∈ calls -> t < t'' -> T <= t''.
Proof. intros Hs. rewrite debounce_run_spec by done. by apply spec_quiet. Qed.

End DebounceProofs.

(** ** Examples: a burst of overlay geometry changes *)

Definition burst : list (nat * string) :=
  [(0, "a"); (50, "b"); (100, "c"); (500, "d"); (700, "e")].

Lemma debounce_equiv_witness :
  geometrychange_runs burst = [(300, "c"); (700, "d"); (900, "e")] /\
  debounce_run WCO_WAIT burst = debounce_spec WCO_WAIT burst.
Proof. split; [vm_compute; reflexivity|]. apply debounce_equiv. reflexivity. Defined.

Lemma debounce_quiet_witness :
  exists t, (t, "c") ∈ burst /\ 300 = t + WCO_WAIT /\
    forall t'' a'', (t'', a'') ∈ burst -> t < t'' -> 300 <= t''.
Proof.
  apply (debounce_quiet WCO_WAIT burst 300 "c"); [reflexivity|].
  vm_compute. left.
Defined.

End Debounce.
