(* ===== verification/Dom.v ===== *)
(** * The page's DOM as app.js reads and writes it

    Elements in document order, identified by their index (app.js never
    removes an element it queried).  An element records what the
    listeners of app.js read or write: its tag, id, classes, text,
    [data-page] attribute, [disabled] and [checked] flags, inline
    [background] and [transform] styles, the (tag, classes) of its
    ancestors (nearest first) for descendant selectors, and the text of
    the [h3] of its parent and of the [span] of its grandparent, which the
    library, news and settings listeners look up.

    Selectors are lists of descendant chains (a comma-separated selector
    list); a chain is a list of compound selectors, outermost first, each
    with an optional tag, classes and an optional [data-page] value.
    [querySelectorAll] returns matching indices in document order;
    [getElementById] the first element with that id.  The page's HTML is
    not part of the repository: theorems quantify over every document. *)

From S2P Require Import Prelude.

Module Dom.

Record Elem := mkElem {
  el_tag : string;
  el_id : option string;
  el_classes : list string;
  el_text : string;
  el_data_page : option string;
  el_disabled : bool;
  el_checked : bool;
  el_background : option string;
  el_transform : option string;
  el_ancestors : list (string * list string);
  el_parent_h3 : option string;       (** [parentElement.querySelector('h3').textContent] *)
  el_grandparent_span : option string (** [parentElement.parentElement.querySelector('span').textContent] *)
}.

Record Compound := mkCompound {
  c_tag : option string;
  c_classes : list string;
  c_data_page : option string
}.

(** [sel1, sel2, ...]; each [seli] is [A B C], outermost first. *)
Definition Selector := list (list Compound).

Definition cls (c : string) : Compound := mkCompound None [c] None.
Definition tag (t : string) : Compound := mkCompound (Some t) [] None.

Definition compound_matches_node (c : Compound) (t : string) (classes : list string) : bool :=
  match c_tag c with Some t' => String.eqb t t' | None => true end &&
  forallb (fun k => bool_decide (k ∈ classes)) (c_classes c) &&
  match c_data_page c with Some _ => false | None => true end.

Definition compound_matches (c : Compound) (e : Elem) : bool :=
  match c_tag c with Some t' => String.eqb (el_tag e) t' | None => true end &&
  forallb (fun k => bool_decide (k ∈ el_classes e)) (c_classes c) &&
  match c_data_page c with
  | Some v => bool_decide (el_data_page e = Some v)
  | None => true
  end.

(** Some ancestors, in order from the nearest outward, match the
    compounds [cs] (innermost first). *)
Fixpoint ancestors_match (cs : list Compound) (anc : list (string * list string)) : bool :=
  match cs with
  | [] => true
  | c :: cs' =>
      match anc with
      | [] => false
      | (t, classes) :: anc' =>
          (compound_matches_node c t classes && ancestors_match cs' anc') || ancestors_match cs anc'
      end
  end.

Definition chain_matches (chain : list Compound) (e : Elem) : bool :=
  match reverse chain with
  | [] => false
  | c :: outer => compound_matches c e && ancestors_match outer (el_ancestors e)
  end.

Definition matches (sel : Selector) (e : Elem) : bool :=
  existsb (fun chain => chain_matches chain e) sel.

Abbreviation Document := (list Elem).

(** The indices, from [k] on, of the elements satisfying [P], in
    document order. *)
Fixpoint find_from (P : Elem -> bool) (k : nat) (doc : Document) : list nat :=
  match doc with
  | [] => []
  | e :: doc' => if P e then k :: find_from P (S k) doc' else find_from P (S k) doc'
  end.

(** [document.querySelectorAll(sel)]: indices in document order. *)
Definition querySelectorAll (sel : Selector) (doc : Document) : list nat :=
  find_from (matches sel) 0 doc.

(** [document.querySelector(sel)]. *)
Definition querySelector (sel : Selector) (doc : Document) : option nat :=
  head (querySelectorAll sel doc).

(** [document.getElementById(id)]. *)
Definition getElementById (id : string) (doc : Document) : option nat :=
  head (find_from (fun e => bool_decide (el_id e = Some id)) 0 doc).

(** [classList.add] / [classList.remove] and the setters. *)
Definition class_add (c : string) (l : list string) : list string :=
  if bool_decide (c ∈ l) then l else l ++ [c].
Definition class_remove (c : string) (l : list string) : list string :=
  filter (fun c' => c' <> c) l.

Definition set_classes (f : list string -> list string) (e : Elem) : Elem :=
  mkElem (el_tag e) (el_id e) (f (el_classes e)) (el_text e) (el_data_page e) (el_disabled e)
         (el_checked e) (el_background e) (el_transform e) (el_ancestors e)
         (el_parent_h3 e) (el_grandparent_span e).
Definition set_text (s : string) (e : Elem) : Elem :=
  mkElem (el_tag e) (el_id e) (el_classes e) s (el_data_page e) (el_disabled e)
         (el_checked e) (el_background e) (el_transform e) (el_ancestors e)
         (el_parent_h3 e) (el_grandparent_span e).
Definition set_disabled (b : bool) (e : Elem) : Elem :=
  mkElem (el_tag e) (el_id e) (el_classes e) (el_text e) (el_data_page e) b
         (el_checked e) (el_background e) (el_transform e) (el_ancestors e)
         (el_parent_h3 e) (el_grandparent_span e).
Definition set_checked (b : bool) (e : Elem) : Elem :=
  mkElem (el_tag e) (el_id e) (el_classes e) (el_text e) (el_data_page e) (el_disabled e)
         b (el_background e) (el_transform e) (el_ancestors e)
         (el_parent_h3 e) (el_grandparent_span e).
Definition set_background (s : string) (e : Elem) : Elem :=
  mkElem (el_tag e) (el_id e) (el_classes e) (el_text e) (el_data_page e) (el_disabled e)
         (el_checked e) (Some s) (el_transform e) (el_ancestors e)
         (el_parent_h3 e) (el_grandparent_span e).
Definition set_transform (s : string) (e : Elem) : Elem :=
  mkElem (el_tag e) (el_id e) (el_classes e) (el_text e) (el_data_page e) (el_disabled e)
         (el_checked e) (el_background e) (Some s) (el_ancestors e)
         (el_parent_h3 e) (el_grandparent_span e).

Definition has_class (c : string) (e : Elem) : bool := bool_decide (c ∈ el_classes e).

(** Applying [f] to each listed element: a [forEach] over a NodeList. *)
Definition update_all (ids : list nat) (f : Elem -> Elem) (doc : Document) : Document :=
  foldl (fun d i => alter f i d) doc ids.

(** [String.prototype.trim]: strips spaces, tabs and line breaks at both
    ends (the other Unicode white space is not modelled). *)
Fixpoint trim_left (s : string) : string :=
  match s with
  | String c s' => if Ascii.is_space c then trim_left s' else s
  | EmptyString => EmptyString
  end.

Definition trim (s : string) : string :=
  String.rev (trim_left (String.rev (trim_left s))).

(** [String.prototype.includes]. *)
Fixpoint includes (s sub : string) : bool :=
  String.prefix sub s ||
  match s with
  | String _ s' => includes s' sub
  | EmptyString => false
  end.

(** ** Lemmas *)

Section DomLemmas.
Implicit Types (doc : Document) (e : Elem).

Lemma elem_of_find_from P k doc i :
  i ∈ find_from P k doc <-> exists e, k <= i /\ doc !! (i - k) = Some e /\ P e = true.
Proof.
  revert k. induction doc as [|e0 doc IH]; intros k; simpl.
  - split; [by intros ?%elem_of_nil|]. intros (e & _ & ? & _). done.
  - assert (Hk : i ∈ find_from P (S k) doc <->
                 exists e, k < i /\ (e0 :: doc) !! (i - k) = Some e /\ P e = true).
    { rewrite IH. split.
      - intros (e & ? & Hl & ?). exists e. split; [lia|]. by replace (i - k) with (S (i - S k)) by lia.
      - intros (e & ? & Hl & ?). exists e. split; [lia|]. by replace (i - k) with (S (i - S k)) in Hl by lia. }
    destruct (P e0) eqn:HP; [rewrite elem_of_cons|]; rewrite Hk; split.
    + intros [->|(e & ? & ? & ?)]; [exists e0; rewrite Nat.sub_diag; done|]. exists e. split; [lia|done].
    + intros (e & ? & Hl & ?). destruct (decide (i = k)) as [->|]; [by left|right].
      exists e. split; [lia|done].
    + intros (e & ? & ? & ?). exists e. split; [lia|done].
    + intros (e & ? & Hl & ?). destruct (decide (i = k)) as [->|].
      * rewrite Nat.sub_diag in Hl. simpl in Hl. congruence.
      * exists e. split; [lia|done].
Qed.

Lemma elem_of_querySelectorAll sel doc i :
  i ∈ querySelectorAll sel doc <-> exists e, doc !! i = Some e /\ matches sel e = true.
Proof.
  unfold querySelectorAll. rewrite elem_of_find_from. rewrite Nat.sub_0_r.
  split; [intros (e & _ & ?); by exists e|intros (e & ?); exists e; split; [lia|done]].
Qed.

Lemma find_from_ext P k doc1 doc2 :
  P <$> doc1 = P <$> doc2 -> find_from P k doc1 = find_from P k doc2.
Proof.
  revert k doc2. induction doc1 as [|e1 doc1 IH]; intros k [|e2 doc2]; simpl; try done.
  intros [= Hp Hr]. rewrite Hp, (IH (S k) doc2 Hr). done.
Qed.

Lemma update_all_length ids f doc : length (update_all ids f doc) = length doc.
Proof.
  unfold update_all. revert doc. induction ids as [|j ids IH]; intros doc; simpl; [done|].
  rewrite IH. apply length_alter.
Qed.

(** A projection [g] that [f] keeps is unchanged by [update_all]. *)
Lemma update_all_fmap {B} (g : Elem -> B) ids f doc :
  (forall e, g (f e) = g e) -> g <$> update_all ids f doc = g <$> doc.
Proof.
  intros Hg. unfold update_all. revert doc. induction ids as [|j ids IH]; intros doc; simpl; [done|].
  rewrite IH. apply list_eq. intros i. rewrite !list_lookup_fmap.
  destruct (decide (i = j)) as [->|Hne].
  - rewrite list_lookup_alter. case_decide; [|done]. destruct (doc !! j); simpl; by rewrite ?Hg.
  - by rewrite list_lookup_alter_ne.
Qed.

(** With an idempotent [f], an element is changed by [f] iff it is listed. *)
Lemma update_all_lookup ids f doc i :
  (forall e, f (f e) = f e) ->
  update_all ids f doc !! i = if bool_decide (i ∈ ids) then f <$> doc !! i else doc !! i.
Proof.
  intros Hf. unfold update_all. revert doc. induction ids as [|j ids IH]; intros doc; simpl.
  - by try (case_bool_decide; set_solver).
  - rewrite IH. destruct (decide (i = j)) as [->|Hne].
    + rewrite list_lookup_alter, decide_True, (bool_decide_eq_true_2 (j ∈ j :: ids)) by set_solver.
      case_bool_decide; [|done]. destruct (doc !! j); simpl; by rewrite ?Hf.
    + rewrite list_lookup_alter_ne by done. repeat case_bool_decide; set_solver.
Qed.

Lemma getElementById_ext id doc1 doc2 :
  el_id <$> doc1 = el_id <$> doc2 -> getElementById id doc1 = getElementById id doc2.
Proof.
  intros Hid. unfold getElementById. f_equal. apply find_from_ext.
  assert (Hc : forall d : Document, (fun e => bool_decide (el_id e = Some id)) <$> d =
                 (fun o => bool_decide (o = Some id)) <$> (el_id <$> d)).
  { intros d. by rewrite <- list_fmap_compose. }
  by rewrite !Hc, Hid.
Qed.

Lemma getElementById_Some id doc p :
  getElementById id doc = Some p -> exists e, doc !! p = Some e /\ el_id e = Some id.
Proof.
  unfold getElementById. destruct (find_from _ 0 doc) as [|p' l] eqn:Hf; simpl; [done|].
  intros [= <-]. assert (Hin : p' ∈ find_from (fun e => bool_decide (el_id e = Some id)) 0 doc)
    by (rewrite Hf; left). apply elem_of_find_from in Hin as (e & _ & Hl & Hb).
  rewrite Nat.sub_0_r in Hl. apply bool_decide_eq_true in Hb. by exists e.
Qed.

Lemma class_add_idem c l : class_add c (class_add c l) = class_add c l.
Proof.
  unfold class_add. destruct (decide (c ∈ l)).
  - rewrite (bool_decide_eq_true_2 (c ∈ l)) by done. simpl. by rewrite (bool_decide_eq_true_2 (c ∈ l)).
  - rewrite (bool_decide_eq_false_2 (c ∈ l)) by done. simpl. rewrite bool_decide_eq_true_2; set_solver.
Qed.

Lemma class_remove_idem c l : class_remove c (class_remove c l) = class_remove c l.
Proof. unfold class_remove. rewrite list_filter_filter. apply list_filter_iff. naive_solver. Qed.

Lemma set_classes_idem f e :
  (forall l, f (f l) = f l) -> set_classes f (set_classes f e) = set_classes f e.
Proof. intros Hf. unfold set_classes. simpl. by rewrite Hf. Qed.

Lemma has_class_add c e : has_class c (set_classes (class_add c) e) = true.
Proof. unfold has_class, class_add. simpl. apply bool_decide_eq_true. case_bool_decide; set_solver. Qed.

Lemma has_class_remove c e : has_class c (set_classes (class_remove c) e) = false.
Proof. unfold has_class, class_remove. simpl. apply bool_decide_eq_false. rewrite list_elem_of_filter. naive_solver. Qed.

Lemma elem_of_class_add c c' l : c' ∈ class_add c l <-> c' = c \/ c' ∈ l.
Proof. unfold class_add. case_bool_decide; set_solver. Qed.

Lemma elem_of_class_remove c c' l : c' ∈ class_remove c l <-> c' <> c /\ c' ∈ l.
Proof. unfold class_remove. rewrite list_elem_of_filter. naive_solver. Qed.

End DomLemmas.

End Dom.
