(* ===== verification/App.v ===== *)
(** * The listeners of src/pwa/app.js

    Module [App] holds the page state app.js keeps or changes: the DOM,
    the table of listeners registered at load, [cartCount], the toasts
    [showNotification] appended, the timers, [deferredPrompt] and the
    custom install buttons, and the uncaught exceptions of listeners.
    One definition per listener; [click] dispatches a click to the
    listeners of the clicked element in registration order, as the
    browser does, and skips disabled buttons, which receive no clicks.

    Timer callbacks ([Task]) run when the page's clock reaches their due
    time ([tick]); the toasts, the cart and library buttons and the
    overlay listener's [debounce] share these timers.  What the user
    answers to [prompt()] and to the install prompt, and the overlay's
    visibility after a [geometrychange], are inputs of the corresponding
    event. *)

From S2P Require Import Prelude Timers Debounce Dom.
From Stdlib Require Import DecimalString.
Import Dom.

Module App.

(** ** The selectors of app.js *)
Definition NAV_LINKS : Selector :=
  [[cls "nav-menu"; tag "a"]; [cls "custom-title-bar"; cls "nav-menu"; tag "a"]].
Definition PAGES : Selector := [[cls "page"]].
Definition data_page_sel (v : string) : Selector := [[mkCompound None [] (Some v)]].
Definition CART_COUNT : Selector := [[cls "cart-count"]].
Definition BTN_SMALL : Selector := [[cls "btn-small"]].
Definition SEARCH_BTN : Selector := [[cls "search-btn"]].
Definition FILTER_BTN : Selector := [[cls "filter-btn"]].
Definition TAB_BTN : Selector := [[cls "tab-btn"]].
Definition PROFILE_FORM : Selector := [[cls "profile-form"]].
Definition SWITCH_INPUT : Selector := [[cls "switch"; tag "input"]].
Definition LIBRARY_BTN : Selector := [[cls "library-card"; cls "btn"]].
Definition BTN_SECONDARY : Selector := [[cls "btn-secondary"]].
Definition BTN_PRIMARY : Selector := [[cls "btn-primary"]].
Definition NEWS_BTN : Selector := [[cls "news-card"; cls "btn-small"]].

(** The listeners app.js attaches to elements at load; the navigation
    and the filter and tab listeners close over NodeLists queried once. *)
Inductive Listener :=
  | LNav (pages : list nat)
  | LCart
  | LSearch
  | LFilter (group : list nat)
  | LTab (group : list nat)
  | LProfileSubmit
  | LSwitch
  | LLibrary
  | LTrailer
  | LBuy
  | LNews.

#[export] Instance Listener_eq_dec : EqDecision Listener.
Proof. solve_decision. Defined.

(** Timer callbacks. *)
Inductive Task :=
  | TRestoreTransform (el : nat)       (** line 125 *)
  | TToastSlideOut (toast : nat)       (** line 153 *)
  | TToastRemove (toast : nat)         (** line 154 *)
  | TInstallDone (el : nat) (title : string)   (** lines 249-253 *)
  | TGeometryLater.                   (** [later] of the overlay listener, lines 9-12 *)

#[export] Instance Task_eq_dec : EqDecision Task.
Proof. solve_decision. Defined.

Inductive ToastPhase := SlidingIn | SlidingOut.

Record Toast := mkToast {
  toast_id : nat;
  toast_text : string;
  toast_top : string;
  toast_phase : ToastPhase
}.

Record App := mkApp {
  a_doc : Document;
  a_listeners : list (nat * Listener);  (** element, listener; registration order *)
  a_cart : nat;                         (** [cartCount] *)
  a_toasts : list Toast;                (** notification divs in the body *)
  a_next_toast : nat;
  a_timers : Timers Task;
  a_wco_visible : bool;                 (** [navigator.windowControlsOverlay?.visible] *)
  a_wco_timeout : option nat;           (** [timeout] of the overlay listener's [debounce] *)
  a_deferred : option nat;              (** [deferredPrompt]: the saved event *)
  a_next_prompt : nat;
  a_install_buttons : list nat;         (** custom install buttons in the body, by event *)
  a_awaiting : list (nat * nat);        (** install clicks awaiting [userChoice]: button, event *)
  a_prompted : list nat;                (** events whose [prompt()] was called *)
  a_errors : list string                (** uncaught exceptions and rejections *)
}.

Definition set_doc (d : Document) (s : App) : App :=
  mkApp d (a_listeners s) (a_cart s) (a_toasts s) (a_next_toast s) (a_timers s)
        (a_wco_visible s) (a_wco_timeout s) (a_deferred s) (a_next_prompt s) (a_install_buttons s)
        (a_awaiting s) (a_prompted s) (a_errors s).
Definition set_cart (n : nat) (s : App) : App :=
  mkApp (a_doc s) (a_listeners s) n (a_toasts s) (a_next_toast s) (a_timers s)
        (a_wco_visible s) (a_wco_timeout s) (a_deferred s) (a_next_prompt s) (a_install_buttons s)
        (a_awaiting s) (a_prompted s) (a_errors s).
Definition set_toasts (ts : list Toast) (next : nat) (s : App) : App :=
  mkApp (a_doc s) (a_listeners s) (a_cart s) ts next (a_timers s)
        (a_wco_visible s) (a_wco_timeout s) (a_deferred s) (a_next_prompt s) (a_install_buttons s)
        (a_awaiting s) (a_prompted s) (a_errors s).
Definition set_timers (tm : Timers Task) (s : App) : App :=
  mkApp (a_doc s) (a_listeners s) (a_cart s) (a_toasts s) (a_next_toast s) tm
        (a_wco_visible s) (a_wco_timeout s) (a_deferred s) (a_next_prompt s) (a_install_buttons s)
        (a_awaiting s) (a_prompted s) (a_errors s).
Definition set_prompt (deferred : option nat) (next : nat) (buttons : list nat)
    (awaiting : list (nat * nat)) (prompted : list nat) (s : App) : App :=
  mkApp (a_doc s) (a_listeners s) (a_cart s) (a_toasts s) (a_next_toast s) (a_timers s)
        (a_wco_visible s) (a_wco_timeout s) deferred next buttons awaiting prompted (a_errors s).
Definition throw (e : string) (s : App) : App :=
  mkApp (a_doc s) (a_listeners s) (a_cart s) (a_toasts s) (a_next_toast s) (a_timers s)
        (a_wco_visible s) (a_wco_timeout s) (a_deferred s) (a_next_prompt s) (a_install_buttons s)
        (a_awaiting s) (a_prompted s) (e :: a_errors s).
Definition set_wco (visible : bool) (timeout : option nat) (s : App) : App :=
  mkApp (a_doc s) (a_listeners s) (a_cart s) (a_toasts s) (a_next_toast s) (a_timers s)
        visible timeout (a_deferred s) (a_next_prompt s) (a_install_buttons s)
        (a_awaiting s) (a_prompted s) (a_errors s).

(** [setTimeout] on the page's timers, discarding the id (app.js never
    clears these timers). *)
Definition set_timer (task : Task) (delay : nat) (s : App) : App :=
  set_timers (setTimeout task delay (a_timers s)).2 s.

(** ** showNotification (lines 135-156) *)
Definition toast_top_of (wco_visible : bool) : string :=
  if wco_visible then "calc(env(titlebar-area-height, 50px) + 20px)" else "20px".

Definition showNotification (message : string) (s : App) : App :=
  let id := a_next_toast s in
  let s1 := set_toasts (a_toasts s ++ [mkToast id message (toast_top_of (a_wco_visible s)) SlidingIn])
                       (S id) s in
  set_timer (TToastSlideOut id) 3000 s1.

(** The 3000 ms callback switches the animation and sets the 300 ms one;
    that one removes the div. *)
Definition slide_out (id : nat) (ts : list Toast) : list Toast :=
  map (fun t => if toast_id t =? id
                then mkToast (toast_id t) (toast_text t) (toast_top t) SlidingOut else t) ts.

(** The element updates of the listeners and timers. *)
Definition restore_transform (e : Elem) : Elem := set_transform "scale(1)" e.

Definition mark_installed (e : Elem) : Elem :=
  set_classes (fun l => class_add "btn-primary" (class_remove "btn-secondary" l))
              (set_disabled false (set_text "Jugar" e)).

Definition mark_installing (e : Elem) : Elem := set_disabled true (set_text "Instalando..." e).

(** A click on a checkbox flips [checked] before [change] fires. *)
Definition toggle_checked (e : Elem) : Elem := set_checked (negb (el_checked e)) e.

Definition run_task (task : Task) (s : App) : App :=
  match task with
  | TRestoreTransform el => set_doc (alter restore_transform el (a_doc s)) s
  | TToastSlideOut id =>
      set_timer (TToastRemove id) 300 (set_toasts (slide_out id (a_toasts s)) (a_next_toast s) s)
  | TToastRemove id =>
      set_toasts (filter (fun t => toast_id t <> id) (a_toasts s)) (a_next_toast s) s
  | TInstallDone el title =>
      let doc := alter mark_installed el (a_doc s) in
      showNotification (title +:+ " instalado correctamente") (set_doc doc s)
  | TGeometryLater => set_timers (clearTimeout (a_wco_timeout s) (a_timers s)) s
  end.

(** The page's event loop runs the earliest due timer: the clock moves to
    its due time. *)
Definition tick (s : App) : option App :=
  match pop_due None (a_timers s) with
  | Some (t, tm) => Some (run_task (t_task t) (set_timers tm s))
  | None => None
  end.

(** ** The listeners *)

(** [String(cartCount)]. *)
Definition number_text (n : nat) : string := NilEmpty.string_of_uint (Nat.to_uint n).

(** [updateCartCount] (lines 104-109). *)
Definition updateCartCount (s : App) : App :=
  set_doc (update_all (querySelectorAll CART_COUNT (a_doc s)) (set_text (number_text (a_cart s))) (a_doc s)) s.

Definition ADD_TEXT : string := "Añadir al Carrito".
Definition ADDED_TEXT : string := "✓ Agregado".

Definition mark_added (e : Elem) : Elem :=
  set_transform "scale(0.95)" (set_background "#10b981" (set_text ADDED_TEXT e)).

(** The navigation link listener (lines 75-94): [getAttribute] returns
    [null] for a link without [data-page], which the template turns into
    ["null"]; [getElementById] returning [null] throws a TypeError after
    the links and pages have been updated. *)
Definition on_nav_click (pages : list nat) (link : nat) (s : App) : App :=
  let doc0 := a_doc s in
  let doc1 := update_all (querySelectorAll NAV_LINKS doc0) (set_classes (class_remove "active")) doc0 in
  let pageId := default "null" (doc0 !! link ≫= el_data_page) in
  let doc2 := update_all (querySelectorAll (data_page_sel pageId) doc1) (set_classes (class_add "active")) doc1 in
  let doc3 := update_all pages (set_classes (class_remove "active")) doc2 in
  match getElementById (pageId +:+ "-page") doc3 with
  | Some p => set_doc (update_all [p] (set_classes (class_add "active")) doc3) s
  | None => throw "TypeError" (set_doc doc3 s)
  end.

(** The add-to-cart listener (lines 113-131). *)
Definition on_cart_click (btn : nat) (s : App) : App :=
  match a_doc s !! btn with
  | Some e =>
      if String.eqb (el_text e) ADD_TEXT then
        let s1 := updateCartCount (set_cart (S (a_cart s)) s) in
        let s2 := set_doc (alter mark_added btn (a_doc s1)) s1 in
        showNotification "Juego agregado al carrito" (set_timer (TRestoreTransform btn) 100 s2)
      else s
  | None => s
  end.

(** The search listener (lines 160-165); [answer] is what [prompt]
    returns, [None] for [null]. *)
Definition on_search_click (answer : option string) (s : App) : App :=
  match answer with
  | Some t => if String.eqb t "" then s else showNotification ("Buscando: " +:+ t) s
  | None => s
  end.

(** Exclusive selection within a group of buttons, shared by the filter
    (lines 171-175) and tab (lines 181-185) listeners. *)
Definition select_exclusive (group : list nat) (btn : nat) (doc : Document) : Document :=
  update_all [btn] (set_classes (class_add "active"))
             (update_all group (set_classes (class_remove "active")) doc).

Definition elem_text (doc : Document) (i : nat) : string :=
  default "" (el_text <$> doc !! i).

Definition on_filter_click (group : list nat) (btn : nat) (s : App) : App :=
  let s1 := set_doc (select_exclusive group btn (a_doc s)) s in
  showNotification ("Filtro aplicado: " +:+ elem_text (a_doc s1) btn) s1.

Definition on_tab_click (group : list nat) (btn : nat) (s : App) : App :=
  let s1 := set_doc (select_exclusive group btn (a_doc s)) s in
  showNotification ("Mostrando: " +:+ elem_text (a_doc s1) btn) s1.

(** The profile form's submit listener (lines 191-194). *)
Definition on_profile_submit (s : App) : App :=
  showNotification "Perfil actualizado con éxito" s.

(** The settings switch's change listener (lines 200-204); the browser
    has already flipped [checked]. *)
Definition on_switch_change (input : nat) (s : App) : App :=
  match a_doc s !! input with
  | Some e =>
      match el_grandparent_span e with
      | Some setting =>
          showNotification (setting +:+ " " +:+ (if el_checked e then "activado" else "desactivado")) s
      | None => throw "TypeError" s
      end
  | None => s
  end.

(** The library's play/install listener (lines 236-256): the title is
    read before the action is tested, so a card without [h3] throws on
    every click. *)
Definition on_library_click (btn : nat) (s : App) : App :=
  match a_doc s !! btn with
  | Some e =>
      let action := trim (el_text e) in
      match el_parent_h3 e with
      | None => throw "TypeError" s
      | Some gameTitle =>
          if String.eqb action "Jugar" then showNotification ("Iniciando " +:+ gameTitle +:+ "...") s
          else if String.eqb action "Instalar" then
            let s1 := showNotification ("Instalando " +:+ gameTitle +:+ "...") s in
            let s2 := set_doc (alter mark_installing btn (a_doc s1)) s1 in
            set_timer (TInstallDone btn gameTitle) 3000 s2
          else s
      end
  | None => s
  end.

(** The news listener (lines 275-278). *)
Definition on_news_click (btn : nat) (s : App) : App :=
  match a_doc s !! btn ≫= el_parent_h3 with
  | Some newsTitle => showNotification ("Abriendo: " +:+ newsTitle) s
  | None => throw "TypeError" s
  end.

Inductive EvKind := KClick | KSubmit | KChange.

#[export] Instance EvKind_eq_dec : EqDecision EvKind.
Proof. solve_decision. Defined.

Definition listener_kind (l : Listener) : EvKind :=
  match l with
  | LProfileSubmit => KSubmit
  | LSwitch => KChange
  | _ => KClick
  end.

Definition run_listener (l : Listener) (el : nat) (answer : option string) (s : App) : App :=
  match l with
  | LNav pages => on_nav_click pages el s
  | LCart => on_cart_click el s
  | LSearch => on_search_click answer s
  | LFilter group => on_filter_click group el s
  | LTab group => on_tab_click group el s
  | LProfileSubmit => on_profile_submit s
  | LSwitch => on_switch_change el s
  | LLibrary => on_library_click el s
  | LTrailer => showNotification "Abriendo tráiler..." s
  | LBuy => showNotification "Procesando compra..." s
  | LNews => on_news_click el s
  end.

(** An event of kind [k] at element [el] runs its listeners of that kind
    in registration order; an exception in one does not stop the next. *)
Definition dispatch (k : EvKind) (el : nat) (answer : option string) (s : App) : App :=
  foldl (fun s' il => if (il.1 =? el) && bool_decide (listener_kind il.2 = k)
                      then run_listener il.2 el answer s' else s')
        s (a_listeners s).

(** ** Installation prompt (lines 282-320) *)

(** [beforeinstallprompt]: the event [p] becomes [deferredPrompt] and a
    new install button, identified by [p], is appended to the body. *)
Definition on_beforeinstallprompt (s : App) : App :=
  let p := a_next_prompt s in
  set_prompt (Some p) (S p) (a_install_buttons s ++ [p]) (a_awaiting s) (a_prompted s) s.

(** The install button's click listener up to its [await]: [prompt()]
    on an event already prompted returns a rejected promise nobody
    handles; the listener then awaits the [userChoice] of the event
    [deferredPrompt] holds at that moment. *)
Definition on_install_click (b : nat) (s : App) : App :=
  match a_deferred s with
  | None => s
  | Some p =>
      let s1 := set_prompt (Some p) (a_next_prompt s) (a_install_buttons s)
                           (a_awaiting s ++ [(b, p)]) (a_prompted s ++ [p]) s in
      if bool_decide (p ∈ a_prompted s) then throw "InvalidStateError" s1 else s1
  end.

Inductive Outcome := Accepted | Dismissed.

(** The rest of that listener, once [userChoice] resolves: it clears
    [deferredPrompt], whatever it holds by then, and removes its own button. *)
Definition resume_install_click (o : Outcome) (b : nat) (s : App) : App :=
  let s1 := match o with Accepted => showNotification "¡App instalada con éxito!" s | Dismissed => s end in
  set_prompt None (a_next_prompt s1) (filter (fun b' => b' <> b) (a_install_buttons s1))
             (a_awaiting s1) (a_prompted s1) s1.

(** The user answers the prompt of event [p]: every click awaiting it
    resumes, in the order they awaited. *)
Definition on_user_choice (p : nat) (o : Outcome) (s : App) : App :=
  let waiting := filter (fun bp => bp.2 = p) (a_awaiting s) in
  let s1 := set_prompt (a_deferred s) (a_next_prompt s) (a_install_buttons s)
                       (filter (fun bp => bp.2 <> p) (a_awaiting s)) (a_prompted s) s in
  foldl (fun s' bp => resume_install_click o bp.1 s') s1 waiting.

(** [appinstalled] (lines 317-320): the install buttons stay. *)
Definition on_appinstalled (s : App) : App :=
  let s1 := showNotification "¡GameHub instalada correctamente!" s in
  set_prompt None (a_next_prompt s1) (a_install_buttons s1) (a_awaiting s1) (a_prompted s1) s1.

(** ** The overlay listener on the page's event loop (lines 6-16, 23-40)

    A [geometrychange] runs [executedFunction] of [debounce(handler,
    200)]: it clears the timer [timeout] names and sets [later] 200 ms on,
    on the same timers as the toasts and buttons.  [later] clears
    [timeout] again and runs [handler], which only writes to the console
    (Overlay.v). *)
Definition on_geometrychange (s : App) : App :=
  let tm1 := clearTimeout (a_wco_timeout s) (a_timers s) in
  let st := setTimeout TGeometryLater Debounce.WCO_WAIT tm1 in
  set_wco (a_wco_visible s) (Some st.1) (set_timers st.2 s).

(** ** Loading the script (lines 19-279) *)

Definition listen (l : Listener) (els : list nat) : list (nat * Listener) :=
  (fun i => (i, l)) <$> els.

(** The listeners of lines 74-279, in the order the script adds them. *)
Definition setup (doc : Document) : list (nat * Listener) :=
  let pages := querySelectorAll PAGES doc in
  let filterButtons := querySelectorAll FILTER_BTN doc in
  let tabButtons := querySelectorAll TAB_BTN doc in
  listen (LNav pages) (querySelectorAll NAV_LINKS doc) ++
  listen LCart (querySelectorAll BTN_SMALL doc) ++
  listen LSearch (querySelectorAll SEARCH_BTN doc) ++
  listen (LFilter filterButtons) filterButtons ++
  listen (LTab tabButtons) tabButtons ++
  listen LProfileSubmit (option_list (querySelector PROFILE_FORM doc)) ++
  listen LSwitch (querySelectorAll SWITCH_INPUT doc) ++
  listen LLibrary (querySelectorAll LIBRARY_BTN doc) ++
  listen LTrailer (option_list (querySelector BTN_SECONDARY doc)) ++
  listen LBuy (filter (fun i => includes (elem_text doc i) "Comprar" = true)
                      (querySelectorAll BTN_PRIMARY doc)) ++
  listen LNews (querySelectorAll NEWS_BTN doc).

(** The page after the script ran at time [now]: the initial Window
    Controls Overlay notification (lines 43-46) comes first. *)
Definition app_load (doc : Document) (wco_visible : bool) (now : nat) : App :=
  let s0 := mkApp doc (setup doc) 0 [] 0 (timers_init now) wco_visible None None 0 [] [] [] [] in
  if wco_visible then showNotification "Modo ventana personalizada activado" s0 else s0.

(** ** Events *)
Inductive AppEvent :=
  | Click (el : nat) (answer : option string)
  | Toggle (el : nat)
  | Submit (el : nat)
  | BeforeInstallPrompt
  | ClickInstall (b : nat)
  | UserChoice (p : nat) (o : Outcome)
  | AppInstalled
  | Online
  | Offline
  | GeometryChange (visible : bool)
  | Tick.

(** One event; [None] when it cannot happen (a disabled or missing
    element, an absent install button, no click awaiting that prompt, no
    pending timer). *)
Definition app_step (ev : AppEvent) (s : App) : option App :=
  match ev with
  | Click el answer =>
      match a_doc s !! el with
      | Some e => if el_disabled e then None else Some (dispatch KClick el answer s)
      | None => None
      end
  | Toggle el =>
      match a_doc s !! el with
      | Some e =>
          if el_disabled e then None
          else Some (dispatch KChange el None
                       (set_doc (alter toggle_checked el (a_doc s)) s))
      | None => None
      end
  | Submit el => match a_doc s !! el with Some _ => Some (dispatch KSubmit el None s) | None => None end
  | BeforeInstallPrompt => Some (on_beforeinstallprompt s)
  | ClickInstall b => if bool_decide (b ∈ a_install_buttons s) then Some (on_install_click b s) else None
  | UserChoice p o => if bool_decide (p ∈ (a_awaiting s).*2) then Some (on_user_choice p o s) else None
  | AppInstalled => Some (on_appinstalled s)
  | Online => Some (showNotification "Conexión restaurada" s)
  | Offline => Some (showNotification "Modo offline activado" s)
  | GeometryChange v => Some (on_geometrychange (set_wco v (a_wco_timeout s) s))
  | Tick => tick s
  end.

(** [s ~{ ev }~> s']: the event [ev] can happen in [s] and leads to [s']. *)
Notation "s ~{ ev }~> s'" := (app_step ev s = Some s') (at level 70, ev at level 200, no associativity) : pwa_scope.
Local Open Scope pwa_scope.

Definition app_steps (s s' : App) : Prop := exists ev, s ~{ ev }~> s'.

Definition app_reachable (doc : Document) (wco : bool) (now : nat) (s : App) : Prop :=
  rtc app_steps (app_load doc wco now) s.

(** Whether element [i] carries the class [active]. *)
Definition active (doc : Document) (i : nat) : bool :=
  match doc !! i with Some e => has_class "active" e | None => false end.

(** The listed elements whose text is still [ADD_TEXT]. *)
Definition unadded (L : list nat) (doc : Document) : nat :=
  length (filter (fun i => elem_text doc i = ADD_TEXT) L).

(** No element's text becomes [ADD_TEXT]. *)
Definition no_new_add (d d' : Document) : Prop :=
  forall i, elem_text d' i = ADD_TEXT -> elem_text d i = ADD_TEXT.

Definition text_safe (f : Elem -> Elem) : Prop :=
  forall e, el_text (f e) = ADD_TEXT -> el_text e = ADD_TEXT.

Definition cart_measure (L : list nat) (s : App) : nat := a_cart s + unadded L (a_doc s).

(** A step that leaves [cartCount] and the listeners alone and gives no
    element the text [ADD_TEXT]. *)
Definition quiet (s s' : App) : Prop :=
  a_cart s' = a_cart s /\ no_new_add (a_doc s) (a_doc s') /\ a_listeners s' = a_listeners s.

(** The timer that advances a toast: its slide-out, then its removal. *)
Definition toast_task (t : Toast) : Task :=
  match toast_phase t with
  | SlidingIn => TToastSlideOut (toast_id t)
  | SlidingOut => TToastRemove (toast_id t)
  end.

(** The overlay listener's closure on the page's timers: [timeout]
    names an id already given out, and a pending timer is the listener's
    [later] exactly when [timeout] names it. *)
Definition wco_timer_ok (s : App) : Prop :=
  (forall i, a_wco_timeout s = Some i -> i < tm_next (a_timers s)) /\
  forall t, t ∈ tm_pending (a_timers s) -> t_task t = TGeometryLater <-> a_wco_timeout s = Some (t_id t).

(** Timer ids are fresh, the overlay's [timeout] names only its own
    timer, and every toast on the page has its next timer pending. *)
Definition toasts_scheduled (s : App) : Prop :=
  timers_wf (a_timers s) /\ wco_timer_ok s /\
  Forall (fun t => exists tm, tm ∈ tm_pending (a_timers s) /\ t_task tm = toast_task t) (a_toasts s).

Definition task_weight (t : Task) : nat :=
  match t with
  | TRestoreTransform _ => 1
  | TToastSlideOut _ => 2
  | TToastRemove _ => 1
  | TInstallDone _ _ => 3
  | TGeometryLater => 1
  end.

Definition timers_weight (s : App) : nat :=
  sum_list ((fun tm => task_weight (t_task tm)) <$> tm_pending (a_timers s)).

(** The page left alone: its event loop runs timers until none is left. *)
Fixpoint drain_ticks (fuel : nat) (s : App) : App :=
  match fuel with
  | 0 => s
  | S n => match tick s with Some s' => drain_ticks n s' | None => s end
  end.

(** ** A page to run the listeners on

    A navigation bar with two links, their two pages, the cart counter,
    an add-to-cart button, a library card whose install button is the
    document's first [.btn-secondary], two filter buttons, a news button
    and a buy button. *)
Definition nav_anc : list (string * list string) := [("ul", ["nav-menu"]); ("nav", ["navbar"]); ("body", [])].

Definition demo_elem (tg : string) (i : option string) (cl : list string) (tx : string) (dp : option string)
    (anc : list (string * list string)) (h3 : option string) : Elem :=
  mkElem tg i cl tx dp false false None None anc h3 None.

Definition demo_page : Document := [
  demo_elem "a" None ["active"] "Inicio" (Some "home") nav_anc None;
  demo_elem "a" None [] "Biblioteca" (Some "library") nav_anc None;
  demo_elem "div" (Some "home-page") ["page"; "active"] "" None [("main", [])] None;
  demo_elem "div" (Some "library-page") ["page"] "" None [("main", [])] None;
  demo_elem "span" None ["cart-count"] "0" None nav_anc None;
  demo_elem "button" None ["btn-small"] "Añadir al Carrito" None [("div", ["game-card"])] (Some "Cyber Quest");
  demo_elem "button" None ["btn"; "btn-secondary"] " Instalar " None [("div", ["library-card"])] (Some "Space Run");
  demo_elem "button" None ["filter-btn"; "active"] "Todos" None [] None;
  demo_elem "button" None ["filter-btn"] "Instalados" None [] None;
  demo_elem "button" None ["btn-small"] "Leer más" None [("div", ["news-card"])] (Some "Parche 1.2");
  demo_elem "button" None ["btn-primary"] "Comprar Ahora" None [] None].

Definition demo_app : App := app_load demo_page false 0.

(** A link to a page the document lacks. *)
Definition broken_page : Document :=
  demo_page ++ [demo_elem "a" None [] "Comunidad" (Some "community") nav_anc None].

(** A sequence of events from a state. *)
Definition run_events (evs : list AppEvent) (s : App) : option App :=
  foldl (fun o ev => o ≫= app_step ev) (Some s) evs.

Definition demo_events : list AppEvent :=
  [Click 1 None; Click 5 None; Click 6 None; Click 8 None; BeforeInstallPrompt; Tick; Click 5 None].

Definition demo_state : App := default demo_app (run_events demo_events demo_app).

(** The overlay shows, then the window is resized twice within 200 ms:
    one handler run is pending. *)
Definition demo_resized : App :=
  default demo_app (run_events [GeometryChange true; Tick; GeometryChange true; GeometryChange true] demo_app).

(** ** Lemmas *)

Lemma run_events_None evs : foldl (fun o ev => o ≫= app_step ev) None evs = None.
Proof. by induction evs. Qed.

Lemma run_events_reachable evs s s' : run_events evs s = Some s' -> rtc app_steps s s'.
Proof.
  unfold run_events. revert s. induction evs as [|ev evs IH]; intros s; simpl; [intros [= ->]; done|].
  destruct (app_step ev s) as [s1|] eqn:Hs; simpl; [|by rewrite run_events_None].
  intros Hr. eapply rtc_l; [by exists ev|]. by apply IH.
Qed.

Lemma demo_state_reachable : app_reachable demo_page false 0 demo_state.
Proof. apply (run_events_reachable demo_events). vm_compute. reflexivity. Qed.

Section NavLemmas.
Implicit Types (doc : Document) (s : App).

Lemma add_active_idem e :
  set_classes (class_add "active") (set_classes (class_add "active") e) = set_classes (class_add "active") e.
Proof. apply set_classes_idem, class_add_idem. Qed.

Lemma remove_active_idem e :
  set_classes (class_remove "active") (set_classes (class_remove "active") e) =
  set_classes (class_remove "active") e.
Proof. apply set_classes_idem, class_remove_idem. Qed.

Lemma active_add ids doc i :
  active (update_all ids (set_classes (class_add "active")) doc) i =
  if bool_decide (i ∈ ids) then bool_decide (is_Some (doc !! i)) else active doc i.
Proof.
  unfold active. rewrite update_all_lookup by apply add_active_idem.
  case_bool_decide; [|done]. destruct (doc !! i); simpl; [by rewrite has_class_add|done].
Qed.

Lemma active_remove ids doc i :
  active (update_all ids (set_classes (class_remove "active")) doc) i =
  if bool_decide (i ∈ ids) then false else active doc i.
Proof.
  unfold active. rewrite update_all_lookup by apply remove_active_idem.
  case_bool_decide; [|done]. destruct (doc !! i); simpl; [by rewrite has_class_remove|done].
Qed.

Lemma matches_data_page_sel v e : matches (data_page_sel v) e = bool_decide (el_data_page e = Some v).
Proof. unfold matches, chain_matches, compound_matches. simpl. by destruct (bool_decide _), (el_ancestors e). Qed.

Lemma update_all_classes_ids ids f doc : el_id <$> update_all ids (set_classes f) doc = el_id <$> doc.
Proof. by apply update_all_fmap. Qed.

Lemma data_page_query_classes v ids f doc :
  querySelectorAll (data_page_sel v) (update_all ids (set_classes f) doc) = querySelectorAll (data_page_sel v) doc.
Proof.
  apply find_from_ext, update_all_fmap. intros e. by rewrite !matches_data_page_sel.
Qed.

Lemma elem_of_data_page_query v doc i :
  i ∈ querySelectorAll (data_page_sel v) doc <-> el_data_page <$> doc !! i = Some (Some v).
Proof.
  rewrite elem_of_querySelectorAll. setoid_rewrite matches_data_page_sel.
  destruct (doc !! i) as [e|]; simpl; [|naive_solver]. split.
  - intros (e' & [= <-] & ?%bool_decide_eq_true). by f_equal.
  - intros [= ?]. exists e. by rewrite bool_decide_eq_true_2.
Qed.

(** The navigation listener up to its last line: the page it looks up
    is the one it would look up on the document it was given. *)
Lemma on_nav_click_lookup pages link s :
  let pid := default "null" (a_doc s !! link ≫= el_data_page) in
  let doc3 := update_all pages (set_classes (class_remove "active"))
                (update_all (querySelectorAll (data_page_sel pid) (a_doc s)) (set_classes (class_add "active"))
                   (update_all (querySelectorAll NAV_LINKS (a_doc s)) (set_classes (class_remove "active")) (a_doc s))) in
  on_nav_click pages link s =
  match getElementById (pid +:+ "-page") (a_doc s) with
  | Some p => set_doc (update_all [p] (set_classes (class_add "active")) doc3) s
  | None => throw "TypeError" (set_doc doc3 s)
  end.
Proof.
  intros pid doc3. unfold on_nav_click. fold pid. rewrite data_page_query_classes.
  fold doc3. rewrite (getElementById_ext _ doc3 (a_doc s)); [done|].
  unfold doc3. by rewrite !update_all_classes_ids.
Qed.

End NavLemmas.

(** ** Navigation *)

(** C17: a click on a navigation link whose page exists shows that page
    and hides every other page, marks as active exactly the navigation
    links with the same [data-page], and throws nothing. *)
Theorem nav_click_shows_page pages link s p :
  let pid := default "null" (a_doc s !! link ≫= el_data_page) in
  getElementById (pid +:+ "-page") (a_doc s) = Some p ->
  let s' := on_nav_click pages link s in
  a_errors s' = a_errors s /\
  active (a_doc s') p = true /\
  (forall i, i ∈ pages -> i <> p -> active (a_doc s') i = false) /\
  (forall i, i ∈ querySelectorAll NAV_LINKS (a_doc s) -> i ∉ pages -> i <> p ->
     active (a_doc s') i = bool_decide (el_data_page <$> a_doc s !! i = Some (Some pid))).
Proof.
  intros pid Hp s'. subst s'. rewrite on_nav_click_lookup. fold pid. rewrite Hp. cbn [a_doc a_errors set_doc throw].
  apply getElementById_Some in Hp as (e & He & _).
  split_and!; [done| | |]; [|intros i Hi Hne|intros i Hi Hnp Hne]; repeat (rewrite active_add || rewrite active_remove).
  - rewrite bool_decide_eq_true_2 by set_solver.
    apply bool_decide_eq_true, lookup_lt_is_Some. rewrite !update_all_length. by eapply lookup_lt_Some.
  - rewrite bool_decide_eq_false_2 by set_solver. by rewrite bool_decide_eq_true_2.
  - rewrite bool_decide_eq_false_2 by set_solver. rewrite (bool_decide_eq_false_2 (i ∈ pages)) by done.
    rewrite (bool_decide_eq_true_2 (i ∈ querySelectorAll NAV_LINKS _)) by done.
    apply elem_of_querySelectorAll in Hi as (ei & Hei & _).
    rewrite (bool_decide_eq_true_2 (is_Some _)).
    + transitivity (bool_decide (i ∈ querySelectorAll (data_page_sel pid) (a_doc s)));
        [by destruct (bool_decide _)|apply bool_decide_ext, elem_of_data_page_query].
    + apply lookup_lt_is_Some. rewrite update_all_length. by eapply lookup_lt_Some.
Qed.

(** C18: a navigation link whose page is missing from the document
    throws a TypeError after having hidden every page: the page shows
    no content. *)
Theorem nav_click_missing_page pages link s :
  let pid := default "null" (a_doc s !! link ≫= el_data_page) in
  getElementById (pid +:+ "-page") (a_doc s) = None ->
  let s' := on_nav_click pages link s in
  a_errors s' = "TypeError" :: a_errors s /\
  (forall i, i ∈ pages -> active (a_doc s') i = false).
Proof.
  intros pid Hp s'. subst s'. rewrite on_nav_click_lookup. fold pid. rewrite Hp. cbn [a_doc a_errors set_doc throw].
  split; [done|]. intros i Hi. rewrite active_remove. by rewrite bool_decide_eq_true_2.
Qed.

(** ** The cart counter *)

Section CartLemmas.
Implicit Types (doc : Document) (s : App) (L : list nat).

#[export] Instance no_new_add_preorder : PreOrder no_new_add.
Proof. split; [by intros d i|intros d1 d2 d3 H12 H23 i Hi; auto]. Qed.

#[export] Instance quiet_preorder : PreOrder quiet.
Proof.
  split; [intros s; split_and!; [done|reflexivity|done]|].
  intros s1 s2 s3 (? & ? & ?) (? & ? & ?). split_and!; [congruence|etrans; eauto|congruence].
Qed.

Lemma alter_no_new_add f i doc : text_safe f -> no_new_add doc (alter f i doc).
Proof.
  intros Hf j. unfold elem_text. rewrite list_lookup_alter.
  case_decide; [subst|done]. destruct (doc !! j); simpl; [apply Hf|done].
Qed.

Lemma update_all_no_new_add ids f doc : text_safe f -> no_new_add doc (update_all ids f doc).
Proof.
  intros Hf. unfold update_all. apply (foldl_invariant (no_new_add doc)); [reflexivity|].
  intros j d _ Hd. etrans; [apply Hd|]. by apply alter_no_new_add.
Qed.

Lemma text_safe_keep f : (forall e, el_text (f e) = el_text e) -> text_safe f.
Proof. intros Hf e. by rewrite Hf. Qed.

Lemma text_safe_set_text t : t <> ADD_TEXT -> text_safe (set_text t).
Proof. intros Ht e He. by destruct Ht. Qed.

Lemma number_text_not_add n : number_text n <> ADD_TEXT.
Proof. unfold number_text. by destruct (Nat.to_uint n). Qed.

Lemma unadded_mono L d d' : no_new_add d d' -> unadded L d' <= unadded L d.
Proof. intros H. apply filter_length_mono. intros i _. apply H. Qed.

Lemma unadded_lt L d d' i :
  no_new_add d d' -> i ∈ L -> elem_text d i = ADD_TEXT -> elem_text d' i <> ADD_TEXT ->
  unadded L d' < unadded L d.
Proof. intros H Hi Hd Hd'. eapply filter_length_lt; [intros j _; apply H|done..]. Qed.

Lemma quiet_measure L s s' : quiet s s' -> cart_measure L s' <= cart_measure L s.
Proof. intros (Hc & Hd & _). unfold cart_measure. rewrite Hc. apply (unadded_mono L) in Hd. lia. Qed.

Lemma quiet_step L s s' : quiet s s' -> cart_measure L s' <= cart_measure L s /\ a_listeners s' = a_listeners s.
Proof. intros Hq. split; [by apply quiet_measure|apply Hq]. Qed.

Lemma quiet_doc s s' :
  a_cart s' = a_cart s -> a_doc s' = a_doc s -> a_listeners s' = a_listeners s -> quiet s s'.
Proof. intros ? Hd ?. split_and!; [done| |done]. rewrite Hd. reflexivity. Qed.

Lemma quiet_set_doc d s : no_new_add (a_doc s) d -> quiet s (set_doc d s).
Proof. done. Qed.

Lemma quiet_showNotification m s : quiet s (showNotification m s).
Proof. by apply quiet_doc. Qed.

Lemma quiet_throw e s : quiet s (throw e s).
Proof. by apply quiet_doc. Qed.

Lemma quiet_set_timer t d s : quiet s (set_timer t d s).
Proof. by apply quiet_doc. Qed.

Lemma quiet_set_prompt d n b a p s : quiet s (set_prompt d n b a p s).
Proof. by apply quiet_doc. Qed.

End CartLemmas.

Create HintDb cart discriminated.
#[export] Hint Resolve quiet_showNotification quiet_throw quiet_set_timer quiet_set_prompt
  quiet_set_doc alter_no_new_add update_all_no_new_add text_safe_set_text number_text_not_add : cart.
#[export] Hint Extern 1 (quiet _ _) => reflexivity : cart.
#[export] Hint Extern 2 (text_safe _) => (apply text_safe_keep; intros ?; reflexivity) : cart.
#[export] Hint Extern 2 (_ <> ADD_TEXT) => (unfold ADD_TEXT; discriminate) : cart.

Ltac text_safe_tac :=
  let e := fresh "e" in let H := fresh "H" in
  first [ apply text_safe_set_text, number_text_not_add
        | intros e H; cbn in H;
          first [ exact H | cbv [ADD_TEXT ADDED_TEXT] in H; discriminate H ] ].

Ltac nna :=
  lazymatch goal with
  | |- no_new_add _ (update_all _ _ ?d) =>
      transitivity d; [nna|apply update_all_no_new_add; text_safe_tac]
  | |- no_new_add _ (alter _ _ ?d) =>
      transitivity d; [nna|apply alter_no_new_add; text_safe_tac]
  | |- no_new_add _ _ => cbn; reflexivity
  end.

Ltac quiet_tac :=
  lazymatch goal with
  | |- quiet _ (showNotification _ ?x) => transitivity x; [quiet_tac|apply quiet_showNotification]
  | |- quiet _ (set_timer _ _ ?x) => transitivity x; [quiet_tac|apply quiet_set_timer]
  | |- quiet _ (throw _ ?x) => transitivity x; [quiet_tac|apply quiet_throw]
  | |- quiet _ (set_prompt _ _ _ _ _ ?x) => transitivity x; [quiet_tac|apply quiet_set_prompt]
  | |- quiet _ (set_toasts _ _ ?x) => transitivity x; [quiet_tac|by apply quiet_doc]
  | |- quiet _ (set_timers _ ?x) => transitivity x; [quiet_tac|by apply quiet_doc]
  | |- quiet _ (set_wco _ _ ?x) => transitivity x; [quiet_tac|by apply quiet_doc]
  | |- quiet _ (set_doc _ ?x) => transitivity x; [quiet_tac|apply quiet_set_doc; nna]
  | |- quiet _ _ => reflexivity
  end.

(** The case analysis on the listener an event runs, with [tac] on
    each listener's body. *)
Ltac listener_cases l tac :=
  destruct l; cbn [run_listener];
  [ unfold on_nav_click; cbv zeta; case_match; tac
  | unfold on_cart_click; repeat case_match; tac
  | unfold on_search_click; repeat case_match; tac
  | unfold on_filter_click, select_exclusive; tac
  | unfold on_tab_click, select_exclusive; tac
  | unfold on_profile_submit; tac
  | unfold on_switch_change; repeat case_match; tac
  | unfold on_library_click; repeat case_match; tac
  | tac
  | tac
  | unfold on_news_click; repeat case_match; tac ].

Section CartSteps.
Implicit Types (s : App) (L : list nat).

Lemma run_listener_quiet l el ans s : l <> LCart -> quiet s (run_listener l el ans s).
Proof. intros Hl. listener_cases l ltac:(first [congruence|quiet_tac]). Qed.

Lemma run_task_quiet t s : quiet s (run_task t s).
Proof. destruct t; simpl; quiet_tac. Qed.

End CartSteps.

Section CartInvariant.
Implicit Types (s : App) (L : list nat).

Lemma on_cart_click_measure L el s :
  el ∈ L ->
  cart_measure L (on_cart_click el s) <= cart_measure L s /\ a_listeners (on_cart_click el s) = a_listeners s.
Proof.
  intros Hel. unfold on_cart_click.
  destruct (a_doc s !! el) as [e|] eqn:He; [|done].
  destruct (String.eqb_spec (el_text e) ADD_TEXT) as [Ht|]; [|done]. split; [|done].
  set (d1 := update_all (querySelectorAll CART_COUNT (a_doc s)) (set_text (number_text (S (a_cart s)))) (a_doc s)).
  set (g := mark_added).
  assert (Hnn : no_new_add (a_doc s) (alter g el d1)) by (unfold g, d1; nna).
  assert (Hlt : unadded L (alter g el d1) < unadded L (a_doc s)).
  { apply (unadded_lt _ _ _ el Hnn Hel); [by unfold elem_text; rewrite He|].
    unfold elem_text. rewrite list_lookup_alter, decide_True by done.
    destruct (d1 !! el) eqn:Hd1; [unfold ADDED_TEXT, ADD_TEXT; simpl; discriminate|].
    apply lookup_ge_None in Hd1. apply lookup_lt_Some in He. unfold d1 in Hd1.
    rewrite update_all_length in Hd1. lia. }
  unfold cart_measure. simpl. fold d1 g. lia.
Qed.

(** Every listener an event runs keeps the measure down, provided cart
    listeners sit on elements of [L]. *)
Lemma dispatch_measure L k el ans s :
  (forall i, (i, LCart) ∈ a_listeners s -> i ∈ L) ->
  cart_measure L (dispatch k el ans s) <= cart_measure L s /\ a_listeners (dispatch k el ans s) = a_listeners s.
Proof.
  intros HL. unfold dispatch.
  apply (foldl_invariant (fun s' => cart_measure L s' <= cart_measure L s /\ a_listeners s' = a_listeners s));
    [done|]. intros [i l] s' Hil [Hm Hls].
  destruct (_ && _) eqn:Hk; [|done]. apply andb_true_iff in Hk as [Hi%Nat.eqb_eq _]. simpl in Hi; subst i.
  destruct (decide (l = LCart)) as [->|Hne]; simpl.
  - destruct (on_cart_click_measure L el s') as [Hm' Hls']; [by apply HL|]. split; [lia|congruence].
  - destruct (run_listener_quiet l el ans s' Hne) as (Hc & Hd & Hls').
    pose proof (quiet_measure L s' _ (conj Hc (conj Hd Hls'))). split; [lia|congruence].
Qed.

Lemma app_step_measure L ev s s' :
  (forall i, (i, LCart) ∈ a_listeners s -> i ∈ L) ->
  s ~{ ev }~> s' -> cart_measure L s' <= cart_measure L s /\ a_listeners s' = a_listeners s.
Proof.
  intros HL. destruct ev; simpl.
  - destruct (a_doc s !! el) as [e|]; [|done]. destruct (el_disabled e); [done|].
    intros [= <-]. by apply dispatch_measure.
  - destruct (a_doc s !! el) as [e|]; [|done]. destruct (el_disabled e); [done|].
    intros [= <-]. set (s1 := set_doc _ s).
    assert (Hq : quiet s s1) by (apply quiet_set_doc; nna).
    destruct (dispatch_measure L KChange el None s1) as [Hm Hls]; [done|].
    pose proof (quiet_measure L s s1 Hq). split; [lia|done].
  - destruct (a_doc s !! el); [|done]. intros [= <-]. by apply dispatch_measure.
  - intros [= <-]. apply quiet_step. unfold on_beforeinstallprompt. quiet_tac.
  - case_bool_decide; [|done]. intros [= <-]. apply quiet_step. unfold on_install_click.
    repeat case_match; quiet_tac.
  - case_bool_decide; [|done]. intros [= <-]. apply quiet_step. unfold on_user_choice.
    apply (foldl_invariant (quiet s)); [quiet_tac|].
    intros bp s2 _ Hq. etrans; [apply Hq|]. unfold resume_install_click. case_match; quiet_tac.
  - intros [= <-]. apply quiet_step. unfold on_appinstalled. quiet_tac.
  - intros [= <-]. apply quiet_step. quiet_tac.
  - intros [= <-]. apply quiet_step. quiet_tac.
  - intros [= <-]. apply quiet_step. unfold on_geometrychange. quiet_tac.
  - unfold tick. destruct (pop_due None (a_timers s)) as [[t tm]|]; [|done]. intros [= <-].
    apply quiet_step. etrans; [|apply run_task_quiet]. quiet_tac.
Qed.

Lemma setup_cart doc i : (i, LCart) ∈ setup doc -> i ∈ querySelectorAll BTN_SMALL doc.
Proof.
  unfold setup, listen. intros Hin.
  repeat (apply elem_of_app in Hin as [Hin|Hin]);
    apply list_elem_of_fmap in Hin as (j & Heq & Hj); simplify_eq; done.
Qed.

Lemma app_load_listeners doc wco now : a_listeners (app_load doc wco now) = setup doc.
Proof. unfold app_load. by destruct wco. Qed.

Lemma app_load_measure L doc wco now : cart_measure L (app_load doc wco now) = unadded L doc.
Proof. unfold app_load. by destruct wco. Qed.

End CartInvariant.

(** C19: in every state the page reaches after loading, [cartCount] plus
    the number of add-to-cart buttons still reading "Añadir al Carrito"
    is at most the number of such buttons at load, so [cartCount] never
    exceeds the number of add-to-cart buttons: a game is added at most
    once, whatever the order of clicks, timers and other events. *)
Theorem cart_count_bounded doc wco now s :
  app_reachable doc wco now s ->
  let L := querySelectorAll BTN_SMALL doc in
  a_cart s + unadded L (a_doc s) <= unadded L doc /\ a_cart s <= length L.
Proof.
  intros Hr L.
  assert (Hinv : a_listeners s = setup doc /\ cart_measure L s <= unadded L doc).
  { apply (rtc_invariant app_steps (fun s => a_listeners s = setup doc /\ cart_measure L s <= unadded L doc)
             (app_load doc wco now)); [|done|].
    - intros a b [ev Hev] [Hls Hm]. destruct (app_step_measure L ev a b) as [Hm' Hls']; [|done|].
      + rewrite Hls. apply setup_cart.
      + split; [congruence|lia].
    - rewrite app_load_listeners, app_load_measure. done. }
  destruct Hinv as [_ Hm]. unfold cart_measure in Hm. split; [done|].
  assert (unadded L doc <= length L) by apply length_filter. lia.
Qed.

(** ** Filters, tabs and toasts *)

Section SelectLemmas.
Implicit Types (doc : Document) (s : App).

Lemma active_select_exclusive group btn doc i :
  active (select_exclusive group btn doc) i =
  if bool_decide (i = btn) then bool_decide (is_Some (doc !! i))
  else if bool_decide (i ∈ group) then false else active doc i.
Proof.
  unfold select_exclusive. rewrite active_add, active_remove.
  rewrite (bool_decide_ext (i ∈ [btn]) (i = btn)) by set_solver.
  case_bool_decide; [|done]. f_equal. apply bool_decide_ext.
  rewrite !lookup_lt_is_Some, update_all_length. done.
Qed.

Lemma elem_text_select_exclusive group btn doc i :
  elem_text (select_exclusive group btn doc) i = elem_text doc i.
Proof.
  unfold elem_text, select_exclusive. rewrite <- !list_lookup_fmap.
  by rewrite !update_all_fmap.
Qed.

Lemma slide_out_fresh id ts t :
  Forall (fun t' => toast_id t' < id) ts -> toast_id t = id ->
  slide_out id (ts ++ [t]) = ts ++ [mkToast (toast_id t) (toast_text t) (toast_top t) SlidingOut].
Proof.
  intros Hts Ht. unfold slide_out. rewrite map_app. simpl. rewrite Ht, Nat.eqb_refl. f_equal.
  induction Hts as [|t' ts Ht' _ IH]; simpl; [done|]. rewrite IH.
  by destruct (Nat.eqb_spec (toast_id t') id); [lia|].
Qed.

Lemma remove_fresh id ts t :
  Forall (fun t' => toast_id t' < id) ts -> toast_id t = id ->
  filter (fun t' => toast_id t' <> id) (ts ++ [t]) = ts.
Proof.
  intros Hts Ht. rewrite filter_app, filter_cons_False by (intros []; done). rewrite app_nil_r.
  apply filter_all_true. rewrite Forall_forall in Hts. intros t' Ht'%Hts. lia.
Qed.

End SelectLemmas.

(** C20: a click on a filter (or a tab) button makes it the only active
    button of its group and announces the button's text. *)
Theorem filter_tab_exclusive group btn s label s' :
  is_Some (a_doc s !! btn) ->
  (label = "Filtro aplicado: " /\ s' = on_filter_click group btn s) \/
  (label = "Mostrando: " /\ s' = on_tab_click group btn s) ->
  active (a_doc s') btn = true /\
  (forall i, i ∈ group -> i <> btn -> active (a_doc s') i = false) /\
  a_toasts s' = a_toasts s ++ [mkToast (a_next_toast s) (label +:+ elem_text (a_doc s) btn)
                                         (toast_top_of (a_wco_visible s)) SlidingIn].
Proof.
  intros Hb Hs. assert (Hd : a_doc s' = select_exclusive group btn (a_doc s) /\
    a_toasts s' = a_toasts s ++ [mkToast (a_next_toast s) (label +:+ elem_text (select_exclusive group btn (a_doc s)) btn)
                                         (toast_top_of (a_wco_visible s)) SlidingIn])
    by (destruct Hs as [[-> ->]|[-> ->]]; done).
  destruct Hd as [-> ->]. rewrite elem_text_select_exclusive. split_and!; [|intros i Hi Hne|done];
    rewrite active_select_exclusive.
  - by rewrite !bool_decide_eq_true_2.
  - by rewrite bool_decide_eq_false_2, bool_decide_eq_true_2.
Qed.

(** C21: a notification slides out 3000 ms after it is shown and is
    removed from the page 300 ms later; nothing else is left scheduled.
    Its top offset follows the window-controls overlay. *)
Theorem toast_lifecycle m s :
  tm_pending (a_timers s) = [] ->
  Forall (fun t => toast_id t < a_next_toast s) (a_toasts s) ->
  let c := tm_clock (a_timers s) in
  let toast := mkToast (a_next_toast s) m (toast_top_of (a_wco_visible s)) in
  exists s2 s3,
    a_toasts (showNotification m s) = a_toasts s ++ [toast SlidingIn] /\
    tick (showNotification m s) = Some s2 /\
    tm_clock (a_timers s2) = c + 3000 /\ a_toasts s2 = a_toasts s ++ [toast SlidingOut] /\
    tick s2 = Some s3 /\
    tm_clock (a_timers s3) = c + 3300 /\ a_toasts s3 = a_toasts s /\
    tick s3 = None.
Proof.
  intros Hp Hf c toast. eexists _, _. split_and!.
  - done.
  - unfold tick.
    rewrite (pop_due_single _ _ (mkTimer (tm_next (a_timers s)) (c + 3000) (TToastSlideOut (a_next_toast s))))
      by (simpl; by rewrite Hp). reflexivity.
  - simpl. lia.
  - simpl. by rewrite slide_out_fresh.
  - unfold tick.
    rewrite (pop_due_single _ _ (mkTimer (S (tm_next (a_timers s))) (Nat.max c (c + 3000) + 300)
                                         (TToastRemove (a_next_toast s))))
      by done. reflexivity.
  - simpl. lia.
  - simpl. rewrite slide_out_fresh by done. by apply (remove_fresh _ _ (toast SlidingOut)).
  - done.
Qed.

(** ** Toasts are always scheduled for removal *)

Section ToastInvariant.
Implicit Types (s : App).

Lemma wco_same s s' :
  a_timers s' = a_timers s -> a_wco_timeout s' = a_wco_timeout s -> wco_timer_ok s -> wco_timer_ok s'.
Proof. unfold wco_timer_ok. by intros -> ->. Qed.

Lemma wco_sub s s' :
  a_wco_timeout s' = a_wco_timeout s -> tm_next (a_timers s') = tm_next (a_timers s) ->
  (forall w, w ∈ tm_pending (a_timers s') -> w ∈ tm_pending (a_timers s)) ->
  wco_timer_ok s -> wco_timer_ok s'.
Proof.
  intros Ho Hn Hsub [Hlt Hiff]. unfold wco_timer_ok. rewrite Ho, Hn.
  split; [done|]. intros w Hw. by apply Hiff, Hsub.
Qed.

(** A timer other than the overlay's never collides with [timeout]. *)
Lemma wco_set_timer t d s : t <> TGeometryLater -> wco_timer_ok s -> wco_timer_ok (set_timer t d s).
Proof.
  intros Ht [Hlt Hiff]. split; simpl.
  - intros i Hi. specialize (Hlt i Hi). lia.
  - intros w [Hw| ->%list_elem_of_singleton]%elem_of_app; [by apply Hiff|]. simpl.
    split; intros Hc; [done|]. specialize (Hlt _ Hc). lia.
Qed.

(** The debounced call clears the overlay's own timer only and sets
    the new one, which [timeout] then names. *)
Lemma wco_geometrychange s :
  timers_wf (a_timers s) -> wco_timer_ok s ->
  timers_wf (a_timers (on_geometrychange s)) /\ wco_timer_ok (on_geometrychange s).
Proof.
  intros Hwf [Hlt Hiff]. unfold on_geometrychange. cbn [a_timers a_wco_timeout set_wco set_timers].
  split; [by apply setTimeout_wf, clearTimeout_wf|]. unfold wco_timer_ok, setTimeout.
  cbn [a_timers a_wco_timeout set_wco set_timers fst snd tm_next tm_pending].
  rewrite !clearTimeout_next. split; [intros i [= <-]; lia|].
  intros w [Hw| ->%list_elem_of_singleton]%elem_of_app; [|done].
  apply clearTimeout_pending in Hw as [Hw Hne]. destruct Hwf as [_ Hids].
  rewrite Forall_forall in Hids. specialize (Hids w Hw). split; intros Hc.
  - exfalso. by apply Hne, Hiff.
  - injection Hc as Hc. lia.
Qed.

(** A toast's timer survives the overlay's [clearTimeout]. *)
Lemma toast_timer_clear s w t :
  wco_timer_ok s -> w ∈ tm_pending (a_timers s) -> t_task w = toast_task t ->
  w ∈ tm_pending (clearTimeout (a_wco_timeout s) (a_timers s)).
Proof.
  intros [_ Hiff] Hw Ht. apply clearTimeout_pending. split; [done|]. intros Hc.
  apply Hiff in Hc; [|done]. rewrite Ht in Hc. unfold toast_task in Hc. by case_match.
Qed.

Lemma run_task_wco task s : wco_timer_ok s -> wco_timer_ok (run_task task s).
Proof.
  intros Hw. destruct task; cbn [run_task]; try unfold showNotification;
    try (apply wco_set_timer; [done|]); try by apply (wco_same s).
  apply (wco_sub s); [done|apply clearTimeout_next| |done]. intros w Hin.
  by apply clearTimeout_pending in Hin as [? _].
Qed.

Lemma sched_showNotification m s : toasts_scheduled s -> toasts_scheduled (showNotification m s).
Proof.
  intros (Hwf & Hwco & Hall). split_and!; [by apply setTimeout_wf| |].
  - unfold showNotification. apply wco_set_timer; [done|]. by apply (wco_same s).
  - simpl. apply Forall_app. split.
    + eapply Forall_impl; [done|]. intros t (tm & Htm & Ht). exists tm. split; [|done].
      rewrite elem_of_app. by left.
    + constructor; [|done]. eexists. split; [rewrite elem_of_app; right; by left|done].
Qed.

Lemma sched_set_timer t d s :
  t <> TGeometryLater -> toasts_scheduled s -> toasts_scheduled (set_timer t d s).
Proof.
  intros Ht (Hwf & Hwco & Hall). split_and!; [by apply setTimeout_wf|by apply wco_set_timer|]. simpl.
  eapply Forall_impl; [done|]. intros t' (tm & Htm & Ht'). exists tm. split; [|done].
  rewrite elem_of_app. by left.
Qed.

Lemma sched_same s s' :
  a_timers s' = a_timers s -> a_toasts s' = a_toasts s -> a_wco_timeout s' = a_wco_timeout s ->
  toasts_scheduled s -> toasts_scheduled s'.
Proof. unfold toasts_scheduled, wco_timer_ok. by intros -> -> ->. Qed.

Lemma sched_geometrychange s : toasts_scheduled s -> toasts_scheduled (on_geometrychange s).
Proof.
  intros (Hwf & Hwco & Hall). destruct (wco_geometrychange s Hwf Hwco) as [Hwf' Hwco'].
  split_and!; [done|done|]. unfold on_geometrychange. cbn [a_toasts a_timers set_wco set_timers snd setTimeout tm_pending].
  eapply Forall_impl; [done|]. intros t (w & Hw & Ht). exists w. split; [|done].
  apply elem_of_app. left. by eapply toast_timer_clear.
Qed.

End ToastInvariant.

Ltac sched_tac :=
  lazymatch goal with
  | |- toasts_scheduled (showNotification _ _) => apply sched_showNotification; sched_tac
  | |- toasts_scheduled (set_timer _ _ _) => apply sched_set_timer; [done|sched_tac]
  | |- toasts_scheduled (set_doc _ ?x) => apply (sched_same x); [done|done|done|sched_tac]
  | |- toasts_scheduled (set_cart _ ?x) => apply (sched_same x); [done|done|done|sched_tac]
  | |- toasts_scheduled (throw _ ?x) => apply (sched_same x); [done|done|done|sched_tac]
  | |- toasts_scheduled (set_prompt _ _ _ _ _ ?x) => apply (sched_same x); [done|done|done|sched_tac]
  | |- toasts_scheduled (updateCartCount ?x) => apply (sched_same x); [done|done|done|sched_tac]
  | |- toasts_scheduled _ => assumption
  end.

Section ToastSteps.
Implicit Types (s : App).

Lemma run_listener_sched l el ans s : toasts_scheduled s -> toasts_scheduled (run_listener l el ans s).
Proof. intros H. listener_cases l ltac:(idtac; sched_tac). Qed.

Lemma dispatch_sched k el ans s : toasts_scheduled s -> toasts_scheduled (dispatch k el ans s).
Proof.
  intros H. unfold dispatch. apply (foldl_invariant toasts_scheduled); [done|].
  intros [i l] s' _ Hs. case_match; [by apply run_listener_sched|done].
Qed.

(** A timer whose task is not [x]'s survives popping [x]. *)
Lemma sched_after_pop s x tm t :
  timers_wf (a_timers s) -> pop_due None (a_timers s) = Some (x, tm) ->
  (exists w, w ∈ tm_pending (a_timers s) /\ t_task w = toast_task t) -> toast_task t <> t_task x ->
  exists w, w ∈ tm_pending tm /\ t_task w = toast_task t.
Proof.
  intros Hwf Hpop (w & Hw & Ht) Hne. exists w. split; [|done].
  eapply pop_due_keeps; [done|done|done|]. intros ->. by apply Hne.
Qed.

Lemma toast_task_id t i : toast_task t = TToastSlideOut i \/ toast_task t = TToastRemove i -> toast_id t = i.
Proof. unfold toast_task. destruct (toast_phase t); naive_solver. Qed.

Lemma tick_sched s s' : toasts_scheduled s -> tick s = Some s' -> toasts_scheduled s'.
Proof.
  intros (Hwf & Hwco & Hall). unfold tick. destruct (pop_due None (a_timers s)) as [[x tm]|] eqn:Hpop; [|done].
  intros [= <-]. pose proof (pop_due_wf _ _ _ _ Hwf Hpop) as Hwf'.
  assert (Hwco1 : wco_timer_ok (set_timers tm s)).
  { apply (wco_sub s); [done|by eapply pop_due_next| |done]. intros w Hw.
    cbn [a_timers set_timers] in Hw. apply pop_due_pending in Hpop as [_ Htm].
    rewrite Htm in Hw. by apply list_elem_of_filter in Hw as [_ Hw]. }
  pose proof (run_task_wco (t_task x) _ Hwco1) as Hwco2.
  assert (Hk : forall t, t ∈ a_toasts s -> toast_task t <> t_task x ->
                 exists w, w ∈ tm_pending tm /\ t_task w = toast_task t).
  { intros t Ht Hne. eapply sched_after_pop; [done|done| |done]. rewrite Forall_forall in Hall. by apply Hall. }
  destruct (t_task x) as [el|i|i|el title|] eqn:Hx; simpl in Hwco2 |- *.
  - split_and!; [done|done|]. apply Forall_forall. intros t Ht. apply Hk; [done|]. unfold toast_task. by case_match.
  - split_and!; [by apply setTimeout_wf|done|]. simpl. apply Forall_forall. intros t Ht.
    unfold slide_out in Ht. apply list_elem_of_fmap in Ht as (t0 & -> & Ht0).
    destruct (Nat.eqb_spec (toast_id t0) i) as [<-|Hne].
    + eexists. split; [rewrite elem_of_app; right; by left|done].
    + destruct (Hk t0 Ht0) as (w & Hw & Htw); [intros Heq; apply Hne, toast_task_id; by left|].
      exists w. split; [rewrite elem_of_app; by left|done].
  - split_and!; [done|done|]. simpl. apply Forall_forall. intros t Ht. apply list_elem_of_filter in Ht as [Hne Ht].
    apply Hk; [done|]. intros Heq. apply Hne, toast_task_id. by right.
  - apply sched_showNotification. split_and!; [done|by apply (wco_same (set_timers tm s))|]. simpl.
    apply Forall_forall. intros t Ht. apply Hk; [done|]. unfold toast_task. by case_match.
  - split_and!; [by apply clearTimeout_wf|done|].
    apply Forall_forall. intros t Ht. destruct (Hk t Ht) as (w & Hw & Htw); [unfold toast_task; by case_match|].
    exists w. split; [|done]. by apply (toast_timer_clear (set_timers tm s) w t).
Qed.

Lemma app_step_sched ev s s' : toasts_scheduled s -> s ~{ ev }~> s' -> toasts_scheduled s'.
Proof.
  intros H. destruct ev; simpl.
  - destruct (a_doc s !! el) as [e|]; [|done]. destruct (el_disabled e); [done|].
    intros [= <-]. by apply dispatch_sched.
  - destruct (a_doc s !! el) as [e|]; [|done]. destruct (el_disabled e); [done|].
    intros [= <-]. apply dispatch_sched. sched_tac.
  - destruct (a_doc s !! el); [|done]. intros [= <-]. by apply dispatch_sched.
  - intros [= <-]. unfold on_beforeinstallprompt. sched_tac.
  - case_bool_decide; [|done]. intros [= <-]. unfold on_install_click. repeat case_match; sched_tac.
  - case_bool_decide; [|done]. intros [= <-]. unfold on_user_choice.
    apply (foldl_invariant toasts_scheduled); [sched_tac|].
    intros bp s2 _ Hs2. unfold resume_install_click. case_match; sched_tac.
  - intros [= <-]. unfold on_appinstalled. sched_tac.
  - intros [= <-]. sched_tac.
  - intros [= <-]. sched_tac.
  - intros [= <-]. apply sched_geometrychange. by apply (sched_same s).
  - apply tick_sched, H.
Qed.

Lemma app_load_sched doc wco now : toasts_scheduled (app_load doc wco now).
Proof.
  unfold app_load. assert (H0 : toasts_scheduled (mkApp doc (setup doc) 0 [] 0 (timers_init now) wco None None 0 [] [] [] []))
    by (split_and!; [split; constructor|split; [done|intros ? []%elem_of_nil]|constructor]).
  destruct wco; [by apply sched_showNotification|done].
Qed.

Lemma reachable_sched doc wco now s : app_reachable doc wco now s -> toasts_scheduled s.
Proof.
  intros Hr. apply (rtc_invariant app_steps toasts_scheduled (app_load doc wco now)); [|done|apply app_load_sched].
  intros a b [ev Hev] Ha. by apply (app_step_sched ev a b).
Qed.

End ToastSteps.

(** ** Left alone, the page removes every toast *)

Section Drain.
Implicit Types (s : App).

Lemma set_timer_weight t d s : timers_weight (set_timer t d s) = timers_weight s + task_weight t.
Proof. unfold timers_weight. simpl. rewrite sum_list_fmap_app. simpl. lia. Qed.

Lemma run_task_weight task s : timers_weight (run_task task s) < timers_weight s + task_weight task.
Proof.
  destruct task; simpl.
  - unfold timers_weight. simpl. lia.
  - rewrite set_timer_weight. unfold timers_weight. simpl. lia.
  - unfold timers_weight. simpl. lia.
  - unfold showNotification. rewrite set_timer_weight. unfold timers_weight. simpl. lia.
  - unfold timers_weight. simpl. pose proof (sum_list_fmap_filter (fun tm => task_weight (t_task tm))
      (fun t => t_id t <> 0) (tm_pending (a_timers s))).
    destruct (a_wco_timeout s) as [i|]; simpl; [|lia].
    pose proof (sum_list_fmap_filter (fun tm => task_weight (t_task tm)) (fun t => t_id t <> i) (tm_pending (a_timers s))).
    lia.
Qed.

Lemma tick_weight s s' : toasts_scheduled s -> tick s = Some s' -> timers_weight s' < timers_weight s.
Proof.
  intros [[Hnd _] _]. unfold tick. destruct (pop_due None (a_timers s)) as [[x tm]|] eqn:Hpop; [|done].
  intros [= <-]. apply pop_due_pending in Hpop as [Hx Htm].
  pose proof (run_task_weight (t_task x) (set_timers tm s)) as Hw.
  assert (Hs : timers_weight (set_timers tm s) + task_weight (t_task x) = timers_weight s).
  { unfold timers_weight. simpl. rewrite Htm. by apply (sum_filter_id (fun tm => task_weight (t_task tm))). }
  lia.
Qed.

Lemma timers_weight_zero s : timers_weight s = 0 -> tm_pending (a_timers s) = [].
Proof.
  unfold timers_weight. destruct (tm_pending (a_timers s)) as [|t l]; [done|]. simpl.
  destruct (t_task t); simpl; lia.
Qed.

Lemma drain_ticks_spec fuel s :
  toasts_scheduled s -> timers_weight s <= fuel ->
  toasts_scheduled (drain_ticks fuel s) /\ tm_pending (a_timers (drain_ticks fuel s)) = [].
Proof.
  revert s. induction fuel as [|n IH]; intros s Hs Hw; simpl.
  - split; [done|]. apply timers_weight_zero. lia.
  - destruct (tick s) as [s'|] eqn:Ht.
    + apply IH; [by eapply tick_sched|]. pose proof (tick_weight s s' Hs Ht). lia.
    + split; [done|]. unfold tick in Ht. apply pop_due_None_empty. by destruct (pop_due None (a_timers s)) as [[]|].
Qed.

End Drain.

(** C22: in every state the page reaches, each toast on screen has the
    timer that moves it on pending: its slide-out while it slides in,
    its removal once it slides out. *)
Theorem toast_always_scheduled doc wco now s :
  app_reachable doc wco now s ->
  forall t, t ∈ a_toasts s -> exists tm, tm ∈ tm_pending (a_timers s) /\ t_task tm = toast_task t.
Proof.
  intros Hr. destruct (reachable_sched doc wco now s Hr) as (_ & _ & Hall). by apply Forall_forall.
Qed.

(** C23: from every state the page reaches, once no more events come
    the event loop runs out of timers within [timers_weight] ticks, and
    then no toast is left on the page. *)
Theorem toasts_drain doc wco now s :
  app_reachable doc wco now s ->
  let s' := drain_ticks (timers_weight s) s in
  tm_pending (a_timers s') = [] /\ a_toasts s' = [] /\ tick s' = None.
Proof.
  intros Hr s'. destruct (drain_ticks_spec (timers_weight s) s) as [(_ & _ & Hall) Hp];
    [by eapply reachable_sched|done|].
  fold s' in Hall, Hp. split_and!; [done| |].
  - destruct (a_toasts s') as [|t ts]; [done|]. apply Forall_cons in Hall as [(tm & Htm & _) _].
    rewrite Hp in Htm. by apply elem_of_nil in Htm.
  - unfold tick. apply pop_due_None_empty in Hp. by rewrite Hp.
Qed.

(** C33: in every state the page reaches, the [timeout] of the overlay
    listener's [debounce] names its own pending [later] and no other
    timer: a pending timer is the listener's exactly when [timeout] names
    it.  So at most one handler run is ever pending, and the
    [clearTimeout(timeout)] of [executedFunction] and [later], which run
    on the same timers as the toasts and buttons, never cancel one of
    theirs. *)
Theorem wco_debounce_own_timer doc wco now s :
  app_reachable doc wco now s ->
  (forall t, t ∈ tm_pending (a_timers s) ->
     t_task t = TGeometryLater <-> a_wco_timeout s = Some (t_id t)) /\
  length (filter (fun t => t_task t = TGeometryLater) (tm_pending (a_timers s))) <= 1.
Proof.
  intros Hr. destruct (reachable_sched doc wco now s Hr) as ([Hnd _] & [_ Hiff] & _).
  split; [done|]. apply (filter_same_key_le1 t_id); [done|].
  intros x y Hx Hy Hpx Hpy. apply Hiff in Hpx; [|done]. apply Hiff in Hpy; [|done]. congruence.
Qed.

(** ** The library's install buttons and the install prompt *)

(** C24: a click on a library button reading "Instalar" announces the
    installation, turns the button into a disabled "Instalando..." button,
    which receives no more clicks, and schedules the end of the
    installation 3000 ms later, after the announcement's own slide-out. *)
Theorem library_install_starts btn s e title ans :
  a_doc s !! btn = Some e -> trim (el_text e) = "Instalar" -> el_parent_h3 e = Some title ->
  let s1 := on_library_click btn s in
  let c := tm_clock (a_timers s) in
  let n := tm_next (a_timers s) in
  a_doc s1 !! btn = Some (mark_installing e) /\
  app_step (Click btn ans) s1 = None /\
  tm_pending (a_timers s1) =
    tm_pending (a_timers s) ++ [mkTimer n (c + 3000) (TToastSlideOut (a_next_toast s));
                                mkTimer (S n) (c + 3000) (TInstallDone btn title)] /\
  a_toasts s1 = a_toasts s ++ [mkToast (a_next_toast s) ("Instalando " +:+ title +:+ "...")
                                        (toast_top_of (a_wco_visible s)) SlidingIn].
Proof.
  intros He Ht Hh s1 c n. subst s1. unfold on_library_click. rewrite He, Hh, Ht. simpl.
  rewrite list_lookup_alter, decide_True, He by done. simpl.
  split_and!; [done| |by rewrite <- app_assoc|done].
  done.
Qed.

(** C25: when the installation timer fires, the button reads "Jugar",
    is enabled again, has swapped [btn-secondary] for [btn-primary], and
    the end of the installation is announced. *)
Theorem library_install_completes btn title s e :
  a_doc s !! btn = Some e ->
  let s' := run_task (TInstallDone btn title) s in
  (exists e', a_doc s' !! btn = Some e' /\ el_text e' = "Jugar" /\ el_disabled e' = false /\
              has_class "btn-primary" e' = true /\ has_class "btn-secondary" e' = false) /\
  a_toasts s' = a_toasts s ++ [mkToast (a_next_toast s) (title +:+ " instalado correctamente")
                                       (toast_top_of (a_wco_visible s)) SlidingIn].
Proof.
  intros He s'. subst s'. simpl. split; [|done].
  rewrite list_lookup_alter, decide_True, He by done. eexists. split_and!; [done..| |];
    unfold has_class; simpl; [apply bool_decide_eq_true|apply bool_decide_eq_false];
    rewrite elem_of_class_add, ?elem_of_class_remove; [by left|].
  intros [Hc|[Hc _]]; [discriminate Hc|by apply Hc].
Qed.

(** C26: a click on an install button while [deferredPrompt] holds an
    event not yet prompted shows the prompt and awaits the user's
    choice; the choice clears [deferredPrompt], removes that button and,
    if accepted, announces the installation. *)
Theorem install_prompt_choice b p o s :
  a_deferred s = Some p -> p ∉ a_prompted s -> p ∉ (a_awaiting s).*2 ->
  let s1 := on_install_click b s in
  let s2 := on_user_choice p o s1 in
  a_awaiting s1 = a_awaiting s ++ [(b, p)] /\ a_prompted s1 = a_prompted s ++ [p] /\
  a_errors s1 = a_errors s /\
  a_deferred s2 = None /\ a_install_buttons s2 = filter (fun b' => b' <> b) (a_install_buttons s) /\
  a_awaiting s2 = a_awaiting s /\
  a_toasts s2 = a_toasts s ++ match o with
                              | Accepted => [mkToast (a_next_toast s) "¡App instalada con éxito!"
                                                     (toast_top_of (a_wco_visible s)) SlidingIn]
                              | Dismissed => []
                              end.
Proof.
  intros Hd Hp Ha s1 s2. subst s1 s2. unfold on_install_click. rewrite Hd, bool_decide_eq_false_2 by done.
  unfold on_user_choice. simpl.
  assert (Hw : filter (fun bp : nat * nat => bp.2 = p) (a_awaiting s ++ [(b, p)]) = [(b, p)]).
  { rewrite filter_app, filter_all_false; [by rewrite filter_cons_True|].
    intros [b' p'] Hin Heq. simpl in Heq. subst p'. apply Ha, list_elem_of_fmap. by exists (b', p). }
  assert (Hr : filter (fun bp : nat * nat => bp.2 <> p) (a_awaiting s ++ [(b, p)]) = a_awaiting s).
  { rewrite filter_app, filter_all_true, filter_cons_False; [by rewrite app_nil_r|by intros []|].
    intros [b' p'] Hin Heq. simpl in Heq. subst p'. apply Ha, list_elem_of_fmap. by exists (b', p). }
  rewrite Hw, Hr. simpl. unfold resume_install_click. destruct o; simpl; split_and!; rewrite ?app_nil_r; done.
Qed.

(** C27: after [appinstalled], [deferredPrompt] is cleared but the
    custom install buttons stay on the page, and a click on one of them
    does nothing. *)
Theorem appinstalled_dead_button s b :
  let s1 := on_appinstalled s in
  a_install_buttons s1 = a_install_buttons s /\ a_deferred s1 = None /\
  (b ∈ a_install_buttons s -> app_step (ClickInstall b) s1 = Some s1).
Proof.
  intros s1. split_and!; [done|done|]. intros Hb. simpl.
  rewrite bool_decide_eq_true_2 by done. done.
Qed.

(** ** Witnesses *)

Lemma nav_click_shows_page_witness :
  getElementById "library-page" demo_page = Some 3 /\ active (a_doc (on_nav_click [2; 3] 1 demo_app)) 3 = true.
Proof.
  split; [reflexivity|].
  destruct (nav_click_shows_page [2; 3] 1 demo_app 3) as (_ & Hp & _); [vm_compute; reflexivity|exact Hp].
Defined.

Lemma nav_click_missing_page_witness :
  getElementById "community-page" broken_page = None /\
  a_errors (on_nav_click [2; 3] 11 (app_load broken_page false 0)) = ["TypeError"].
Proof.
  split; [reflexivity|].
  destruct (nav_click_missing_page [2; 3] 11 (app_load broken_page false 0)) as [He _];
    [vm_compute; reflexivity|exact He].
Defined.

Lemma cart_count_bounded_witness :
  a_cart demo_state = 1 /\ a_cart demo_state <= length (querySelectorAll BTN_SMALL demo_page).
Proof.
  split; [vm_compute; reflexivity|].
  destruct (cart_count_bounded demo_page false 0 demo_state) as [_ H]; [exact demo_state_reachable|exact H].
Defined.

Lemma filter_tab_exclusive_witness :
  is_Some (demo_page !! 8) /\ active (a_doc (on_filter_click [7; 8] 8 demo_app)) 7 = false.
Proof.
  split; [eexists; reflexivity|].
  destruct (filter_tab_exclusive [7; 8] 8 demo_app "Filtro aplicado: " (on_filter_click [7; 8] 8 demo_app))
    as (_ & H & _); [eexists; reflexivity|left; split; reflexivity|].
  apply H; [set_solver|lia].
Defined.

Lemma toast_lifecycle_witness :
  tm_pending (a_timers demo_app) = [] /\
  exists s2 s3, tick (showNotification "Conexión restaurada" demo_app) = Some s2 /\ tick s2 = Some s3 /\
                a_toasts s3 = [] /\ tm_clock (a_timers s3) = 3300.
Proof.
  split; [reflexivity|].
  destruct (toast_lifecycle "Conexión restaurada" demo_app) as (s2 & s3 & _ & H2 & _ & _ & H3 & Hc & Ht & _);
    [reflexivity|constructor|].
  exists s2, s3. split_and!; [done|done|exact Ht|exact Hc].
Defined.

Lemma toast_always_scheduled_witness :
  a_toasts demo_state <> [] /\
  forall t, t ∈ a_toasts demo_state -> exists tm, tm ∈ tm_pending (a_timers demo_state) /\ t_task tm = toast_task t.
Proof.
  split; [vm_compute; discriminate|].
  exact (toast_always_scheduled demo_page false 0 demo_state demo_state_reachable).
Defined.

Lemma toasts_drain_witness :
  a_toasts demo_state <> [] /\ a_toasts (drain_ticks (timers_weight demo_state) demo_state) = [].
Proof.
  split; [vm_compute; discriminate|].
  destruct (toasts_drain demo_page false 0 demo_state) as (_ & H & _); [exact demo_state_reachable|exact H].
Defined.

Lemma library_install_starts_witness :
  trim (el_text (demo_elem "button" None ["btn"; "btn-secondary"] " Instalar " None
                   [("div", ["library-card"])] (Some "Space Run"))) = "Instalar" /\
  app_step (Click 6 None) (on_library_click 6 demo_app) = None.
Proof.
  split; [vm_compute; reflexivity|].
  destruct (library_install_starts 6 demo_app
              (demo_elem "button" None ["btn"; "btn-secondary"] " Instalar " None [("div", ["library-card"])] (Some "Space Run"))
              "Space Run" None) as (_ & H & _); [reflexivity|vm_compute; reflexivity|reflexivity|exact H].
Defined.

Lemma library_install_completes_witness :
  is_Some (demo_page !! 6) /\
  a_toasts (run_task (TInstallDone 6 "Space Run") demo_app) =
    [mkToast 0 ("Space Run" +:+ " instalado correctamente") "20px" SlidingIn].
Proof.
  split; [eexists; reflexivity|].
  destruct (library_install_completes 6 "Space Run" demo_app
              (demo_elem "button" None ["btn"; "btn-secondary"] " Instalar " None [("div", ["library-card"])] (Some "Space Run")))
    as [_ H]; [reflexivity|exact H].
Defined.

Lemma install_prompt_choice_witness :
  a_deferred (on_beforeinstallprompt demo_app) = Some 0 /\
  a_install_buttons (on_user_choice 0 Accepted (on_install_click 0 (on_beforeinstallprompt demo_app))) = [].
Proof.
  split; [reflexivity|].
  destruct (install_prompt_choice 0 0 Accepted (on_beforeinstallprompt demo_app)) as (_ & _ & _ & _ & H & _);
    [reflexivity|set_solver|set_solver|exact H].
Defined.

Lemma appinstalled_dead_button_witness :
  0 ∈ a_install_buttons (on_beforeinstallprompt demo_app) /\
  app_step (ClickInstall 0) (on_appinstalled (on_beforeinstallprompt demo_app)) =
    Some (on_appinstalled (on_beforeinstallprompt demo_app)).
Proof.
  split; [set_solver|].
  destruct (appinstalled_dead_button (on_beforeinstallprompt demo_app) 0) as (_ & _ & H).
  apply H. set_solver.
Defined.

(** ** Missing titles *)

(** C31: the listeners that look up a title throw a TypeError, and do
    nothing else, when the element has none: the library buttons and the
    news buttons without an [h3] beside them (the library listener reads
    the title before it looks at the action, so even a button that is
    neither "Jugar" nor "Instalar" throws) and a switch without a [span]
    two levels up. *)
Theorem title_lookup_errors el s e :
  a_doc s !! el = Some e ->
  (el_parent_h3 e = None ->
   on_library_click el s = throw "TypeError" s /\ on_news_click el s = throw "TypeError" s) /\
  (el_grandparent_span e = None -> on_switch_change el s = throw "TypeError" s).
Proof.
  intros He. split; [intros Hh; split|intros Hs].
  - unfold on_library_click. by rewrite He, Hh.
  - unfold on_news_click. by rewrite He; simpl; rewrite Hh.
  - unfold on_switch_change. by rewrite He, Hs.
Qed.

Lemma title_lookup_errors_witness :
  el_parent_h3 (demo_elem "button" None ["filter-btn"; "active"] "Todos" None [] None) = None /\
  a_errors (on_library_click 7 demo_app) = ["TypeError"].
Proof.
  split; [reflexivity|].
  destruct (title_lookup_errors 7 demo_app (demo_elem "button" None ["filter-btn"; "active"] "Todos" None [] None))
    as [H _]; [reflexivity|]. destruct H as [-> _]; reflexivity.
Defined.

Lemma wco_debounce_own_timer_witness :
  length (filter (fun t => t_task t = TGeometryLater) (tm_pending (a_timers demo_resized))) = 1 /\
  length (filter (fun t => t_task t = TGeometryLater) (tm_pending (a_timers demo_resized))) <= 1.
Proof.
  split; [vm_compute; reflexivity|].
  apply (wco_debounce_own_timer demo_page false 0 demo_resized).
  apply (run_events_reachable [GeometryChange true; Tick; GeometryChange true; GeometryChange true]).
  vm_compute. reflexivity.
Defined.

End App.
