(* ===== verification/Overlay.v ===== *)
(** * The window-controls-overlay section of app.js (lines 18-49)

    [if ('windowControlsOverlay' in navigator)] the script logs that the
    overlay is available, adds the [geometrychange] listener
    [debounce(handler, 200)] and, when the overlay is visible at load,
    logs it and shows a toast (that toast is part of [App.app_load]);
    otherwise it logs that the overlay is not available.  The handler
    (lines 24-39) only writes to the console: the visibility it reads
    from [navigator.windowControlsOverlay.visible] when it runs, the
    width and height of the event's [titlebarAreaRect], and a warning
    when the width is below 600 px.

    The console is the log of lines the section writes, in order.  The
    navigator's overlay is driven by the stream of [geometrychange]
    events, each reporting the visibility and title bar area after the
    change; a handler that runs at time [T] sees the visibility of the
    last change dispatched before [T] (a timer due at [T] runs before an
    event of the same millisecond, as in [Debounce.call_at]).  Widths
    and heights are whole CSS pixels, printed as [String(n)] does. *)

From S2P Require Import Prelude Timers Debounce Dom App.
Import Debounce App.

Module Overlay.

(** [e.titlebarAreaRect] *)
Record Rect := mkRect { rect_width : nat; rect_height : nat }.

(** A [geometrychange] event: the overlay's visibility and title bar
    area after the change. *)
Record GeoEvent := mkGeo { ge_visible : bool; ge_rect : Rect }.

Definition AVAILABLE : string := "✓ Window Controls Overlay disponible".
Definition ACTIVE : string := "✓ Window Controls Overlay está activo".
Definition UNAVAILABLE : string := "ℹ️ Window Controls Overlay no disponible en este navegador".
Definition NARROW : string := "⚠️ Espacio reducido en la barra de título".

(** The handler passed to [debounce], lines 24-39: what it logs when
    the overlay's visibility is [visible] and its event is [e]. *)
Definition geometry_handler (visible : bool) (e : GeoEvent) : list string :=
  let titleBarRect := ge_rect e in
  ["WCO " +:+ (if visible then "visible" else "oculta");
   "Ancho de barra de título: " +:+ number_text (rect_width titleBarRect) +:+ "px";
   "Alto de barra de título: " +:+ number_text (rect_height titleBarRect) +:+ "px"] ++
  (if rect_width titleBarRect <? 600 then [NARROW] else []).

(** [navigator.windowControlsOverlay.visible] at time [T]: the visibility
    reported by the last change dispatched before [T], else the one at
    load. *)
Definition overlay_visible (init : bool) (events : list (nat * GeoEvent)) (T : nat) : bool :=
  foldl (fun v te => if te.1 <? T then ge_visible te.2 else v) init events.

(** What the debounced listener logs over a stream of changes: one
    handler run per invocation [debounce] makes, in time order, each
    reading the overlay as it is when it runs. *)
Definition geometry_log (init : bool) (events : list (nat * GeoEvent)) : list string :=
  concat ((fun Te => geometry_handler (overlay_visible init events Te.1) Te.2)
            <$> geometrychange_runs events).

(** Lines 19-49 at load: [present] is ['windowControlsOverlay' in
    navigator], [visible] the overlay's visibility then. *)
Definition wco_load_log (present visible : bool) : list string :=
  if present then AVAILABLE :: (if visible then [ACTIVE] else []) else [UNAVAILABLE].

(** The whole console output of the section: the load-time lines, then
    the handler's runs; without the API no listener is added. *)
Definition wco_log (present init : bool) (events : list (nat * GeoEvent)) : list string :=
  wco_load_log present init ++ (if present then geometry_log init events else []).

(** The reference: each invocation logs the change it was called with. *)
Definition geometry_log_spec (events : list (nat * GeoEvent)) : list string :=
  concat ((fun Te => geometry_handler (ge_visible Te.2) Te.2) <$> debounce_spec WCO_WAIT events).

(** A burst: the overlay shows, the window narrows twice within 200 ms,
    then the overlay hides. *)
Definition demo_changes : list (nat * GeoEvent) :=
  [(0, mkGeo true (mkRect 800 33)); (100, mkGeo true (mkRect 500 33)); (1000, mkGeo false (mkRect 0 0))].

(** ** Lemmas *)

Section Bursts.
Context {Args : Type}.
Implicit Types (calls : list (nat * Args)).

(** An invocation the reference makes comes from a call after which no
    call comes before the invocation's time. *)
Lemma spec_split wait calls T a :
  sorted_times calls = true -> (T, a) ∈ debounce_spec wait calls ->
  exists pre t post, calls = pre ++ (t, a) :: post /\ T = t + wait /\
    Forall (fun p => T <= p.1) post.
Proof.
  induction calls as [|[t0 a0] rest IH]; intros Hs Hin; [by apply elem_of_nil in Hin|].
  destruct rest as [|[t1 a1] rest'].
  - apply list_elem_of_singleton in Hin. injection Hin as -> ->. by exists [], t0, [].
  - apply elem_of_app in Hin as [Hin|Hin].
    + destruct (Nat.leb_spec (t0 + wait) t1); [|by apply elem_of_nil in Hin].
      apply list_elem_of_singleton in Hin. injection Hin as -> ->.
      exists [], t0, ((t1, a1) :: rest'). split_and!; [done|done|].
      constructor; [done|]. apply Forall_forall. intros p Hp.
      pose proof (sorted_times_head t1 a1 rest' (sorted_times_tail _ _ Hs) p Hp). simpl in *. lia.
    + destruct (IH (sorted_times_tail _ _ Hs) Hin) as (pre & t & post & Heq & HT & Hpost).
      exists ((t0, a0) :: pre), t, post. by rewrite Heq.
Qed.
End Bursts.

Lemma overlay_visible_split init pre t e post T :
  t < T -> Forall (fun p => T <= p.1) post ->
  overlay_visible init (pre ++ (t, e) :: post) T = ge_visible e.
Proof.
  intros Ht Hpost. unfold overlay_visible. rewrite foldl_app. cbn [foldl fst snd].
  destruct (Nat.ltb_spec t T); [|lia]. generalize (ge_visible e).
  induction Hpost as [|[t' e'] post Hle _ IH]; intros v; [done|]. simpl in *.
  destruct (Nat.ltb_spec t' T); [lia|]. apply IH.
Qed.

(** A handler run reads the visibility its own event reported. *)
Lemma runs_read_own_change init events T e :
  sorted_times events = true -> (T, e) ∈ debounce_spec WCO_WAIT events ->
  overlay_visible init events T = ge_visible e.
Proof.
  intros Hs Hin. destruct (spec_split _ _ _ _ Hs Hin) as (pre & t & post & -> & -> & Hpost).
  apply overlay_visible_split; [unfold WCO_WAIT; lia|done].
Qed.

(** The handler warns exactly when the title bar is narrower than 600 px. *)
Lemma handler_narrow v e : NARROW ∈ geometry_handler v e <-> rect_width (ge_rect e) < 600.
Proof.
  unfold geometry_handler. rewrite elem_of_app, !elem_of_cons, elem_of_nil.
  destruct (Nat.ltb_spec (rect_width (ge_rect e)) 600) as [Hlt|Hge].
  - split; [done|]. intros _. right. by left.
  - split; [|lia]. intros [[H|[H|[H|[]]]]|[]%elem_of_nil]; revert H;
      [destruct v|..]; unfold NARROW; simpl; discriminate.
Qed.

(** C32: for [geometrychange] events in time order, the console output of
    the overlay section is the availability line, the active line when
    the overlay is visible at load, and then, for each invocation
    [debounce] makes (the last change of each burst, 200 ms after it),
    the handler's lines for that change: the visibility the handler
    reads from [navigator] when it runs is the one that change reported,
    with the change's title bar width and height and the narrow-bar
    warning exactly when the width is below 600.  Without the API only
    the unavailability line is written. *)
Theorem wco_log_last_change present init events :
  sorted_times events = true ->
  wco_log present init events =
  (if present then AVAILABLE :: (if init then [ACTIVE] else []) ++ geometry_log_spec events
   else [UNAVAILABLE]) /\
  forall v e, NARROW ∈ geometry_handler v e <-> rect_width (ge_rect e) < 600.
Proof.
  intros Hs. split; [|apply handler_narrow].
  unfold wco_log, wco_load_log. destruct present; [|done]. cbn [app]. f_equal.
  f_equal. unfold geometry_log, geometry_log_spec, geometrychange_runs.
  rewrite debounce_run_spec by done. f_equal. apply Forall_fmap_ext_1, Forall_forall.
  intros [T e] Hin. simpl. by rewrite (runs_read_own_change init events T e).
Qed.

Lemma wco_log_last_change_witness :
  (wco_log true false demo_changes =
    [AVAILABLE; "WCO visible"; "Ancho de barra de título: 500px"; "Alto de barra de título: 33px"; NARROW;
     "WCO oculta"; "Ancho de barra de título: 0px"; "Alto de barra de título: 0px"; NARROW]) /\
  (wco_log true false demo_changes = AVAILABLE :: geometry_log_spec demo_changes).
Proof.
  split; [vm_compute; reflexivity|].
  exact (proj1 (wco_log_last_change true false demo_changes eq_refl)).
Defined.

End Overlay.
