(* ===== verification/System.v ===== *)
(** * The page and its service worker together

    app.js registers the worker once the window has loaded (lines 56-66):
    [if ('serviceWorker' in navigator) window.addEventListener('load', ()
    => navigator.serviceWorker.register('/service-worker.js').then(...)
    .catch(...))].  Both callbacks only log.  A registration that
    resolves gives a new worker, parsed and about to install, with empty
    storage (a first visit); one that rejects gives none.

    Module [System] composes the page of [App] with that worker: a system
    step is a page event ([App.app_step]), a worker step
    ([Lifecycle.wstep]) or the window's [load] event, in any interleaving.
    [first_visit_offline] follows a first visit end to end: registration,
    the worker's install with the network up and its activation, after
    which the site works offline. *)

From S2P Require Import Prelude Fetch CacheStorage ServiceWorker Worker Timers Dom App.
Import SW Lifecycle Dom App.
Local Open Scope pwa_scope.

Module System.

(** How [navigator.serviceWorker.register] settles. *)
Inductive RegOutcome := RegResolved | RegRejected.

Record System := mkSys {
  sys_page : App;
  sys_worker : option Worker;
  sys_supported : bool;   (** ['serviceWorker' in navigator] *)
  sys_loaded : bool       (** the window's [load] event has fired *)
}.

(** The worker a first registration creates. *)
Definition w_registered : Worker := mkWorker Parsed sw_fresh false.

(** The [load] listener, when the script added it. *)
Definition on_window_load (o : RegOutcome) (sys : System) : System :=
  let w := if sys_supported sys
           then match o with RegResolved => Some w_registered | RegRejected => None end
           else None in
  mkSys (sys_page sys) w (sys_supported sys) true.

(** The system right after the script ran. *)
Definition sys_init (doc : Document) (wco : bool) (now : nat) (supported : bool) : System :=
  mkSys (app_load doc wco now) None supported false.

Inductive sstep : System -> System -> Prop :=
  | s_page ev sys p' :
      sys_page sys ~{ ev }~> p' ->
      sstep sys (mkSys p' (sys_worker sys) (sys_supported sys) (sys_loaded sys))
  | s_worker ev sys w w' :
      sys_worker sys = Some w -> w --[ ev ]--> w' ->
      sstep sys (mkSys (sys_page sys) (Some w') (sys_supported sys) (sys_loaded sys))
  | s_load o sys :
      sys_loaded sys = false -> sstep sys (on_window_load o sys).

(** What the network answered for [u] when the first install fetched it. *)
Definition stored (net : Request -> NetResult) (u : string) : option Response :=
  match net (request_of_url u) with NetOk r => Some r | NetFail => None end.

(** ** The first visit *)

Lemma insert_all_lookup_notin l (c : Cache) u : u ∉ l.*1 -> c !! u = None -> insert_all l c !! u = None.
Proof.
  intros Hu Hc. destruct (insert_all l c !! u) as [r|] eqn:Hl; [|done].
  destruct (insert_all_lookup_inv l c u r Hl) as [Hin|]; [|congruence].
  exfalso. apply Hu, list_elem_of_fmap. by exists (u, r).
Qed.

Section FirstVisit.
Context (net : Request -> NetResult).
Hypothesis Hnet : forall u, u ∈ urlsToCache ->
  exists r, net (request_of_url u) = NetOk r /\ add_all_accepts r = true.

(** The storage after the first install and activation: one bucket
    holding exactly the assets, with the network's answers. *)
Lemma first_visit_storage :
  exists l, l.*1 = urlsToCache /\
    (forall u r, u ∈ urlsToCache -> net (request_of_url u) = NetOk r -> (u, r) ∈ l) /\
    sw_caches (on_activate (on_install net sw_fresh).2) =
      mkCS [(CACHE_NAME, 0)] (<[0 := insert_all l ∅]> ∅) 1.
Proof.
  destruct (add_all_responses_ok net install_requests) as (l & Hl & Hfst & Hin).
  { intros rq (u & -> & Hu)%install_requests_elem. split; [done|]. by apply Hnet. }
  exists l. split_and!.
  - rewrite Hfst. unfold install_requests. rewrite <- list_fmap_compose. apply list_fmap_id.
  - intros u r Hu Hr. apply (Hin (request_of_url u)); [apply install_requests_elem; by exists u|done].
  - unfold on_install. cbn [cs_open sw_caches sw_fresh cs_empty cs_names alist_find].
    rewrite (cache_add_all_ok _ net install_requests l _ install_urls_NoDup Hl).
    unfold cs_alter. cbn. by rewrite alter_insert.
Qed.

(** [caches.match] after the first visit: exactly the assets. *)
Lemma first_visit_match req :
  cs_match req (sw_caches (on_activate (on_install net sw_fresh).2)) =
  if is_get req && bool_decide (req_url req ∈ urlsToCache) then stored net (req_url req) else None.
Proof.
  destruct first_visit_storage as (l & Hfst & Hin & Hcs).
  assert (Hnd : NoDup l.*1) by (rewrite Hfst; apply (bool_decide_unpack _); by vm_compute).
  unfold cs_match. rewrite Hcs. cbn [names_match cs_names cs_heap snd].
  rewrite lookup_insert_eq. cbn [mbind option_bind]. unfold cache_match.
  destruct (is_get req); [|done]. simpl. case_bool_decide as Hu.
  - destruct (Hnet _ Hu) as (r & Hr & _). unfold stored. rewrite Hr.
    by rewrite (insert_all_lookup _ _ _ r Hnd (Hin _ _ Hu Hr)).
  - rewrite insert_all_lookup_notin; [done|by rewrite Hfst|apply lookup_empty].
Qed.

(** Offline, the activated worker answers an asset from its bucket and
    anything else with the stored [/index.html]. *)
Lemma first_visit_fetch_offline req :
  (on_fetch req NetFail (on_activate (on_install net sw_fresh).2)).1 =
  if is_get req && bool_decide (req_url req ∈ urlsToCache) then stored net (req_url req)
  else stored net "/index.html".
Proof.
  unfold on_fetch. rewrite first_visit_match.
  destruct (is_get req && bool_decide (req_url req ∈ urlsToCache)) eqn:Hc.
  - apply andb_true_iff in Hc as [_ Hu%bool_decide_eq_true].
    destruct (Hnet _ Hu) as (r & Hr & _). unfold stored. by rewrite Hr.
  - cbn [fst sw_caches log_net]. rewrite first_visit_match. reflexivity.
Qed.

End FirstVisit.

(** C30: the [load] listener and the first visit.  Without the API, or
    when the registration rejects, the page runs without a worker.  With
    the API and a resolved registration, and when the install's download
    of every asset is accepted, the worker's own install and activate
    events take the system, with the page untouched, to an activated
    worker that works offline: with the network down it answers a GET of
    an asset with the answer stored at install, and any other request
    with the stored [/index.html]. *)
Theorem first_visit_offline sys o net :
  sys_loaded sys = false ->
  ((sys_supported sys = false \/ o = RegRejected) -> sys_worker (on_window_load o sys) = None) /\
  (sys_supported sys = true -> o = RegResolved ->
   (forall u, u ∈ urlsToCache -> exists r, net (request_of_url u) = NetOk r /\ add_all_accepts r = true) ->
   exists w, rtc sstep sys (mkSys (sys_page sys) (Some w) true true) /\ w_phase w = Activated /\
     forall req, (on_fetch req NetFail (w_sw w)).1 =
       if is_get req && bool_decide (req_url req ∈ urlsToCache) then stored net (req_url req)
       else stored net "/index.html").
Proof.
  intros Hl. split.
  - unfold on_window_load. simpl. intros [->| ->]; [done|]. by destruct (sys_supported sys).
  - intros Hs -> Hnet. set (sw1 := (on_install net sw_fresh).2).
    assert (Hi : on_install net sw_fresh = (Fulfilled, sw1)).
    { unfold sw1. rewrite <- (on_install_fulfilled net sw_fresh). apply surjective_pairing. }
    exists (mkWorker Activated (on_activate sw1) false). split_and!; [|done|by apply first_visit_fetch_offline].
    eapply rtc_l; [by apply (s_load RegResolved)|]. unfold on_window_load. rewrite Hs.
    eapply rtc_l; [apply (s_worker (EvInstall net) _ w_registered (mkWorker Installed sw1 false));
                   [done|by apply step_install]|].
    eapply rtc_l; [apply (s_worker EvActivate _ (mkWorker Installed sw1 false)); [done|]|apply rtc_refl].
    apply (step_activate (mkWorker Installed sw1 false)); [done|by right].
Qed.

Lemma first_visit_offline_witness :
  exists w, rtc sstep (sys_init demo_page false 0 true) (mkSys (app_load demo_page false 0) (Some w) true true) /\
    w_phase w = Activated /\
    forall req, (on_fetch req NetFail (w_sw w)).1 =
      if is_get req && bool_decide (req_url req ∈ urlsToCache) then stored net_serves (req_url req)
      else stored net_serves "/index.html".
Proof.
  apply (proj2 (first_visit_offline (sys_init demo_page false 0 true) RegResolved net_serves eq_refl));
    [reflexivity|reflexivity|].
  intros u _. eexists. split; reflexivity.
Defined.

End System.
